(** * Golestan schedule planner: the scheduling and conflict-resolution engine

    A shallow embedding of [core/course_utils.py], of the slot grid and the
    day list of [core/config.py], and of the placement and removal code of
    [main_window.py], followed by the properties of the engine. The last
    part covers more of the same files and of what they call: the greedy and
    the alternative scheduler, the priority list and the addition queue, the
    time filter, the Persian numerals, [generate_unique_key] of
    [core/data_manager.py], the removal of a whole course and the silent
    clearing of the table.

    Python values are modelled as follows.
    - A [str] is a [string]; non-ASCII text is kept as its UTF-8 bytes, so
      string equality is Python's.
    - An [int] is a [Z]; a [float] is a primitive binary64 [float].
    - A dict read with [d['k']] and [d.get('k', default)] is a record whose
      optional keys are [option] fields.
    - The catalog [COURSES] and the store [self.placed] are insertion-ordered
      dicts: association lists, looked up by their first matching key.
    - A raised exception is the [Raise] case of [result].

    Of the window, the model keeps what the engine reads and writes: the cell
    widgets of the schedule table, [self.placed], the preview cells and the
    priority list. Colours, styles, row spans and status panels are left out,
    building a Qt widget is taken not to fail, and the answer to the conflict
    dialog is an argument of the placement. *)

From Stdlib Require Import ZArith List String Ascii Bool Lia Floats.
From Stdlib Require Import Sorted DecimalString DecimalZ DecimalPos.
Import ListNotations.

Open Scope string_scope.
Open Scope list_scope.
Open Scope Z_scope.

(** ** Exceptions *)

Module Py.

Inductive exn : Type :=
| KeyError
| ValueError
| TypeError.

Inductive result (A : Type) : Type :=
| Ok (a : A)
| Raise (e : exn).

Arguments Ok {A} a.
Arguments Raise {A} e.

Definition bind {A B : Type} (r : result A) (k : A -> result B) : result B :=
  match r with
  | Ok a => k a
  | Raise e => Raise e
  end.

Definition of_option {A : Type} (e : exn) (o : option A) : result A :=
  match o with
  | Some a => Ok a
  | None => Raise e
  end.

End Py.

Import Py.

Notation "x <- r ;; k" := (Py.bind r (fun x => k))
  (at level 61, r at next level, right associativity).

(** ** Strings: the pieces of [str] the engine uses *)

Module Str.

(** The ASCII characters [str.isspace] accepts ([strip] skips them). Python
    also strips the non-ASCII white space of Unicode; catalog names that use
    it are outside this model. *)
Definition is_space (c : ascii) : bool :=
  let n := nat_of_ascii c in
  ((9 <=? n)%nat && (n <=? 13)%nat) || ((28 <=? n)%nat && (n <=? 32)%nat).

Definition digit_of (c : ascii) : option Z :=
  let n := nat_of_ascii c in
  if ((48 <=? n)%nat && (n <=? 57)%nat)%bool then Some (Z.of_nat n - 48) else None.

Fixpoint lstrip (s : string) : string :=
  match s with
  | String c r => if is_space c then lstrip r else s
  | EmptyString => EmptyString
  end.

(** [rstrip] drops the trailing white space: a character is kept when a
    character that is not white space follows it or it is not white space. *)
Fixpoint rstrip (s : string) : string :=
  match s with
  | EmptyString => EmptyString
  | String c r =>
      match rstrip r with
      | EmptyString => if is_space c then EmptyString else String c EmptyString
      | r' => String c r'
      end
  end.

Definition strip (s : string) : string := rstrip (lstrip s).

(** [s.split(sep)] for a one-character separator: always at least one piece. *)
Fixpoint split (sep : ascii) (s : string) : list string :=
  match s with
  | EmptyString => [EmptyString]
  | String c r =>
      if Ascii.eqb c sep then EmptyString :: split sep r
      else match split sep r with
           | p :: ps => String c p :: ps
           | [] => [String c EmptyString]
           end
  end.

(** [sub in s] *)
Fixpoint contains (sub s : string) : bool :=
  if String.prefix sub s then true
  else match s with
       | EmptyString => false
       | String _ r => contains sub r
       end.

(** The digits of a decimal literal, single underscores allowed between
    digits. [acc] is the value read so far, [after_digit] tells whether the
    previous character was a digit. *)
Fixpoint digits (acc : Z) (after_digit : bool) (s : string) : option Z :=
  match s with
  | EmptyString => if after_digit then Some acc else None
  | String c r =>
      match digit_of c with
      | Some d => digits (10 * acc + d) true r
      | None =>
          if (Ascii.eqb c "_" && after_digit)%bool then digits acc false r
          else None
      end
  end.

(** *** [int(s)] for a [str] argument, base 10

    CPython first rewrites the string: a character below 127 stays, another
    white-space character of Unicode becomes a space, another decimal digit
    of Unicode becomes its ASCII digit, and at any other character the
    string ends with a question mark. It then reads, in ASCII, optional
    white space as C's [isspace] has it, an optional sign, the digits and
    optional white space.

    The code points of a string, from its UTF-8 bytes; [-1] stands for a
    byte sequence that is no UTF-8, which a Python [str] never gives. *)
Fixpoint decode (s : string) (need : nat) (acc : Z) : list Z :=
  match s with
  | EmptyString => match need with O => [] | S _ => [-1] end
  | String c r =>
      let b := Z.of_nat (nat_of_ascii c) in
      match need with
      | O =>
          if b <? 128 then b :: decode r 0 0
          else if ((192 <=? b) && (b <? 224))%bool then decode r 1 (b - 192)
          else if ((224 <=? b) && (b <? 240))%bool then decode r 2 (b - 224)
          else if ((240 <=? b) && (b <? 248))%bool then decode r 3 (b - 240)
          else -1 :: decode r 0 0
      | S n =>
          if ((128 <=? b) && (b <? 192))%bool then
            let acc' := 64 * acc + (b - 128) in
            match n with
            | O => acc' :: decode r 0 0
            | S _ => decode r n acc'
            end
          else -1 :: decode r 0 0
      end
  end.

(** The white-space characters of Unicode from 127 on. *)
Definition unicode_spaces : list Z :=
  [133; 160; 5760; 8192; 8193; 8194; 8195; 8196; 8197; 8198; 8199; 8200; 8201; 8202;
   8232; 8233; 8239; 8287; 12288].

(** The digit zero of every script with decimal digits (Unicode 14, the
    table of Python 3.11), ASCII left out; the digits 1 to 9 of a script
    follow its zero. *)
Definition decimal_zeros : list Z :=
  [1632; 1776; 1984; 2406; 2534; 2662; 2790; 2918; 3046; 3174; 3302; 3430; 3558; 3664;
   3792; 3872; 4160; 4240; 6112; 6160; 6470; 6608; 6784; 6800; 6992; 7088; 7232; 7248;
   42528; 43216; 43264; 43472; 43504; 43600; 44016; 65296; 66720; 68912; 69734; 69872;
   69942; 70096; 70384; 70736; 70864; 71248; 71360; 71472; 71904; 72016; 72784; 73040;
   73120; 92768; 92864; 93008; 120782; 120792; 120802; 120812; 120822; 123200; 123632;
   125264; 130032].

Definition is_unicode_space (cp : Z) : bool := existsb (Z.eqb cp) unicode_spaces.

Definition to_decimal (cp : Z) : option Z :=
  option_map (fun zero => cp - zero)
    (find (fun zero => ((zero <=? cp) && (cp <=? zero + 9))%bool) decimal_zeros).

Definition ascii_of_Z (n : Z) : ascii := ascii_of_nat (Z.to_nat n).

Fixpoint transform (cps : list Z) : string :=
  match cps with
  | [] => EmptyString
  | cp :: r =>
      if ((0 <=? cp) && (cp <? 127))%bool then String (ascii_of_Z cp) (transform r)
      else if is_unicode_space cp then String " " (transform r)
      else
        match to_decimal cp with
        | Some d => String (ascii_of_Z (48 + d)) (transform r)
        | None => "?"
        end
  end.

(** C's [isspace]. *)
Definition is_c_space (c : ascii) : bool :=
  let n := nat_of_ascii c in
  ((9 <=? n)%nat && (n <=? 13)%nat) || (n =? 32)%nat.

Fixpoint skip_spaces (s : string) : string :=
  match s with
  | String c r => if is_c_space c then skip_spaces r else s
  | EmptyString => EmptyString
  end.

Fixpoint drop_trailing_spaces (s : string) : string :=
  match s with
  | EmptyString => EmptyString
  | String c r =>
      match drop_trailing_spaces r with
      | EmptyString => if is_c_space c then EmptyString else String c EmptyString
      | r' => String c r'
      end
  end.

Definition int (s : string) : result Z :=
  match drop_trailing_spaces (skip_spaces (transform (decode s 0 0))) with
  | String "+" r => of_option ValueError (digits 0 false r)
  | String "-" r => of_option ValueError (option_map Z.opp (digits 0 false r))
  | t => of_option ValueError (digits 0 false t)
  end.

(** [f"{n:02d}"] for [0 <= n < 100]. *)
Definition two_digits (n : Z) : string :=
  let d (k : Z) := ascii_of_nat (Z.to_nat (48 + k)) in
  String (d (n / 10)) (String (d (n mod 10)) EmptyString).

(** [l.index(x)]: the first position of [x], [ValueError] when absent. *)
Fixpoint index (l : list string) (x : string) : result Z :=
  match l with
  | [] => Raise ValueError
  | y :: r => if String.eqb y x then Ok 0 else (i <- index r x ;; Ok (i + 1))
  end.

(** [x in l] for a list of strings. *)
Definition mem (x : string) (l : list string) : bool :=
  existsb (String.eqb x) l.

End Str.

(** ** Catalog records ([core/config.py], §6 of the specification) *)

(** One entry of a course's ['schedule'] list. ['parity'] is read with
    [.get('parity', '')], so it may be absent. *)
Record session : Type := mkSession {
  day : string;
  start : string;
  end_ : string;
  parity : option string
}.

(** One value of [COURSES]. ['code'], ['name'] and ['schedule'] are read both
    with [.get] and with [[...]]; [extra] tells whether the dict holds any
    other key (instructor, credits, ...), which decides its truth value. *)
Record course : Type := mkCourse {
  code : option string;
  name : option string;
  schedule : option (list session);
  extra : bool
}.

Definition catalog : Type := list (string * course).

(** The parity markers: "ز" (even weeks) and "ف" (odd weeks). *)
Definition EVEN : string := "ز".
Definition ODD : string := "ف".

Definition get_parity (s : session) : string :=
  match parity s with
  | Some p => p
  | None => EmptyString
  end.

(** ** [core/course_utils.py] *)

(** [to_minutes]: ["HH:MM"] to minutes since midnight. The unpacking
    [h, mm = map(int, tstr.split(':'))] needs exactly two pieces, each an
    integer literal; everything else is a [ValueError]. *)
Definition to_minutes (tstr : string) : result Z :=
  match Str.split ":" tstr with
  | [p1; p2] =>
      h <- Str.int p1 ;;
      mm <- Str.int p2 ;;
      Ok (h * 60 + mm)
  | _ => Raise ValueError
  end.

Definition overlap (s1 e1 s2 e2 : Z) : bool :=
  negb ((e1 <=? s2) || (e2 <=? s1)).

Definition is_compatible (a_parity b_parity : string) : bool :=
  (String.eqb a_parity EVEN && String.eqb b_parity ODD)
  || (String.eqb a_parity ODD && String.eqb b_parity EVEN).

(** The body of the inner loop of [schedules_conflict] for one [a] and one
    [b]: [true] is the [return True], [false] a [continue] or fall-through. *)
Definition sessions_conflict (a b : session) : result bool :=
  if negb (String.eqb (day a) (day b)) then Ok false
  else if is_compatible (get_parity a) (get_parity b) then Ok false
  else
    s1 <- to_minutes (start a) ;;
    e1 <- to_minutes (end_ a) ;;
    s2 <- to_minutes (start b) ;;
    e2 <- to_minutes (end_ b) ;;
    Ok (overlap s1 e1 s2 e2).

(** [for b in sch2: ...] for a fixed [a]. *)
Fixpoint schedules_conflict_row (a : session) (sch2 : list session) : result bool :=
  match sch2 with
  | [] => Ok false
  | b :: r =>
      c <- sessions_conflict a b ;;
      if c then Ok true else schedules_conflict_row a r
  end.

Fixpoint schedules_conflict (sch1 sch2 : list session) : result bool :=
  match sch1 with
  | [] => Ok false
  | a :: r =>
      c <- schedules_conflict_row a sch2 ;;
      if c then Ok true else schedules_conflict r sch2
  end.

(** The conflict check on two sessions: two one-session schedules. *)
Definition conflicts (a b : session) : result bool :=
  schedules_conflict [a] [b].

(** Python's [list.sort]: a stable sort that compares with [<] only. *)
Fixpoint list_insert {A : Type} (lt : A -> A -> bool) (x : A) (l : list A) : list A :=
  match l with
  | [] => [x]
  | y :: r => if lt y x then y :: list_insert lt x r else x :: y :: r
  end.

Definition list_sort {A : Type} (lt : A -> A -> bool) (l : list A) : list A :=
  fold_right (list_insert lt) [] l.

(** [float(n)] for an [int]: the nearest binary64 value, ties to even. From
    [2^1024 - 2^970] on, where Python raises [OverflowError], the model has
    an infinity; a minute count of more than 300 digits is outside it. *)
Definition float_of_Z (z : Z) : float :=
  SF2Prim (binary_normalize prec emax z 0 false).

(** [itertools.product] applied to the groups. *)
Fixpoint product {A : Type} (groups : list (list A)) : list (list A) :=
  match groups with
  | [] => [[]]
  | g :: r => flat_map (fun x => map (cons x) (product r)) g
  end.

(** A [set] of strings, as the list of its members. *)
Definition set_add (x : string) (s : list string) : list string :=
  if Str.mem x s then s else s ++ [x].

(** One element of the list [generate_best_combinations_for_groups] returns. *)
Record combo : Type := mkCombo {
  courses : list string;
  days : Z;
  empty : float;
  score : float
}.

(** The ['method'] of a result: ['Priority Greedy'], or
    [f'Skip {skip_count} Lower Priority']. *)
Inductive method_label : Type :=
| PriorityGreedy
| SkipLowerPriority (skip_count : Z).

(** One element of the list [generate_priority_based_schedules] returns. *)
Record schedule_result : Type := mkScheduleResult {
  sr_courses : list string;
  sr_method : method_label;
  sr_score : Z;
  sr_priority_preserved : bool;
  sr_days : Z;
  sr_empty : float
}.

Section CourseUtils.

Variable COURSES : catalog.

(** [COURSES.get(key)] *)
Fixpoint assoc_get {V : Type} (key : string) (d : list (string * V)) : option V :=
  match d with
  | [] => None
  | (k, v) :: r => if String.eqb k key then Some v else assoc_get key r
  end.

Definition COURSES_get (key : string) : option course := assoc_get key COURSES.

(** [COURSES[key]] *)
Definition COURSES_item (key : string) : result course :=
  of_option KeyError (COURSES_get key).

(** [key in COURSES] *)
Definition COURSES_mem (key : string) : bool :=
  match COURSES_get key with
  | Some _ => true
  | None => false
  end.

(** [c['schedule']] and [c.get('schedule', [])], likewise for the others. *)
Definition schedule_item (c : course) : result (list session) :=
  of_option KeyError (schedule c).

Definition schedule_get (c : course) : list session :=
  match schedule c with
  | Some s => s
  | None => []
  end.

Definition code_get (c : course) : string :=
  match code c with
  | Some s => s
  | None => EmptyString
  end.

Definition name_get (c : course) : string :=
  match name c with
  | Some s => s
  | None => EmptyString
  end.

(** [calculate_days_needed_for_combo] *)
Fixpoint add_days (items : list session) (days : list string) : list string :=
  match items with
  | [] => days
  | item :: r => add_days r (set_add (day item) days)
  end.

Fixpoint collect_days (combo_keys : list string) (days : list string)
  : result (list string) :=
  match combo_keys with
  | [] => Ok days
  | key :: r =>
      c <- COURSES_item key ;;
      items <- schedule_item c ;;
      collect_days r (add_days items days)
  end.

Definition calculate_days_needed_for_combo (combo_keys : list string) : result Z :=
  days <- collect_days combo_keys [] ;;
  Ok (Z.of_nat (List.length days)).

(** [calculate_empty_time_for_combo]. [daily] maps a day to the list of its
    [(start, end)] pairs, in minutes. *)
Definition daily_map : Type := list (string * list (Z * Z)).

Fixpoint daily_append (d : string) (iv : Z * Z) (daily : daily_map) : daily_map :=
  match daily with
  | [] => [(d, [iv])]
  | (d', l) :: r =>
      if String.eqb d' d then (d', l ++ [iv]) :: r
      else (d', l) :: daily_append d iv r
  end.

Fixpoint add_intervals (items : list session) (daily : daily_map) : result daily_map :=
  match items with
  | [] => Ok daily
  | item :: r =>
      s <- to_minutes (start item) ;;
      e <- to_minutes (end_ item) ;;
      add_intervals r (daily_append (day item) (s, e) daily)
  end.

Fixpoint collect_daily (combo_keys : list string) (daily : daily_map) : result daily_map :=
  match combo_keys with
  | [] => Ok daily
  | key :: r =>
      c <- COURSES_item key ;;
      items <- schedule_item c ;;
      daily' <- add_intervals items daily ;;
      collect_daily r daily'
  end.

(** [<] on tuples of two [int]s. *)
Definition pair_ltb (x y : Z * Z) : bool :=
  if negb (fst x =? fst y) then fst x <? fst y
  else if negb (snd x =? snd y) then snd x <? snd y
  else false.

(** [for i in range(len(intervals) - 1): ...] *)
Fixpoint add_gaps (intervals : list (Z * Z)) (penalty : float) : float :=
  match intervals with
  | a :: (b :: _) as r =>
      let gap := fst b - snd a in
      add_gaps r (if gap >? 15 then (penalty + float_of_Z gap / 60)%float else penalty)
  | _ => penalty
  end.

Definition add_day_gaps (penalty : float) (entry : string * list (Z * Z)) : float :=
  add_gaps (list_sort pair_ltb (snd entry)) penalty.

Definition calculate_empty_time_for_combo (combo_keys : list string) : result float :=
  daily <- collect_daily combo_keys [] ;;
  Ok (fold_left add_day_gaps daily 0%float).

(** [generate_best_combinations_for_groups] *)
Definition candidates_by_prefix (g : string) : list string :=
  map fst
    (filter
       (fun kv => String.eqb (hd EmptyString (Str.split "_" (code_get (snd kv)))) g)
       COURSES).

Definition candidates_by_name (g : string) : list string :=
  map fst
    (filter (fun kv => String.eqb (code_get (snd kv)) g
                       || Str.contains g (name_get (snd kv)))
       COURSES).

Definition candidates_of (g : string) : list string :=
  match candidates_by_prefix g with
  | [] => candidates_by_name g
  | cs => cs
  end.

(** The first loop; [None] is its [return []]. *)
Fixpoint build_groups (group_keys : list string) (groups : list (list string))
  : option (list (list string)) :=
  match group_keys with
  | [] => Some groups
  | g :: r =>
      match candidates_of g with
      | [] => None
      | cs => build_groups r (groups ++ [cs])
      end
  end.

(** [for j in range(i + 1, len(keys))]: [true] when the loop broke on a
    conflict. *)
Fixpoint conflicts_with_later (ki : string) (later : list string) : result bool :=
  match later with
  | [] => Ok false
  | kj :: r =>
      ci <- COURSES_item ki ;;
      si <- schedule_item ci ;;
      cj <- COURSES_item kj ;;
      sj <- schedule_item cj ;;
      c <- schedules_conflict si sj ;;
      if c then Ok true else conflicts_with_later ki r
  end.

(** The value of [ok] after the two nested loops. *)
Fixpoint pick_ok (keys : list string) : result bool :=
  match keys with
  | [] => Ok true
  | ki :: later =>
      c <- conflicts_with_later ki later ;;
      if c then Ok false else pick_ok later
  end.

Definition make_combo (keys : list string) : result combo :=
  days <- calculate_days_needed_for_combo keys ;;
  empty <- calculate_empty_time_for_combo keys ;;
  Ok (mkCombo keys days empty (float_of_Z days + 0.5 * empty)%float).

Fixpoint collect_combos (picks : list (list string)) (combos : list combo)
  : result (list combo) :=
  match picks with
  | [] => Ok combos
  | keys :: r =>
      ok <- pick_ok keys ;;
      if ok then (c <- make_combo keys ;; collect_combos r (combos ++ [c]))
      else collect_combos r combos
  end.

(** [<] on the sort key [(x['days'], x['empty'], x['score'])]. *)
Definition combo_key_ltb (x y : combo) : bool :=
  if negb (days x =? days y) then days x <? days y
  else if negb (PrimFloat.eqb (empty x) (empty y)) then PrimFloat.ltb (empty x) (empty y)
  else if negb (PrimFloat.eqb (score x) (score y)) then PrimFloat.ltb (score x) (score y)
  else false.

Definition generate_best_combinations_for_groups (group_keys : list string)
  : result (list combo) :=
  match build_groups group_keys [] with
  | None => Ok []
  | Some groups =>
      combos <- collect_combos (product groups) [] ;;
      Ok (list_sort combo_key_ltb combos)
  end.

(** [create_greedy_schedule] *)

(** [for selected_key in selected_courses: ... break], and the [any(...)] of
    [create_alternative_schedule]: both stop at the first conflict. *)
Fixpoint has_conflict_with (current_schedule : list session) (selected : list string)
  : result bool :=
  match selected with
  | [] => Ok false
  | sel :: r =>
      c <- COURSES_item sel ;;
      hit <- schedules_conflict current_schedule (schedule_get c) ;;
      if hit then Ok true else has_conflict_with current_schedule r
  end.

Fixpoint greedy_loop (keys : list string) (selected_courses : list string)
  : result (list string) :=
  match keys with
  | [] => Ok selected_courses
  | course_key :: r =>
      match COURSES_get course_key with
      | None => greedy_loop r selected_courses
      | Some c =>
          has_conflict <- has_conflict_with (schedule_get c) selected_courses ;;
          if has_conflict then greedy_loop r selected_courses
          else greedy_loop r (selected_courses ++ [course_key])
      end
  end.

Definition create_greedy_schedule (ordered_course_keys : list string)
  : result (list string) :=
  greedy_loop ordered_course_keys [].

(** [create_alternative_schedule] *)
Fixpoint alternative_first_loop (keys : list string) (skip_count : Z)
    (selected_courses skipped_courses : list string)
  : result (list string * list string) :=
  match keys with
  | [] => Ok (selected_courses, skipped_courses)
  | course_key :: r =>
      if Z.of_nat (List.length skipped_courses) >=? skip_count
      then Ok (selected_courses, skipped_courses)
      else
        c <- COURSES_item course_key ;;
        has_conflict <- has_conflict_with (schedule_get c) selected_courses ;;
        if has_conflict
        then alternative_first_loop r skip_count selected_courses
               (skipped_courses ++ [course_key])
        else alternative_first_loop r skip_count (selected_courses ++ [course_key])
               skipped_courses
  end.

Fixpoint alternative_second_loop (keys : list string)
    (selected_courses skipped_courses : list string)
  : result (list string) :=
  match keys with
  | [] => Ok selected_courses
  | course_key :: r =>
      if negb (Str.mem course_key selected_courses)
         && negb (Str.mem course_key skipped_courses)
      then
        c <- COURSES_item course_key ;;
        has_conflict <- has_conflict_with (schedule_get c) selected_courses ;;
        if has_conflict
        then alternative_second_loop r selected_courses skipped_courses
        else alternative_second_loop r (selected_courses ++ [course_key]) skipped_courses
      else alternative_second_loop r selected_courses skipped_courses
  end.

Definition create_alternative_schedule (ordered_course_keys : list string)
    (skip_count : Z) : result (list string) :=
  st <- alternative_first_loop ordered_course_keys skip_count [] [] ;;
  alternative_second_loop ordered_course_keys (fst st) (snd st).

(** [generate_priority_based_schedules] *)
Definition list_eqb (a b : list string) : bool :=
  if list_eq_dec string_dec a b then true else false.

Definition make_result (cs : list string) (m : method_label) (sc : Z)
  : result schedule_result :=
  d <- calculate_days_needed_for_combo cs ;;
  e <- calculate_empty_time_for_combo cs ;;
  Ok (mkScheduleResult cs m sc true d e).

(** [for skip_count in range(1, min(4, len(ordered_course_keys)))], as the
    list of the values of [skip_count] still to run. *)
Fixpoint alternatives_loop (ordered_course_keys : list string) (skips : list Z)
    (valid_schedules : list schedule_result) : result (list schedule_result) :=
  match skips with
  | [] => Ok valid_schedules
  | skip_count :: r =>
      alternative <- create_alternative_schedule ordered_course_keys skip_count ;;
      match alternative with
      | [] => alternatives_loop ordered_course_keys r valid_schedules
      | _ =>
          if existsb (list_eqb alternative) (map sr_courses valid_schedules)
          then alternatives_loop ordered_course_keys r valid_schedules
          else
            s <- make_result alternative (SkipLowerPriority skip_count)
                   (Z.of_nat (List.length alternative) * 100 - skip_count * 10) ;;
            alternatives_loop ordered_course_keys r (valid_schedules ++ [s])
      end
  end.

(** [range(1, n)] *)
Definition range_from_1 (n : Z) : list Z :=
  map (fun i => Z.of_nat i + 1) (seq 0 (Z.to_nat (n - 1))).

Definition generate_priority_based_schedules (ordered_course_keys : list string)
  : result (list schedule_result) :=
  greedy_schedule <- create_greedy_schedule ordered_course_keys ;;
  valid_schedules <-
    match greedy_schedule with
    | [] => Ok []
    | _ =>
        s <- make_result greedy_schedule PriorityGreedy
               (Z.of_nat (List.length greedy_schedule) * 100) ;;
        Ok [s]
    end ;;
  valid_schedules' <-
    alternatives_loop ordered_course_keys
      (range_from_1 (Z.min 4 (Z.of_nat (List.length ordered_course_keys))))
      valid_schedules ;;
  Ok (list_sort (fun x y => sr_score y <? sr_score x) valid_schedules').

End CourseUtils.

(** ** [core/config.py]: the slot grid and the days *)

(** [generate_extended_time_slots]: ["07:00"], ["07:30"], ... ["19:00"]. The
    [while m <= end_minutes] loop runs [(end - start) / 30 + 1] times. *)
Definition format_slot (m : Z) : string :=
  (Str.two_digits (m / 60) ++ ":" ++ Str.two_digits (m mod 60))%string.

Definition generate_slots (start_minutes end_minutes : Z) : list string :=
  map (fun i => format_slot (start_minutes + 30 * Z.of_nat i))
    (seq 0 (Z.to_nat ((end_minutes - start_minutes) / 30 + 1))).

Definition EXTENDED_TIME_SLOTS : list string :=
  Eval vm_compute in generate_slots (7 * 60) (19 * 60).

(** [get_days()]: the canonical day names, Saturday first. *)
Definition DAYS : list string :=
  ["شنبه";
   "یکشنبه";
   "دوشنبه";
   "سه‌شنبه";
   "چهارشنبه";
   "پنج‌شنبه";
   "جمعه"].

(** ** [main_window.py]: the schedule table and [self.placed] *)

Definition cell : Type := (Z * Z)%type.

Definition cell_eqb (a b : cell) : bool :=
  (fst a =? fst b) && (snd a =? snd b).

(** An insertion-ordered dict keyed by [(row, col)]. *)
Fixpoint dict_get {V : Type} (k : cell) (d : list (cell * V)) : option V :=
  match d with
  | [] => None
  | (k', v) :: r => if cell_eqb k' k then Some v else dict_get k r
  end.

(** [d[k] = v]: an existing key keeps its position. *)
Fixpoint dict_set {V : Type} (k : cell) (v : V) (d : list (cell * V)) : list (cell * V) :=
  match d with
  | [] => [(k, v)]
  | (k', v') :: r => if cell_eqb k' k then (k', v) :: r else (k', v') :: dict_set k v r
  end.

(** [del d[k]], for a key that may be absent. *)
Fixpoint dict_del {V : Type} (k : cell) (d : list (cell * V)) : list (cell * V) :=
  match d with
  | [] => []
  | (k', v') :: r => if cell_eqb k' k then r else (k', v') :: dict_del k r
  end.

Definition dict_mem {V : Type} (k : cell) (d : list (cell * V)) : bool :=
  match dict_get k d with
  | Some _ => true
  | None => false
  end.

(** The [odd_data] and [even_data] dicts of a dual widget (colours left out). *)
Record course_data : Type := mkData {
  cd_course : course;
  cd_course_key : string;
  cd_session : session
}.

(** The widgets a table cell can hold. Every widget object has its own
    identity [id]; [==] on widgets compares identities.
    - [CourseWidget]: an [AnimatedCourseWidget]; [course_key] is its attribute
      of that name when it has one, [course_info_name] is
      [course_info.get('name')] when it has that.
    - [DualCourseWidget]: a [SimpleDualCourseWidget].
    - [PlainWidget]: the bare [QWidget] of a preview. *)
Inductive widget : Type :=
| CourseWidget (id : nat) (course_key : option string) (course_info_name : option string)
| DualCourseWidget (id : nat) (odd_data even_data : course_data)
| PlainWidget (id : nat).

Definition widget_id (w : widget) : nat :=
  match w with
  | CourseWidget i _ _ => i
  | DualCourseWidget i _ _ => i
  | PlainWidget i => i
  end.

(** The values of [self.placed]: a dict with ['course'] (one course) or with
    ['type': 'dual'] and ['courses']. The ['widget'] of a dual entry is always
    a [SimpleDualCourseWidget]: the entry holds its identity and its data. *)
Inductive info : Type :=
| SingleInfo (course_key : string) (rows : Z) (w : option widget)
| DualInfo (courses : list string) (rows : Z)
    (id : nat) (odd_data even_data : course_data).

Definition info_is_dual (i : info) : bool :=
  match i with
  | DualInfo _ _ _ _ _ => true
  | SingleInfo _ _ _ => false
  end.

(** [info.get('course')] *)
Definition info_course (i : info) : option string :=
  match i with
  | SingleInfo k _ _ => Some k
  | DualInfo _ _ _ _ _ => None
  end.

(** [info.get('courses', [])] *)
Definition info_courses (i : info) : list string :=
  match i with
  | SingleInfo _ _ _ => []
  | DualInfo cs _ _ _ _ => cs
  end.

(** [info['rows']] *)
Definition info_rows (i : info) : Z :=
  match i with
  | SingleInfo _ r _ => r
  | DualInfo _ r _ _ _ => r
  end.

(** [info.get('widget')] *)
Definition info_widget (i : info) : option widget :=
  match i with
  | SingleInfo _ _ w => w
  | DualInfo _ _ id odd_data even_data => Some (DualCourseWidget id odd_data even_data)
  end.

(** The part of the window the engine reads and writes: the cell widgets of
    [schedule_table], [self.placed], [self.preview_cells], and the identity
    the next widget object gets. The row spans of the table are display only
    and are left out. *)
Record window : Type := mkWindow {
  table : list (cell * widget);
  placed : list (cell * info);
  preview_cells : list (Z * Z * Z);
  next_id : nat
}.

(** The table has [len(EXTENDED_TIME_SLOTS) - 1] rows and seven columns; Qt
    ignores a cell widget set outside of them. *)
Definition in_table (k : cell) : bool :=
  (0 <=? fst k) && (fst k <? Z.of_nat (List.length EXTENDED_TIME_SLOTS) - 1)
  && (0 <=? snd k) && (snd k <? 7).

Definition cellWidget (w : window) (k : cell) : option widget :=
  dict_get k (table w).

Definition setCellWidget (k : cell) (x : widget) (w : window) : window :=
  if in_table k
  then mkWindow (dict_set k x (table w)) (placed w) (preview_cells w) (next_id w)
  else w.

Definition removeCellWidget (k : cell) (w : window) : window :=
  mkWindow (dict_del k (table w)) (placed w) (preview_cells w) (next_id w).

Definition set_placed (p : list (cell * info)) (w : window) : window :=
  mkWindow (table w) p (preview_cells w) (next_id w).

Definition fresh_id (w : window) : nat * window :=
  (next_id w, mkWindow (table w) (placed w) (preview_cells w) (S (next_id w))).

(** [clear_preview], as far as it touches the cell widgets. *)
Definition clear_preview (w : window) : window :=
  let w' := fold_left (fun acc p => removeCellWidget (fst (fst p), snd (fst p)) acc)
              (preview_cells w) w in
  mkWindow (table w') (placed w') [] (next_id w').

(** A session that resolved to the grid: [(srow, col, span, sess)]. *)
Definition placement : Type := (Z * Z * Z * session)%type.

(** An entry of [conflicts]:
    [((srow, col), (prow, pcol), course_key, course_name)]. *)
Definition conflict : Type := (cell * cell * string * string)%type.

Definition conflict_key (c : conflict) : string := snd (fst c).
Definition conflict_name (c : conflict) : string := snd c.

(** A value of [compatible_slots]. *)
Record compatible_slot : Type := mkCompat {
  existing : info;
  existing_session : session;
  new_session : session;
  cs_span : Z;
  existing_course_key : string;
  existing_widget : option widget
}.

(** The answer to the conflict dialog. *)
Inductive dialog_answer : Type :=
| Yes
| No
| Cancel.

(** How [_add_course_internal] ended. The function returns [None] on every
    path that returns; the outcome names the path, with what its dialog
    shows. [Failed e] is the exception [e] leaving the function: nothing in
    it catches the exceptions modelled here. *)
Inductive outcome : Type :=
| RejectedHigherPriority (higher_priority_conflicts : list (string * string * Z))
| Declined
| SkippedOnConflict
| Added
| Failed (e : exn).

(** Truth value of a course dict: a dict is false when it has no key. *)
Definition course_truthy (c : course) : bool :=
  match code c, name c, schedule c with
  | None, None, None => extra c
  | _, _, _ => true
  end.

Definition empty_course : course := mkCourse None None None false.

Definition nonempty (s : string) : bool := negb (String.eqb s EmptyString).

Section MainWindow.

Variable COURSES : catalog.

(** The items of [self.auto_select_list]: the course key of the item
    ([UserRole]) and its priority ([UserRole + 1]), each possibly [None]. *)
Variable auto_select_list : list (option string * option Z).

(** [translator.t('messages.unknown')] *)
Variable unknown : string.

(** The class [AnimatedCourseWidget] is not part of the sources at hand. Its
    constructor is taken as a parameter: for the course key it is given, the
    [course_key] attribute it leaves on the widget (if any) and the name its
    [course_info] holds (if any). *)
Variable AnimatedCourseWidget : string -> option string * option string.

(** [COURSES.get(key, {})] *)
Definition COURSES_get_or_empty (key : string) : course :=
  match COURSES_get COURSES key with
  | Some c => c
  | None => empty_course
  end.

(** [course['name']] *)
Definition name_item (c : course) : result string := of_option KeyError (name c).

(** [get_course_priority] *)
Fixpoint get_course_priority_from (items : list (option string * option Z))
    (course_key : string) : Z :=
  match items with
  | [] => 999
  | (Some k, Some priority) :: r =>
      if String.eqb k course_key then priority
      else get_course_priority_from r course_key
  | _ :: r => get_course_priority_from r course_key
  end.

Definition get_course_priority (course_key : string) : Z :=
  get_course_priority_from auto_select_list course_key.

(** *** [_add_course_internal]: the placements (lines 3416-3436) *)

(** The grid rows of a session, [None] on the [ValueError] of either
    [EXTENDED_TIME_SLOTS.index]. *)
Definition slot_rows (sess : session) : option (Z * Z) :=
  match Str.index EXTENDED_TIME_SLOTS (start sess) with
  | Ok srow =>
      match Str.index EXTENDED_TIME_SLOTS (end_ sess) with
      | Ok erow => Some (srow, erow)
      | Raise _ => None
      end
  | Raise _ => None
  end.

(** The loop over [course['schedule']]. The second component lists the
    sessions the invalid-time warning was shown for; the warning reads
    [course["name"]], a [KeyError] when the course has none. *)
Fixpoint build_placements (c : course) (sched : list session)
    (placements : list placement) (warned : list session)
  : result (list placement * list session) :=
  match sched with
  | [] => Ok (placements, warned)
  | sess :: r =>
      if negb (Str.mem (day sess) DAYS) then build_placements c r placements warned
      else
        col <- Str.index DAYS (day sess) ;;
        match slot_rows sess with
        | None =>
            _ <- name_item c ;;
            build_placements c r placements (warned ++ [sess])
        | Some (srow, erow) =>
            let span := Z.max 1 (erow - srow) in
            build_placements c r (placements ++ [(srow, col, span, sess)]) warned
        end
  end.

(** *** The conflict scan, first pass: the cell widgets (lines 3444-3565) *)

(** The session of the existing course that fills exactly the rows
    [srow .. srow + span]. *)
Fixpoint find_exact_session (sched : list session) (d : string) (srow span : Z)
  : option session :=
  match sched with
  | [] => None
  | e :: r =>
      if String.eqb (day e) d then
        match slot_rows e with
        | Some (existing_start, existing_end) =>
            if (existing_start =? srow) && (existing_end =? srow + span) then Some e
            else find_exact_session r d srow span
        | None => find_exact_session r d srow span
        end
      else find_exact_session r d srow span
  end.

Definition dual_conflict_name (odd_data even_data : course_data) : string :=
  let odd_course_name := name_get (cd_course odd_data) in
  let even_course_name := name_get (cd_course even_data) in
  if nonempty odd_course_name && nonempty even_course_name
  then (odd_course_name ++ " / " ++ even_course_name)%string
  else if nonempty odd_course_name then odd_course_name
  else if nonempty even_course_name then even_course_name
  else unknown.

Definition scan_state : Type := (list conflict * list (cell * compatible_slot))%type.

Definition add_conflict (c : conflict) (st : scan_state) : scan_state :=
  (fst st ++ [c], snd st).

Definition add_compatible (k : cell) (c : compatible_slot) (st : scan_state) : scan_state :=
  (fst st, dict_set k c (snd st)).

Definition check_table_cell (w : window) (course_key : string) (p : placement)
    (st : scan_state) : scan_state :=
  let '(srow, col, span, sess) := p in
  match cellWidget w (srow, col) with
  | Some (DualCourseWidget _ odd_data even_data) =>
      if String.eqb (cd_course_key odd_data) course_key
         || String.eqb (cd_course_key even_data) course_key
      then st
      else add_conflict ((srow, col), (srow, col), "dual_widget",
                         dual_conflict_name odd_data even_data) st
  | Some (CourseWidget _ (Some existing_course_key) course_info_name) =>
      if String.eqb existing_course_key course_key then st
      else
        let existing_course := COURSES_get_or_empty existing_course_key in
        let existing_sess :=
          find_exact_session (schedule_get existing_course) (day sess) srow span in
        if course_truthy existing_course then
          let existing_course_name :=
            let n := Str.strip (name_get existing_course) in
            if nonempty n then n
            else
              let n' := match course_info_name with Some x => x | None => EmptyString end in
              if nonempty n' then n' else unknown in
          match existing_sess with
          | Some es =>
              if is_compatible (get_parity sess) (get_parity es) then
                let existing_info :=
                  match dict_get (srow, col) (placed w) with
                  | Some i => i
                  | None => SingleInfo existing_course_key span None
                  end in
                add_compatible (srow, col)
                  (mkCompat existing_info es sess span existing_course_key
                     (cellWidget w (srow, col))) st
              else add_conflict ((srow, col), (srow, col), existing_course_key,
                                 existing_course_name) st
          | None => add_conflict ((srow, col), (srow, col), existing_course_key,
                                  existing_course_name) st
          end
        else if nonempty existing_course_key then
          let existing_course_name :=
            match course_info_name with Some x => x | None => unknown end in
          add_conflict ((srow, col), (srow, col), existing_course_key,
                        existing_course_name) st
        else st
  | _ => st
  end.

(** *** The conflict scan, second pass: [self.placed] (lines 3568-3699) *)

(** What the loop over the sessions of an existing course found. *)
Inductive overlap_scan : Type :=
| ScanNone
| ScanBadSlot
| ScanCompatible (existing_sess : session)
| ScanConflict.

Fixpoint scan_overlap (sched : list session) (sess : session) (srow span : Z)
  : overlap_scan :=
  match sched with
  | [] => ScanNone
  | existing_sess :: r =>
      if negb (String.eqb (day existing_sess) (day sess)) then scan_overlap r sess srow span
      else
        match slot_rows existing_sess with
        | None => ScanBadSlot
        | Some (existing_start, existing_end) =>
            if negb ((srow + span <=? existing_start) || (existing_end <=? srow)) then
              if is_compatible (get_parity sess) (get_parity existing_sess)
              then ScanCompatible existing_sess
              else ScanConflict
            else scan_overlap r sess srow span
        end
  end.

Definition display_name (c : course) : string :=
  let n := Str.strip (name_get c) in
  if nonempty n then n else unknown.

Definition check_placed_entry (course_key : string) (p : placement)
    (entry : cell * info) (st : scan_state) : scan_state :=
  let '(srow, col, span, sess) := p in
  let '((prow, pcol), i) := entry in
  if negb (pcol =? col) then st
  else
    let is_same_course :=
      if info_is_dual i then Str.mem course_key (info_courses i)
      else match info_course i with
           | Some k => String.eqb k course_key
           | None => false
           end in
    if is_same_course then st
    else if negb ((srow + span <=? prow) || (prow + info_rows i <=? srow)) then
      let existing_course_key :=
        if info_is_dual i then hd_error (info_courses i) else info_course i in
      match existing_course_key with
      | None => st
      | Some k =>
          let existing_course := COURSES_get_or_empty k in
          if negb (course_truthy existing_course) then st
          else
            match scan_overlap (schedule_get existing_course) sess srow span with
            | ScanBadSlot => st
            | ScanCompatible existing_sess =>
                if negb (dict_mem (srow, col) (snd st)) && negb (String.eqb k course_key)
                then add_compatible (srow, col)
                       (mkCompat i existing_sess sess span k None) st
                else st
            | ScanConflict =>
                add_conflict ((srow, col), (prow, pcol), k, display_name existing_course) st
            | ScanNone =>
                let existing_course_name := display_name existing_course in
                if nonempty existing_course_name
                   && negb (String.eqb existing_course_name unknown)
                then add_conflict ((srow, col), (prow, pcol), k, existing_course_name) st
                else st
            end
      end
    else st.

Definition check_placed (w : window) (course_key : string) (p : placement)
    (st : scan_state) : scan_state :=
  let '(srow, col, _, _) := p in
  if dict_mem (srow, col) (snd st) then st
  else fold_left (fun acc entry => check_placed_entry course_key p entry acc) (placed w) st.

Definition find_conflicts (w : window) (course_key : string)
    (placements : list placement) : scan_state :=
  let st1 := fold_left (fun acc p => check_table_cell w course_key p acc)
               placements ([], []) in
  fold_left (fun acc p => check_placed w course_key p acc) placements st1.

(** *** Removal (lines 4180-4429) *)

(** [remove_placed_by_start] *)
Definition remove_placed_by_start (start_tuple : cell) (w : window) : window :=
  match dict_get start_tuple (placed w) with
  | None => w
  | Some _ =>
      let w1 := removeCellWidget start_tuple w in
      set_placed (dict_del start_tuple (placed w1)) w1
  end.

(** [SimpleDualCourseWidget.get_other_course_data] *)
Definition get_other_course_data (odd_data even_data : course_data)
    (removed_course_key : string) : course_data :=
  if String.eqb removed_course_key (cd_course_key odd_data) then even_data
  else odd_data.

(** Whether an entry of [self.placed] holds [key]. *)
Definition info_holds (key : string) (i : info) : bool :=
  if info_is_dual i then Str.mem key (info_courses i)
  else match info_course i with
       | Some k => String.eqb k key
       | None => false
       end.

(** The search for another cell of the other course: every entry but the one
    at [here] and, in [_remove_course_sessions_except_cell], the one at
    [except_cell]. *)
Definition has_other_sessions (other_course_key : string) (here : cell)
    (except_cell : option cell) (p : list (cell * info)) : bool :=
  existsb (fun entry =>
             let skipped := match except_cell with
                            | Some e => cell_eqb (fst entry) e
                            | None => false
                            end in
             negb skipped && negb (cell_eqb (fst entry) here)
             && info_holds other_course_key (snd entry)) p.

(** The scan shared, line for line, by [remove_course_from_schedule]
    ([except_cell = None]) and [_remove_course_sessions_except_cell]: the
    dual widgets to convert, by identity with their data, and the cells to
    remove. [all] is the whole of [self.placed], [p] what is left to scan. *)
Definition dual_ref : Type := (nat * course_data * course_data)%type.

Fixpoint removal_scan (course_key : string) (except_cell : option cell)
    (all p : list (cell * info)) : list dual_ref * list cell :=
  match p with
  | [] => ([], [])
  | (k, i) :: r =>
      let '(to_convert, to_remove) := removal_scan course_key except_cell all r in
      let skipped := match except_cell with
                     | Some e => cell_eqb k e
                     | None => false
                     end in
      if skipped then (to_convert, to_remove)
      else
        match i with
        | DualInfo cs _ id odd_data even_data =>
            if Str.mem course_key cs then
              let other_course_key :=
                cd_course_key (get_other_course_data odd_data even_data course_key) in
              if has_other_sessions other_course_key k except_cell all
              then ((id, odd_data, even_data) :: to_convert, to_remove)
              else (to_convert, k :: to_remove)
            else (to_convert, to_remove)
        | SingleInfo c _ _ =>
            if String.eqb c course_key then (to_convert, k :: to_remove)
            else (to_convert, to_remove)
        end
  end.

(** The position and span of a dual widget in [self.placed], by identity. *)
Fixpoint find_dual_widget (id : nat) (p : list (cell * info)) : option (cell * Z) :=
  match p with
  | [] => None
  | (k, DualInfo _ rows id' _ _) :: r =>
      if Nat.eqb id' id then Some (k, rows) else find_dual_widget id r
  | _ :: r => find_dual_widget id r
  end.

(** The two loops that end both removal functions. [convert] is
    [remove_course_from_dual_widget] for the course key at hand; [None] only
    when it ran out of fuel. *)
Fixpoint convert_all (convert : dual_ref -> window -> option window)
    (to_convert : list dual_ref) (w : window) : option window :=
  match to_convert with
  | [] => Some w
  | d :: r =>
      match convert d w with
      | Some w' => convert_all convert r w'
      | None => None
      end
  end.

Definition remove_all (to_remove : list cell) (w : window) : window :=
  fold_left (fun acc start_tuple =>
               if dict_mem start_tuple (placed acc)
               then remove_placed_by_start start_tuple acc
               else acc) to_remove w.

(** [_remove_course_sessions_except_cell], given the function to convert a
    dual widget. *)
Definition remove_course_sessions_except_cell_with
    (convert : dual_ref -> window -> option window)
    (course_key : string) (except_cell : cell) (w : window) : option window :=
  let '(to_convert, to_remove) :=
    removal_scan course_key (Some except_cell) (placed w) (placed w) in
  match convert_all convert to_convert w with
  | Some w' => Some (remove_all to_remove w')
  | None => None
  end.

(** [remove_course_from_dual_widget]. It calls
    [_remove_course_sessions_except_cell], which calls it back for the other
    dual widgets of the course: the recursion is bounded by [fuel], and every
    call that finds its widget takes one dual entry out of [self.placed]. *)
Fixpoint remove_course_from_dual_widget (fuel : nat) (course_key : string)
    (dual_widget : dual_ref) (w : window) : option window :=
  match fuel with
  | O => None
  | S fuel' =>
      let '(id, odd_data, even_data) := dual_widget in
      let other_course_data := get_other_course_data odd_data even_data course_key in
      let other_course_key := cd_course_key other_course_data in
      match find_dual_widget id (placed w) with
      | None => Some w
      | Some (widget_position, span) =>
          let w1 := removeCellWidget widget_position w in
          let w2 := set_placed (dict_del widget_position (placed w1)) w1 in
          if negb (course_truthy (COURSES_get_or_empty other_course_key)) then Some w2
          else
            let '(wid, w3) := fresh_id w2 in
            let attrs := AnimatedCourseWidget other_course_key in
            let cell_widget := CourseWidget wid (fst attrs) (snd attrs) in
            let w4 := setCellWidget widget_position cell_widget w3 in
            let w5 := set_placed
                        (dict_set widget_position
                           (SingleInfo other_course_key span (Some cell_widget))
                           (placed w4)) w4 in
            remove_course_sessions_except_cell_with
              (remove_course_from_dual_widget fuel' course_key)
              course_key widget_position w5
      end
  end.

Definition count_dual (p : list (cell * info)) : nat :=
  List.length (filter (fun entry => info_is_dual (snd entry)) p).

(** [remove_course_from_schedule], with the fuel explicit. *)
Definition remove_course_from_schedule_fuel (fuel : nat) (course_key : string)
    (w : window) : option window :=
  let '(to_convert, to_remove) := removal_scan course_key None (placed w) (placed w) in
  match convert_all (remove_course_from_dual_widget fuel course_key) to_convert w with
  | Some w' => Some (remove_all to_remove w')
  | None => None
  end.

(** [remove_course_from_schedule]: one unit of fuel more than there are dual
    entries is always enough ([remove_course_from_schedule_fuel_enough]). *)
Definition remove_course_from_schedule (course_key : string) (w : window) : window :=
  match remove_course_from_schedule_fuel (S (count_dual (placed w))) course_key w with
  | Some w' => w'
  | None => w
  end.

(** *** Priority-based resolution (lines 3705-3834) *)

(** The name a conflict is shown under: when the recorded name is empty or
    the unknown label, the name of the catalog is tried. *)
Definition resolved_name (c : conflict) : string :=
  let conflict_name := conflict_name c in
  if negb (nonempty conflict_name) || String.eqb conflict_name unknown then
    let conflict_course := COURSES_get_or_empty (conflict_key c) in
    if course_truthy conflict_course then
      match name conflict_course with
      | Some n => n
      | None => unknown
      end
    else conflict_name
  else conflict_name.

(** A conflict whose course cannot be named is skipped. *)
Definition identified (c : conflict) : bool :=
  nonempty (resolved_name c) && negb (String.eqb (resolved_name c) unknown).

Record resolution : Type := mkResolution {
  conflict_course_keys_set : list string;
  conflict_names_set : list string;
  higher_priority_conflicts : list (string * string * Z);
  conflict_details_list : list string
}.

Fixpoint resolve_conflicts (current_priority : Z) (conflicts : list conflict)
    (r : resolution) : resolution :=
  match conflicts with
  | [] => r
  | conf :: rest =>
      let conflict_course_key := conflict_key conf in
      if Str.mem conflict_course_key (conflict_course_keys_set r)
      then resolve_conflicts current_priority rest r
      else if negb (identified conf) then resolve_conflicts current_priority rest r
      else
        let conflict_name := resolved_name conf in
        let conflict_priority := get_course_priority conflict_course_key in
        let higher :=
          if conflict_priority <? current_priority
          then higher_priority_conflicts r
               ++ [(conflict_course_key, conflict_name, conflict_priority)]
          else higher_priority_conflicts r in
        let seen := Str.mem conflict_name (conflict_names_set r) in
        resolve_conflicts current_priority rest
          (mkResolution
             (set_add conflict_course_key (conflict_course_keys_set r))
             (if seen then conflict_names_set r else conflict_names_set r ++ [conflict_name])
             higher
             (if seen then conflict_details_list r
              else conflict_details_list r ++ [conflict_name]))
  end.

(** The set [conflicting_courses], in the order its members were added (the
    order in which Python walks a set of strings is not fixed). *)
Fixpoint conflicting_courses (conflicts : list conflict) (acc : list string)
  : list string :=
  match conflicts with
  | [] => acc
  | conf :: rest =>
      let rcourse := conflict_key conf in
      if nonempty rcourse && negb (String.eqb rcourse "dual_widget")
         && negb (String.eqb rcourse "unknown")
      then conflicting_courses rest (set_add rcourse acc)
      else conflicting_courses rest acc
  end.

(** *** Writing the cells (lines 3836-4165) *)

Definition del_placed (k : cell) (w : window) : window :=
  set_placed (dict_del k (placed w)) w.

Definition put_placed (k : cell) (i : info) (w : window) : window :=
  set_placed (dict_set k i (placed w)) w.

(** [existing_info.get('course')] used as a key of [COURSES]. *)
Definition existing_data (existing_info : info) (existing_sess : session)
  : result course_data :=
  k <- of_option KeyError (info_course existing_info) ;;
  c <- COURSES_item COURSES k ;;
  Ok (mkData c k existing_sess).

Definition session_is_odd (s : session) : bool :=
  match parity s with
  | Some p => String.eqb p ODD
  | None => false
  end.

(** The widget or entry the new dual widget replaces. *)
Inductive replaced : Type :=
| ExistingDual
| ExistingSingle (existing_single_info : info)
| NothingThere.

Definition find_replaced (w : window) (k : cell) (slot : compatible_slot) : replaced :=
  match cellWidget w k with
  | Some (DualCourseWidget _ _ _) => ExistingDual
  | Some _ => ExistingSingle (existing slot)
  | None =>
      match dict_get k (placed w) with
      | Some (DualInfo _ _ _ _ _) => ExistingDual
      | Some i => ExistingSingle i
      | None =>
          match existing_widget slot with
          | Some (DualCourseWidget _ _ _) => ExistingDual
          | Some _ => ExistingSingle (existing slot)
          | None => NothingThere
          end
      end
  end.

(** A session cell that merges into a dual widget. The [KeyError] of
    [COURSES[existing_info.get('course')]] comes before the cell is touched. *)
Definition place_dual (c : course) (course_key : string) (p : placement)
    (slot : compatible_slot) (w : window) : result window :=
  let '(srow, col, span, new_sess) := p in
  let new_data := mkData c course_key new_sess in
  match existing_data (existing slot) (existing_session slot) with
  | Raise e => Raise e
  | Ok old_data =>
      let '(odd_data, even_data) :=
        if session_is_odd new_sess then (new_data, old_data) else (old_data, new_data) in
      let found := find_replaced w (srow, col) slot in
      let w1 := del_placed (srow, col) (removeCellWidget (srow, col) w) in
      let '(odd_data', even_data') :=
        match found with
        | ExistingDual => (odd_data, even_data)
        | NothingThere => (odd_data, even_data)
        | ExistingSingle existing_single_info =>
            match info_course existing_single_info with
            | Some k =>
                if nonempty k then
                  let existing_course_from_info := COURSES_get_or_empty k in
                  let existing_sess :=
                    match find_exact_session (schedule_get existing_course_from_info)
                            (day (existing_session slot)) srow span with
                    | Some s => s
                    | None => existing_session slot
                    end in
                  let old := mkData existing_course_from_info k existing_sess in
                  if session_is_odd existing_sess then (old, new_data) else (new_data, old)
                else (odd_data, even_data)
            | None => (odd_data, even_data)
            end
        end in
      let '(wid, w2) := fresh_id w1 in
      let w3 := setCellWidget (srow, col) (DualCourseWidget wid odd_data' even_data') w2 in
      let w4 := put_placed (srow, col)
                  (DualInfo [cd_course_key odd_data'; cd_course_key even_data'] span
                     wid odd_data' even_data') w3 in
      Ok w4
  end.

(** A session cell of its own. The label of the cell reads [course['name']]
    (line 4077): its [KeyError] comes before the widget is set in the table
    and before the entry is written to [self.placed]. *)
Definition place_single (c : course) (course_key : string) (p : placement) (w : window)
  : result window :=
  let '(srow, col, span, _) := p in
  let '(wid, w1) := fresh_id w in
  let cell_widget := CourseWidget wid (Some course_key) (snd (AnimatedCourseWidget course_key)) in
  _ <- name_item c ;;
  let w2 := setCellWidget (srow, col) cell_widget w1 in
  Ok (put_placed (srow, col) (SingleInfo course_key span (Some cell_widget)) w2).

(** The loop over the placements. An exception leaves the cells written so
    far in place: the second component is the window as the exception, or the
    end of the loop, finds it. *)
Fixpoint place_sessions (c : course) (course_key : string)
    (compatible_slots : list (cell * compatible_slot))
    (placements : list placement) (w : window) : option exn * window :=
  match placements with
  | [] => (None, w)
  | p :: r =>
      let '(srow, col, _, _) := p in
      match dict_get (srow, col) compatible_slots with
      | Some slot =>
          match place_dual c course_key p slot w with
          | Raise e => (Some e, w)
          | Ok w' => place_sessions c course_key compatible_slots r w'
          end
      | None =>
          match place_single c course_key p w with
          | Raise e => (Some e, w)
          | Ok w' => place_sessions c course_key compatible_slots r w'
          end
      end
  end.

(** *** [_add_course_internal] *)

Record added : Type := mkAdded {
  result_outcome : outcome;
  invalid_time_warnings : list session;
  result_window : window
}.

Definition commit (c : course) (course_key : string)
    (compatible_slots : list (cell * compatible_slot))
    (placements : list placement) (warned : list session) (w : window) : added :=
  match place_sessions c course_key compatible_slots placements (clear_preview w) with
  | (Some e, w') => mkAdded (Failed e) warned w'
  | (None, w') => mkAdded Added warned w'
  end.

(** For a key that [COURSES.get] does not find, or finds with an empty dict,
    the warning is never shown: its text is
    [translator.t("messages.course_not_found", key=course_key)] (line 3404),
    and [t] is [def t(self, key, **kwargs)], so the call gives [key] twice
    and raises [TypeError]. *)
Definition _add_course_internal (course_key : string) (ask_on_conflict : bool)
    (answer : dialog_answer) (w : window) : added :=
  match COURSES_get COURSES course_key with
  | None => mkAdded (Failed TypeError) [] w
  | Some c =>
      if negb (course_truthy c) then mkAdded (Failed TypeError) [] w
      else
        match schedule_item c with
        | Raise e => mkAdded (Failed e) [] w
        | Ok sched =>
            match build_placements c sched [] [] with
            | Raise e => mkAdded (Failed e) [] w
            | Ok (placements, warned) =>
                let '(conflicts, compatible_slots) := find_conflicts w course_key placements in
                match conflicts with
                | [] => commit c course_key compatible_slots placements warned w
                | _ :: _ =>
                    if ask_on_conflict then
                      let r := resolve_conflicts (get_course_priority course_key) conflicts
                                 (mkResolution [] [] [] []) in
                      match higher_priority_conflicts r, conflict_details_list r with
                      | _ :: _, _ :: _ =>
                          match name_item c with
                          | Raise e => mkAdded (Failed e) warned w
                          | Ok _ =>
                              mkAdded (RejectedHigherPriority (higher_priority_conflicts r))
                                warned w
                          end
                      | _, [] => commit c course_key compatible_slots placements warned w
                      | [], _ :: _ =>
                          match name_item c with
                          | Raise e => mkAdded (Failed e) warned w
                          | Ok _ =>
                              match answer with
                              | Cancel => mkAdded Declined warned w
                              | No => mkAdded Declined warned w
                              | Yes =>
                                  let w' := fold_left
                                              (fun acc k => remove_course_from_schedule k acc)
                                              (conflicting_courses conflicts []) w in
                                  commit c course_key compatible_slots placements warned w'
                              end
                          end
                      end
                    else mkAdded SkippedOnConflict warned w
                end
            end
        end
  end.

End MainWindow.

(** ** Notions the properties are stated with *)

(** The parities are exact complements: one is even, the other odd. *)
Definition complementary (pa pb : string) : Prop :=
  (pa = EVEN /\ pb = ODD) \/ (pa = ODD /\ pb = EVEN).

(** Sessions whose times are ["HH:MM"] strings [to_minutes] can read. *)
Definition times_parse (s : session) : Prop :=
  exists m1 m2, to_minutes (start s) = Ok m1 /\ to_minutes (end_ s) = Ok m2.

(** On such sessions the check raises nothing and is a boolean. *)
Definition conflict_bool (a b : session) : bool :=
  match sessions_conflict a b with
  | Ok c => c
  | Raise _ => false
  end.

(** A catalog all of whose session times are readable. *)
Definition catalog_times_parse (COURSES : catalog) : Prop :=
  forall key c, COURSES_get COURSES key = Some c -> Forall times_parse (schedule_get c).

(** Two courses of the catalog whose schedules the conflict check clears. *)
Definition conflict_free (COURSES : catalog) (ki kj : string) : Prop :=
  exists ci cj si sj,
    COURSES_get COURSES ki = Some ci /\ schedule ci = Some si
    /\ COURSES_get COURSES kj = Some cj /\ schedule cj = Some sj
    /\ schedules_conflict si sj = Ok false.

(** *** The gap penalty in the words of the specification

    The sessions of the picked courses, as [(day, (start, end))] in minutes;
    [None] when a course, its schedule or a time cannot be read. *)
Fixpoint session_intervals (items : list session) : option (list (string * (Z * Z))) :=
  match items with
  | [] => Some []
  | item :: r =>
      match to_minutes (start item), to_minutes (end_ item), session_intervals r with
      | Ok s, Ok e, Some rest => Some ((day item, (s, e)) :: rest)
      | _, _, _ => None
      end
  end.

Fixpoint combo_intervals (COURSES : catalog) (keys : list string)
  : option (list (string * (Z * Z))) :=
  match keys with
  | [] => Some []
  | key :: r =>
      match COURSES_get COURSES key with
      | Some c =>
          match schedule c with
          | Some items =>
              match session_intervals items, combo_intervals COURSES r with
              | Some l1, Some l2 => Some (l1 ++ l2)
              | _, _ => None
              end
          | None => None
          end
      | None => None
      end
  end.

(** The days used, each once, in the order they first appear. *)
Definition days_used (l : list (string * (Z * Z))) : list string :=
  fold_left (fun days x => set_add (fst x) days) l [].

(** The intervals of day [d], in the order of the sessions. *)
Definition day_intervals (d : string) (l : list (string * (Z * Z))) : list (Z * Z) :=
  map snd (filter (fun x => String.eqb (fst x) d) l).

(** The sessions of one day, sorted by start time. *)
Definition day_sessions (d : string) (l : list (string * (Z * Z))) : list (Z * Z) :=
  list_sort pair_ltb (day_intervals d l).

(** The idle minutes between consecutive sessions, for the gaps strictly
    greater than 15 minutes. *)
Fixpoint idle_gaps (sorted : list (Z * Z)) : list Z :=
  match sorted with
  | a :: (b :: _) as r =>
      let gap := fst b - snd a in
      if gap >? 15 then gap :: idle_gaps r else idle_gaps r
  | _ => []
  end.

Definition all_idle_gaps (l : list (string * (Z * Z))) : list Z :=
  flat_map (fun d => idle_gaps (day_sessions d l)) (days_used l).

(** The penalty as the specification words it: the sum of the idle minutes. *)
Definition gap_minutes (l : list (string * (Z * Z))) : Z :=
  fold_left Z.add (all_idle_gaps l) 0.

(** The penalty in hours: every gap divided by 60, summed in floating point
    in the order of the days and of the sessions. *)
Definition gap_hours (l : list (string * (Z * Z))) : float :=
  fold_left (fun p gap => (p + float_of_Z gap / 60)%float) (all_idle_gaps l) 0%float.



(** What [resolve_conflicts] keeps true of its four accumulators, [priority]
    being the priority lookup. *)
Definition resolution_ok (priority : string -> Z) (current_priority : Z)
    (r : resolution) : Prop :=
  conflict_names_set r = conflict_details_list r
  /\ (conflict_course_keys_set r <> [] -> conflict_details_list r <> [])
  /\ (forall k, In k (conflict_course_keys_set r) -> priority k < current_priority ->
                In k (map (fun b => fst (fst b)) (higher_priority_conflicts r)))
  /\ (forall b, In b (higher_priority_conflicts r) ->
                snd b = priority (fst (fst b)) /\ snd b < current_priority).

(** *** Removal: the store before and after

    [self.placed] as Python builds it: one entry per cell; a dual entry lists
    the keys of its two sides, which differ; a dual widget sits in one entry. *)
Definition other_course_key (odd_data even_data : course_data) (key : string) : string :=
  cd_course_key (get_other_course_data odd_data even_data key).

Definition wf_placed (p : list (cell * info)) : Prop :=
  NoDup (map fst p)
  /\ (forall k cs rows id odd_data even_data,
        In (k, DualInfo cs rows id odd_data even_data) p ->
        cs = [cd_course_key odd_data; cd_course_key even_data]
        /\ cd_course_key odd_data <> cd_course_key even_data)
  /\ (forall k1 k2 cs1 cs2 rows1 rows2 id odd1 odd2 even1 even2,
        In (k1, DualInfo cs1 rows1 id odd1 even1) p ->
        In (k2, DualInfo cs2 rows2 id odd2 even2) p -> k1 = k2).

(** The other course of a dual cell holds some other cell of the store. *)
Definition held_elsewhere (p0 : list (cell * info)) (k : cell) (other : string) : Prop :=
  exists k' i', k' <> k /\ In (k', i') p0 /\ info_holds other i' = true.

(** Cell [k] went from Dual, with [key] on one side, to Single holding the
    other side. *)
Definition demoted (key : string) (p0 : list (cell * info)) (k : cell) (i : info) : Prop :=
  exists cs rows id odd_data even_data wd,
    In (k, DualInfo cs rows id odd_data even_data) p0
    /\ Str.mem key cs = true
    /\ i = SingleInfo (other_course_key odd_data even_data key) rows wd
    /\ held_elsewhere p0 k (other_course_key odd_data even_data key).

(** A dual cell that removal is bound to demote: its other course is a
    course of the catalog and holds a cell that does not hold [key]. *)
Definition must_demote (COURSES : catalog) (key : string) (p0 : list (cell * info))
    (k : cell) (rows : Z) (other : string) : Prop :=
  exists cs id odd_data even_data,
    In (k, DualInfo cs rows id odd_data even_data) p0
    /\ Str.mem key cs = true
    /\ other = other_course_key odd_data even_data key
    /\ course_truthy (COURSES_get_or_empty COURSES other) = true
    /\ exists k' i', k' <> k /\ In (k', i') p0
                     /\ info_holds other i' = true /\ info_holds key i' = false.

(** What every step of a removal keeps true of [self.placed], [p0] being
    the store the removal started from. *)
Record removal_inv (COURSES : catalog) (key : string) (p0 p : list (cell * info))
  : Prop := mkRemovalInv {
  inv_nodup : NoDup (map fst p);
  inv_origin : forall k i, In (k, i) p -> In (k, i) p0 \/ demoted key p0 k i;
  inv_kept : forall k i, In (k, i) p0 -> info_holds key i = false -> In (k, i) p;
  inv_demote : forall k rows other,
      must_demote COURSES key p0 k rows other -> In k (map fst p)
}.

(** No step brings back an entry that holds [key], nor a dual entry. *)
Definition keeps (key : string) (p p' : list (cell * info)) : Prop :=
  forall k i, In (k, i) p' -> info_holds key i = true \/ info_is_dual i = true ->
              In (k, i) p.

(** The dual widgets and the cells a scan may hand to the two final loops. *)
Definition ref_ok (key : string) (p0 : list (cell * info)) (r : dual_ref) : Prop :=
  let '(id, odd_data, even_data) := r in
  exists k cs rows,
    In (k, DualInfo cs rows id odd_data even_data) p0
    /\ Str.mem key cs = true
    /\ held_elsewhere p0 k (other_course_key odd_data even_data key).

Definition cell_ok (COURSES : catalog) (key : string) (p0 : list (cell * info))
    (k : cell) : Prop :=
  (exists i, In (k, i) p0 /\ info_holds key i = true)
  /\ (forall rows other, ~ must_demote COURSES key p0 k rows other).

Definition gone (r : dual_ref) (p : list (cell * info)) : Prop :=
  find_dual_widget (fst (fst r)) p = None.

(** A function that converts dual widgets as [remove_course_from_dual_widget]
    does, on stores of at most [n] dual entries. *)
Definition convert_ok (COURSES : catalog) (key : string) (p0 : list (cell * info))
    (n : nat) (convert : dual_ref -> window -> option window) : Prop :=
  forall w r,
    removal_inv COURSES key p0 (placed w) -> ref_ok key p0 r ->
    (count_dual (placed w) <= n)%nat ->
    exists w', convert r w = Some w'
               /\ removal_inv COURSES key p0 (placed w')
               /\ keeps key (placed w) (placed w')
               /\ gone r (placed w').

(** A cell the scan does not skip, and an exception cell that held [key]. *)
Definition not_except (except_cell : option cell) (k : cell) : Prop :=
  match except_cell with
  | Some e => k <> e
  | None => True
  end.

Definition exc_ok (key : string) (p0 : list (cell * info)) (exc : option cell) : Prop :=
  match exc with
  | Some e => exists i, In (e, i) p0 /\ info_holds key i = true
  | None => True
  end.

(** ** A small catalog for the examples

    Two sections of course A and one of course B, all on Saturday: A_1
    overlaps B_1, A_2 starts an hour after B_1 ends. *)
Definition saturday : string := Eval vm_compute in hd EmptyString DAYS.

Definition demo_catalog : catalog :=
  [("A1", mkCourse (Some "A_1") (Some "Algebra") 
            (Some [mkSession saturday "09:00" "10:30" None]) true);
   ("A2", mkCourse (Some "A_2") (Some "Algebra")
            (Some [mkSession saturday "10:30" "12:00" None]) true);
   ("B1", mkCourse (Some "B_1") (Some "Biology")
            (Some [mkSession saturday "08:00" "09:30" None]) true);
   ("E1", mkCourse (Some "E_1") (Some "Ethics") (Some []) true)].

(** Courses for the grid: O1 (odd weeks) and V1 (even weeks) share Saturday
    08:00-10:00, N1 overlaps them and has a second session outside the slot
    grid, U1 has an empty name, S1 sits on Sunday; P1 (odd weeks) and Q1
    (even weeks) share Saturday 12:00-14:00 and each has a session of its
    own. *)
Definition sunday : string := Eval vm_compute in nth 1 DAYS EmptyString.
Definition monday : string := Eval vm_compute in nth 2 DAYS EmptyString.

Definition demo_grid_catalog : catalog :=
  [("O1", mkCourse (Some "O_1") (Some "Optics")
            (Some [mkSession saturday "08:00" "10:00" (Some ODD)]) true);
   ("V1", mkCourse (Some "V_1") (Some "Voice")
            (Some [mkSession saturday "08:00" "10:00" (Some EVEN)]) true);
   ("N1", mkCourse (Some "N_1") (Some "Norms")
            (Some [mkSession saturday "09:00" "11:00" None;
                   mkSession saturday "25:00" "26:00" None]) true);
   ("U1", mkCourse (Some "U_1") (Some EmptyString)
            (Some [mkSession saturday "08:00" "10:00" None]) true);
   ("S1", mkCourse (Some "S_1") (Some "Syntax")
            (Some [mkSession sunday "08:00" "10:00" (Some EVEN)]) true);
   ("P1", mkCourse (Some "P_1") (Some "Physics")
            (Some [mkSession saturday "12:00" "14:00" (Some ODD);
                   mkSession sunday "10:00" "12:00" None]) true);
   ("Q1", mkCourse (Some "Q_1") (Some "Quanta")
            (Some [mkSession saturday "12:00" "14:00" (Some EVEN);
                   mkSession monday "10:00" "12:00" None]) true)].

(** Two candidates for group C, C1 on Sunday and C2 on Saturday, and one for
    group D, D1 on Saturday after C2: the pick C1, D1 comes first in the
    product and needs two days, the pick C2, D1 needs one. *)
Definition demo_days_catalog : catalog :=
  [("C1", mkCourse (Some "C_1") (Some "Calculus")
            (Some [mkSession sunday "08:00" "10:00" None]) true);
   ("C2", mkCourse (Some "C_2") (Some "Calculus")
            (Some [mkSession saturday "08:00" "10:00" None]) true);
   ("D1", mkCourse (Some "D_1") (Some "Drawing")
            (Some [mkSession saturday "10:00" "12:00" None]) true)].

(** A constructor of [AnimatedCourseWidget] that keeps the key and no name. *)
Definition demo_widget (key : string) : option string * option string := (Some key, None).

Definition demo_add (priorities : list (option string * option Z)) (key : string)
    (ask_on_conflict : bool) (answer : dialog_answer) (w : window) : added :=
  _add_course_internal demo_grid_catalog priorities "Unknown" demo_widget
    key ask_on_conflict answer w.

Definition empty_window : window := mkWindow [] [] [] 0.

(** The window after O1 was placed, after O1 and V1 were, and after U1 was. *)
Definition window_O1 : window :=
  Eval vm_compute in result_window (demo_add [] "O1" true Yes empty_window).

Definition window_O1_V1 : window :=
  Eval vm_compute in result_window (demo_add [] "V1" true Yes window_O1).

Definition window_U1 : window :=
  Eval vm_compute in result_window (demo_add [] "U1" true Yes empty_window).

Definition window_P1_Q1 : window :=
  Eval vm_compute in
    result_window (demo_add [] "Q1" true Yes
                     (result_window (demo_add [] "P1" true Yes empty_window))).

(** ** Notions for the scheduler and the generator *)

(** [l1] is [l2] with some elements left out, the order kept. *)
Inductive subsequence {A : Type} : list A -> list A -> Prop :=
| subsequence_nil : subsequence [] []
| subsequence_skip (x : A) (l1 l2 : list A) :
    subsequence l1 l2 -> subsequence l1 (x :: l2)
| subsequence_take (x : A) (l1 l2 : list A) :
    subsequence l1 l2 -> subsequence (x :: l1) (x :: l2).

(** The conflict check on two courses of the catalog, their schedules read
    with [.get('schedule', [])] as the scheduler reads them, returned [b]. *)
Definition checked (COURSES : catalog) (ki kj : string) (b : bool) : Prop :=
  exists ci cj,
    COURSES_get COURSES ki = Some ci /\ COURSES_get COURSES kj = Some cj
    /\ schedules_conflict (schedule_get ci) (schedule_get cj) = Ok b.

(** Every key is a key of the catalog. *)
Definition all_known (COURSES : catalog) (keys : list string) : Prop :=
  Forall (fun k => COURSES_mem COURSES k = true) keys.

(** One candidate for each group, in the order of the groups. *)
Definition one_per_group (COURSES : catalog) (group_keys keys : list string) : Prop :=
  Forall2 (fun g k => In k (candidates_of COURSES g)) group_keys keys.

(** Any two courses at different places of the list are conflict-free. *)
Definition pairwise_conflict_free (COURSES : catalog) (keys : list string) : Prop :=
  forall i j ki kj, (i < j)%nat ->
    nth_error keys i = Some ki -> nth_error keys j = Some kj ->
    conflict_free COURSES ki kj.

(** Every course of the catalog has a ['schedule']. *)
Definition catalog_has_schedules (COURSES : catalog) : Prop :=
  forall key c, COURSES_get COURSES key = Some c -> schedule c <> None.

(** A selection in which every course was checked against the ones before it. *)
Definition cleared (COURSES : catalog) (selected : list string) : Prop :=
  forall i j ki kj, (i < j)%nat ->
    nth_error selected i = Some ki -> nth_error selected j = Some kj ->
    checked COURSES kj ki false.

(** The key has a course in the catalog, and the course a ['schedule']. *)
Definition has_schedule (COURSES : catalog) (k : string) : Prop :=
  exists c items, COURSES_get COURSES k = Some c /\ schedule c = Some items.

(** ** More of [main_window.py] and of what it calls *)

(** *** The priority list (lines 5542-5616 and 6310-6353)

    An item of [self.auto_select_list], as [get_course_priority] reads it:
    the course key ([UserRole]) and the priority ([UserRole + 1]). *)
Definition auto_item : Type := (option string * option Z)%type.

(** [==] on the [UserRole] data of two items. *)
Definition data_eqb (a b : option string) : bool :=
  match a, b with
  | Some x, Some y => String.eqb x y
  | None, None => true
  | _, _ => false
  end.

(** [on_auto_list_reordered]: the item at position [i] gets priority [i + 1]. *)
Fixpoint renumber (i : Z) (items : list auto_item) : list auto_item :=
  match items with
  | [] => []
  | (course_key, _) :: r => (course_key, Some (i + 1)) :: renumber (i + 1) r
  end.

Definition on_auto_list_reordered (items : list auto_item) : list auto_item :=
  renumber 0 items.

(** [on_add_to_auto], for the keys of the items selected in the course list.
    An item is added when no item of the priority list has its key and the
    key is a course of the catalog; its priority is its position. The text
    of the new item reads [course['name']]: the [KeyError] ends the loop, and
    the items added before it stay. *)
Fixpoint on_add_to_auto (COURSES : catalog) (selected : list (option string))
    (items : list auto_item) : list auto_item * option exn :=
  match selected with
  | [] => (items, None)
  | key :: r =>
      if existsb (fun it => data_eqb (fst it) key) items
      then on_add_to_auto COURSES r items
      else
        match key with
        | None => on_add_to_auto COURSES r items
        | Some course_key =>
            match COURSES_get COURSES course_key with
            | None => on_add_to_auto COURSES r items
            | Some c =>
                if course_truthy c then
                  match name c with
                  | None => (items, Some KeyError)
                  | Some _ =>
                      let position := Z.of_nat (List.length items) + 1 in
                      on_add_to_auto COURSES r
                        (items ++ [(Some course_key, Some position)])
                  end
                else on_add_to_auto COURSES r items
            end
        end
  end.

(** [generate_optimal_schedule_from_auto_list]: the keys it hands to the
    scheduler, in the order of the list, and what it then shows. *)
Definition ordered_course_keys_of (COURSES : catalog) (items : list auto_item)
  : list string :=
  flat_map (fun it => match fst it with
                      | Some course_key =>
                          if nonempty course_key && COURSES_mem COURSES course_key
                          then [course_key] else []
                      | None => []
                      end) items.

Inductive priority_dialog : Type :=
| PriorityListEmpty
| PriorityResults (schedules : list schedule_result)
| GenerateError (e : exn).

Definition generate_optimal_schedule_from_auto_list (COURSES : catalog)
    (items : list auto_item) : priority_dialog :=
  match ordered_course_keys_of COURSES items with
  | [] => PriorityListEmpty
  | ordered_course_keys =>
      match generate_priority_based_schedules COURSES ordered_course_keys with
      | Ok schedules => PriorityResults schedules
      | Raise e => GenerateError e
      end
  end.

(** *** The time filter of the course list (lines 762-786)

    [_matches_time_filter]: a session counts when both of its times are set
    and their hours can be read; [ValueError] skips the session. *)
Definition hour_of (t : string) : result Z :=
  Str.int (hd EmptyString (Str.split ":" t)).

Fixpoint matches_time_filter_loop (sched : list session) (time_from time_to : Z) : bool :=
  match sched with
  | [] => false
  | sess :: r =>
      if nonempty (start sess) && nonempty (end_ sess) then
        match hour_of (start sess) with
        | Ok start_hour =>
            match hour_of (end_ sess) with
            | Ok end_hour =>
                if (start_hour <=? time_to) && (end_hour >=? time_from) then true
                else matches_time_filter_loop r time_from time_to
            | Raise _ => matches_time_filter_loop r time_from time_to
            end
        | Raise _ => matches_time_filter_loop r time_from time_to
        end
      else matches_time_filter_loop r time_from time_to
  end.

Definition _matches_time_filter (c : course) (time_from time_to : Z) : bool :=
  matches_time_filter_loop (schedule_get c) time_from time_to.

(** *** [convert_to_persian_numerals] (lines 2092-2105)

    The dict [english_to_persian]; a character of the string is an ASCII
    digit exactly when its byte is one. *)
Definition english_to_persian : list (ascii * string) :=
  [("0"%char, "۰"); ("1"%char, "۱"); ("2"%char, "۲"); ("3"%char, "۳"); ("4"%char, "۴");
   ("5"%char, "۵"); ("6"%char, "۶"); ("7"%char, "۷"); ("8"%char, "۸"); ("9"%char, "۹")].

Fixpoint english_to_persian_get (d : list (ascii * string)) (c : ascii) : string :=
  match d with
  | [] => String c EmptyString
  | (k, v) :: r => if Ascii.eqb k c then v else english_to_persian_get r c
  end.

Fixpoint convert_to_persian_numerals (time_str : string) : string :=
  match time_str with
  | EmptyString => EmptyString
  | String c r =>
      (english_to_persian_get english_to_persian c ++ convert_to_persian_numerals r)%string
  end.

(** Whether the string holds an ASCII digit. *)
Fixpoint has_ascii_digit (s : string) : bool :=
  match s with
  | EmptyString => false
  | String c r =>
      match Str.digit_of c with
      | Some _ => true
      | None => has_ascii_digit r
      end
  end.

(** *** [generate_unique_key] ([core/data_manager.py], lines 236-247)

    [str(n)] for an [int], and the [while] loop: it stops at the first
    counter whose key is free, and [fuel] bounds the number of its rounds. *)
Definition str_of_int (n : Z) : string := NilZero.string_of_int (Z.to_int n).

Definition numbered_key (base_key : string) (counter : Z) : string :=
  (base_key ++ "_" ++ str_of_int counter)%string.

Fixpoint unique_key_loop (fuel : nat) (base_key : string) (existing_keys : list string)
    (counter : Z) : option string :=
  match fuel with
  | O => None
  | S fuel' =>
      let new_key := numbered_key base_key counter in
      if Str.mem new_key existing_keys
      then unique_key_loop fuel' base_key existing_keys (counter + 1)
      else Some new_key
  end.

(** One round for each existing key, and one more, is always enough
    ([generate_unique_key_total]). *)
Definition generate_unique_key (base_key : string) (existing_keys : list string)
  : option string :=
  if negb (Str.mem base_key existing_keys) then Some base_key
  else unique_key_loop (S (List.length existing_keys)) base_key existing_keys 1.

(** A list with priorities [1, 2, ...] in the order of its items. *)
Definition numbered (items : list auto_item) : Prop :=
  forall i it, nth_error items i = Some it -> snd it = Some (Z.of_nat i + 1).

(** *** More of the window (lines 2961-2973, 3336-3381, 4480-4540) *)

Section MainWindowMore.

Variable COURSES : catalog.
Variable auto_select_list : list (option string * option Z).
Variable unknown : string.
Variable AnimatedCourseWidget : string -> option string * option string.

(** [clear_table_silent], as far as it touches the cell widgets and
    [self.placed]. *)
Definition clear_table_silent (w : window) : window :=
  let w1 := fold_left (fun acc entry => removeCellWidget (fst entry) acc) (placed w) w in
  clear_preview (set_placed [] w1).

(** [remove_course_silently] *)
Definition remove_course_silently (course_key : string) (w : window) : window :=
  remove_course_from_schedule COURSES AnimatedCourseWidget course_key w.

(** [remove_entire_course]. The loop runs over a copy of [self.placed] taken
    when it starts. A dual cell of the course is handed, on the spot, to the
    [remove_single_course] of its widget, which is
    [remove_course_from_dual_widget]; a single cell of the course is noted
    for the loop that ends the function. [None] only out of fuel. *)
Fixpoint remove_entire_course_loop (fuel : nat) (course_key : string)
    (snapshot : list (cell * info)) (to_remove : list cell) (w : window)
  : option (list cell * window) :=
  match snapshot with
  | [] => Some (to_remove, w)
  | (k, DualInfo cs _ id odd_data even_data) :: r =>
      if Str.mem course_key cs then
        match remove_course_from_dual_widget COURSES AnimatedCourseWidget fuel
                course_key (id, odd_data, even_data) w with
        | Some w' => remove_entire_course_loop fuel course_key r to_remove w'
        | None => None
        end
      else remove_entire_course_loop fuel course_key r to_remove w
  | (k, SingleInfo c _ _) :: r =>
      if String.eqb c course_key
      then remove_entire_course_loop fuel course_key r (to_remove ++ [k]) w
      else remove_entire_course_loop fuel course_key r to_remove w
  end.

(** One unit of fuel more than there are dual entries is always enough
    ([remove_entire_course_fuel_enough]). *)
Definition remove_entire_course (course_key : string) (w : window) : window :=
  match remove_entire_course_loop (S (count_dual (placed w))) course_key
          (placed w) [] w with
  | Some (to_remove, w') =>
      fold_left (fun acc start_tuple => remove_placed_by_start start_tuple acc)
        to_remove w'
  | None => w
  end.

(** [add_course_to_table]: the request joins the queue (the timer that runs
    the queue later is left out). *)
Definition add_course_to_table (course_key : string) (ask_on_conflict : bool)
    (course_addition_queue : list (string * bool)) : list (string * bool) :=
  course_addition_queue ++ [(course_key, ask_on_conflict)].

(** [seen_courses[course_key] = item]: a key met before keeps its place. *)
Fixpoint seen_set (course_key : string) (item : string * bool)
    (seen_courses : list (string * (string * bool))) : list (string * (string * bool)) :=
  match seen_courses with
  | [] => [(course_key, item)]
  | (k, v) :: r =>
      if String.eqb k course_key then (k, item) :: r
      else (k, v) :: seen_set course_key item r
  end.

Definition unique_queue (course_addition_queue : list (string * bool))
  : list (string * bool) :=
  map snd (fold_left (fun seen_courses item => seen_set (fst item) item seen_courses)
             course_addition_queue []).

(** [_process_course_addition_queue]. The queue is emptied before the first
    course is run. The loop calls [_add_course_internal] on the items of the
    unique queue, in order; its [try ... finally] has no [except], so an
    exception of a call leaves the loop and the function, and the items after
    it are not run. [answers] is what the user answers when asked about a
    course; [calls] lists the calls made, each with its arguments. *)
Record processed : Type := mkProcessed {
  queue_after : list (string * bool);
  window_after : window;
  calls : list (string * bool);
  raised : option exn
}.

Fixpoint process_unique_queue (answers : string -> dialog_answer)
    (unique_queue : list (string * bool)) (calls : list (string * bool)) (w : window)
  : window * list (string * bool) * option exn :=
  match unique_queue with
  | [] => (w, calls, None)
  | (course_key, ask_on_conflict) :: r =>
      let a := _add_course_internal COURSES auto_select_list unknown AnimatedCourseWidget
                 course_key ask_on_conflict (answers course_key) w in
      match result_outcome a with
      | Failed e => (result_window a, calls ++ [(course_key, ask_on_conflict)], Some e)
      | _ =>
          process_unique_queue answers r (calls ++ [(course_key, ask_on_conflict)])
            (result_window a)
      end
  end.

Definition _process_course_addition_queue (answers : string -> dialog_answer)
    (course_addition_queue : list (string * bool)) (w : window) : processed :=
  let '(w', calls, e) :=
    process_unique_queue answers (unique_queue course_addition_queue) [] w in
  mkProcessed [] w' calls e.



End MainWindowMore.

(** *** [remove_entire_course]: the store before and after

    Cell [k] went from Dual, with [key] on one side, to Single holding the
    other side. *)
Definition stripped (key : string) (p0 : list (cell * info)) (k : cell) (i : info) : Prop :=
  exists cs rows id odd_data even_data wd,
    In (k, DualInfo cs rows id odd_data even_data) p0
    /\ Str.mem key cs = true
    /\ i = SingleInfo (other_course_key odd_data even_data key) rows wd.

(** What every step of [remove_entire_course] keeps true of [self.placed],
    [p0] being the store it started from. *)
Record entire_inv (key : string) (p0 p : list (cell * info)) : Prop := mkEntireInv {
  einv_nodup : NoDup (map fst p);
  einv_origin : forall k i, In (k, i) p -> In (k, i) p0 \/ stripped key p0 k i;
  einv_kept : forall k i, In (k, i) p0 -> info_holds key i = false -> In (k, i) p
}.

(** A dual widget of the first store that shows [key], and a cell of the
    first store that holds [key]. *)
Definition ref_of_key (key : string) (p0 : list (cell * info)) (r : dual_ref) : Prop :=
  let '(id, odd_data, even_data) := r in
  exists k cs rows,
    In (k, DualInfo cs rows id odd_data even_data) p0 /\ Str.mem key cs = true.

Definition holder (key : string) (p0 : list (cell * info)) (k : cell) : Prop :=
  exists i, In (k, i) p0 /\ info_holds key i = true.

(** The entries that do not hold [key] stay. *)
Definition stays (key : string) (p p' : list (cell * info)) : Prop :=
  forall k i, In (k, i) p -> info_holds key i = false -> In (k, i) p'.

Definition strips (key : string) (p0 : list (cell * info)) (n : nat)
    (convert : dual_ref -> window -> option window) : Prop :=
  forall w r,
    entire_inv key p0 (placed w) -> ref_of_key key p0 r ->
    (count_dual (placed w) <= n)%nat ->
    exists w', convert r w = Some w'
               /\ entire_inv key p0 (placed w')
               /\ keeps key (placed w) (placed w')
               /\ stays key (placed w) (placed w')
               /\ gone r (placed w').


(** * Properties *)

(** ** The exception monad *)

Lemma bind_Ok_inv {A B : Type} (r : result A) (k : A -> result B) (b : B) :
  Py.bind r k = Ok b -> exists a, r = Ok a /\ k a = Ok b.
Proof.
  destruct r as [a|e]; simpl; intros H; [eauto | discriminate].
Qed.

Ltac inv_bind H :=
  let x := fresh "x" in
  let Hx := fresh "Hx" in
  apply bind_Ok_inv in H; destruct H as (x & Hx & H).

(** ** The Session Overlap Checker *)

Example to_minutes_0830 : to_minutes "08:30" = Ok 510.
Proof. reflexivity. Qed.

Example to_minutes_bad : to_minutes "8h30" = Raise ValueError.
Proof. reflexivity. Qed.

Example EXTENDED_TIME_SLOTS_ends :
  hd_error EXTENDED_TIME_SLOTS = Some "07:00"
  /\ last EXTENDED_TIME_SLOTS EmptyString = "19:00"
  /\ List.length EXTENDED_TIME_SLOTS = 25%nat.
Proof. repeat split. Qed.

(** The only exception [to_minutes] raises is [ValueError]. *)
Lemma int_raises_ValueError (s : string) (e : exn) :
  Str.int s = Raise e -> e = ValueError.
Proof.
  unfold Str.int.
  assert (H : forall o : option Z, of_option ValueError o = Raise e -> e = ValueError).
  { intros [z|]; simpl; congruence. }
  destruct (Str.drop_trailing_spaces _) as [|c r]; [apply H|].
  destruct c as [[] [] [] [] [] [] [] []]; apply H.
Qed.

Lemma to_minutes_raises_ValueError (t : string) (e : exn) :
  to_minutes t = Raise e -> e = ValueError.
Proof.
  unfold to_minutes.
  destruct (Str.split ":" t) as [|p1 [|p2 [|p3 l]]]; try congruence.
  destruct (Str.int p1) eqn:E1; simpl.
  - destruct (Str.int p2) eqn:E2; simpl; [discriminate|].
    intros H; injection H as <-. eapply int_raises_ValueError; eauto.
  - intros H; injection H as <-. eapply int_raises_ValueError; eauto.
Qed.

Lemma to_minutes_cases (t : string) :
  (exists m, to_minutes t = Ok m) \/ to_minutes t = Raise ValueError.
Proof.
  destruct (to_minutes t) as [m|e] eqn:E; [eauto|].
  right. f_equal. eapply to_minutes_raises_ValueError; eauto.
Qed.

Lemma is_compatible_iff (pa pb : string) :
  is_compatible pa pb = true <-> complementary pa pb.
Proof.
  unfold is_compatible, complementary.
  rewrite orb_true_iff, !andb_true_iff, !String.eqb_eq. tauto.
Qed.

Lemma is_compatible_sym (pa pb : string) :
  is_compatible pa pb = is_compatible pb pa.
Proof.
  unfold is_compatible.
  rewrite orb_comm.
  f_equal; apply andb_comm.
Qed.

Lemma overlap_sym (s1 e1 s2 e2 : Z) : overlap s1 e1 s2 e2 = overlap s2 e2 s1 e1.
Proof. unfold overlap. now rewrite orb_comm. Qed.

Lemma overlap_true_iff (s1 e1 s2 e2 : Z) :
  overlap s1 e1 s2 e2 = true <-> ~ (e1 <= s2 \/ e2 <= s1).
Proof.
  unfold overlap.
  rewrite negb_true_iff, orb_false_iff, !Z.leb_gt. lia.
Qed.

Lemma conflicts_eq (a b : session) : conflicts a b = sessions_conflict a b.
Proof.
  unfold conflicts. simpl.
  destruct (sessions_conflict a b) as [[|]|e]; reflexivity.
Qed.

Lemma sessions_conflict_sym (a b : session) :
  sessions_conflict a b = sessions_conflict b a.
Proof.
  unfold sessions_conflict.
  rewrite (String.eqb_sym (day a) (day b)).
  rewrite (is_compatible_sym (get_parity a) (get_parity b)).
  destruct (negb (day b =? day a)%string); [reflexivity|].
  destruct (is_compatible (get_parity b) (get_parity a)); [reflexivity|].
  destruct (to_minutes_cases (start a)) as [[s1 ->]| ->];
    destruct (to_minutes_cases (end_ a)) as [[e1 ->]| ->];
    destruct (to_minutes_cases (start b)) as [[s2 ->]| ->];
    destruct (to_minutes_cases (end_ b)) as [[e2 ->]| ->];
    simpl; try reflexivity.
  now rewrite overlap_sym.
Qed.

(** The check returns [False] exactly when it walked every pair of sessions
    and none of them conflicted. *)
Lemma schedules_conflict_row_false (a : session) (sch2 : list session) :
  schedules_conflict_row a sch2 = Ok false
  <-> forall b, In b sch2 -> sessions_conflict a b = Ok false.
Proof.
  induction sch2 as [|b r IH]; simpl.
  - split; [intros _ b [] | reflexivity].
  - destruct (sessions_conflict a b) as [[|]|e] eqn:E; simpl.
    + split; [discriminate|]. intros H. specialize (H b (or_introl eq_refl)). congruence.
    + rewrite IH. split.
      * intros H b' [<-|Hin]; auto.
      * intros H b' Hin. apply H. now right.
    + split; [discriminate|]. intros H. specialize (H b (or_introl eq_refl)). congruence.
Qed.

Lemma schedules_conflict_false (sch1 sch2 : list session) :
  schedules_conflict sch1 sch2 = Ok false
  <-> forall a b, In a sch1 -> In b sch2 -> sessions_conflict a b = Ok false.
Proof.
  induction sch1 as [|a r IH]; simpl.
  - split; [intros _ a b [] | reflexivity].
  - destruct (schedules_conflict_row a sch2) as [[|]|e] eqn:E; simpl.
    + split; [discriminate|]. intros H.
      assert (schedules_conflict_row a sch2 = Ok false) as E'.
      { apply schedules_conflict_row_false. intros b Hb. apply H; auto. }
      congruence.
    + rewrite IH. pose proof (proj1 (schedules_conflict_row_false a sch2) E) as E'.
      split.
      * intros H a' b [<-|Hin] Hb; auto.
      * intros H a' b Hin Hb. apply H; auto.
    + split; [discriminate|]. intros H.
      assert (schedules_conflict_row a sch2 = Ok false) as E'.
      { apply schedules_conflict_row_false. intros b Hb. apply H; auto. }
      congruence.
Qed.

Lemma schedules_conflict_false_sym (sch1 sch2 : list session) :
  schedules_conflict sch1 sch2 = Ok false -> schedules_conflict sch2 sch1 = Ok false.
Proof.
  rewrite !schedules_conflict_false. intros H b a Hb Ha.
  rewrite sessions_conflict_sym. auto.
Qed.

Lemma sessions_conflict_total (a b : session) :
  times_parse a -> times_parse b -> sessions_conflict a b = Ok (conflict_bool a b).
Proof.
  intros (s1 & e1 & Hs1 & He1) (s2 & e2 & Hs2 & He2).
  unfold conflict_bool, sessions_conflict.
  destruct (negb (day a =? day b)%string); [reflexivity|].
  destruct (is_compatible (get_parity a) (get_parity b)); [reflexivity|].
  rewrite Hs1, He1, Hs2, He2. reflexivity.
Qed.

Lemma schedules_conflict_row_total (a : session) (sch2 : list session) :
  times_parse a -> Forall times_parse sch2 ->
  schedules_conflict_row a sch2 = Ok (existsb (conflict_bool a) sch2).
Proof.
  intros Ha H. induction H as [|b r Hb Hr IH]; simpl; [reflexivity|].
  rewrite (sessions_conflict_total a b Ha Hb). simpl.
  destruct (conflict_bool a b); simpl; auto.
Qed.

Lemma schedules_conflict_total (sch1 sch2 : list session) :
  Forall times_parse sch1 -> Forall times_parse sch2 ->
  schedules_conflict sch1 sch2
  = Ok (existsb (fun a => existsb (conflict_bool a) sch2) sch1).
Proof.
  intros H1 H2. induction H1 as [|a r Ha Hr IH]; simpl; [reflexivity|].
  rewrite (schedules_conflict_row_total a sch2 Ha H2). simpl.
  destruct (existsb (conflict_bool a) sch2); simpl; auto.
Qed.

Lemma existsb_swap {A B : Type} (f : A -> B -> bool) (l1 : list A) (l2 : list B) :
  existsb (fun a => existsb (f a) l2) l1
  = existsb (fun b => existsb (fun a => f a b) l1) l2.
Proof.
  apply eq_true_iff_eq.
  rewrite !existsb_exists. split.
  - intros (a & Ha & H). apply existsb_exists in H. destruct H as (b & Hb & H).
    exists b. split; [assumption|]. apply existsb_exists. eauto.
  - intros (b & Hb & H). apply existsb_exists in H. destruct H as (a & Ha & H).
    exists a. split; [assumption|]. apply existsb_exists. eauto.
Qed.

Lemma existsb_ext_in {A : Type} (f g : A -> bool) (l : list A) :
  (forall x, In x l -> f x = g x) -> existsb f l = existsb g l.
Proof.
  induction l as [|x r IH]; simpl; intros H; [reflexivity|].
  rewrite (H x (or_introl eq_refl)), IH; auto.
Qed.

(** C1: on two sessions, the conflict check is false when the days differ,
    false when the parities are exact complements (whatever the times), and
    otherwise true exactly when the half-open intervals [start, end) overlap,
    that is when not (end1 <= start2 or end2 <= start1). *)
Theorem conflict_check_cases (a b : session) :
  (day a <> day b -> conflicts a b = Ok false)
  /\ (complementary (get_parity a) (get_parity b) -> conflicts a b = Ok false)
  /\ (forall s1 e1 s2 e2 : Z,
        day a = day b ->
        ~ complementary (get_parity a) (get_parity b) ->
        to_minutes (start a) = Ok s1 -> to_minutes (end_ a) = Ok e1 ->
        to_minutes (start b) = Ok s2 -> to_minutes (end_ b) = Ok e2 ->
        conflicts a b = Ok (overlap s1 e1 s2 e2)
        /\ (conflicts a b = Ok true <-> ~ (e1 <= s2 \/ e2 <= s1))).
Proof.
  rewrite conflicts_eq. unfold sessions_conflict. repeat split.
  - intros Hd. apply String.eqb_neq in Hd. now rewrite Hd.
  - intros Hc. apply is_compatible_iff in Hc. rewrite Hc.
    now destruct (negb (day a =? day b)%string).
  - apply String.eqb_eq in H. rewrite H. simpl.
    rewrite <- is_compatible_iff in H0. apply not_true_is_false in H0.
    rewrite H0, H1, H2, H3, H4. reflexivity.
  - apply String.eqb_eq in H. rewrite H. simpl.
    rewrite <- is_compatible_iff in H0. apply not_true_is_false in H0.
    rewrite H0, H1, H2, H3, H4. simpl. intros E. injection E as E.
    now apply overlap_true_iff.
  - apply String.eqb_eq in H. rewrite H. simpl.
    rewrite <- is_compatible_iff in H0. apply not_true_is_false in H0.
    rewrite H0, H1, H2, H3, H4. simpl. intros E. f_equal.
    now apply overlap_true_iff.
Qed.

(** C9: the conflict check is symmetric: on two sessions, whatever they
    hold; on two session lists whose times are readable; and a False result
    on two session lists is a False result the other way round, whatever
    they hold. *)
Theorem conflict_check_symmetric :
  (forall a b : session, conflicts a b = conflicts b a)
  /\ (forall sch1 sch2 : list session,
        Forall times_parse sch1 -> Forall times_parse sch2 ->
        schedules_conflict sch1 sch2 = schedules_conflict sch2 sch1)
  /\ (forall sch1 sch2 : list session,
        schedules_conflict sch1 sch2 = Ok false <-> schedules_conflict sch2 sch1 = Ok false).
Proof.
  split; [|split].
  - intros a b. rewrite !conflicts_eq. apply sessions_conflict_sym.
  - intros sch1 sch2 H1 H2.
    rewrite (schedules_conflict_total sch1 sch2 H1 H2).
    rewrite (schedules_conflict_total sch2 sch1 H2 H1).
    f_equal. rewrite existsb_swap.
    apply existsb_ext_in. intros b Hb. apply existsb_ext_in. intros a Ha.
    unfold conflict_bool. now rewrite sessions_conflict_sym.
  - intros sch1 sch2. split; apply schedules_conflict_false_sym.
Qed.

(** Scenario A and Scenario B of the specification. *)

Example scenario_A :
  conflicts (mkSession saturday "08:00" "10:00" (Some EmptyString))
            (mkSession saturday "09:00" "11:00" (Some EmptyString)) = Ok true.
Proof. reflexivity. Qed.

Example scenario_B :
  conflicts (mkSession saturday "08:00" "10:00" (Some ODD))
            (mkSession saturday "08:00" "10:00" (Some EVEN)) = Ok false.
Proof. reflexivity. Qed.

Lemma conflict_check_cases_witness :
  conflicts (mkSession saturday "08:00" "10:00" None)
            (mkSession saturday "09:00" "11:00" None) = Ok true.
Proof.
  refine (proj1 (proj2 (proj2 (conflict_check_cases
            (mkSession saturday "08:00" "10:00" None)
            (mkSession saturday "09:00" "11:00" None))) 480 600 540 660 _ _ _ _ _ _));
    try reflexivity.
  intros [[H _]|[H _]]; discriminate H.
Defined.

Lemma conflict_check_symmetric_witness :
  schedules_conflict [mkSession saturday "08:00" "10:00" None]
                     [mkSession saturday "09:00" "11:00" (Some ODD)]
  = schedules_conflict [mkSession saturday "09:00" "11:00" (Some ODD)]
                       [mkSession saturday "08:00" "10:00" None].
Proof.
  apply (proj1 (proj2 conflict_check_symmetric)).
  - constructor; [|constructor]. exists 480, 600. split; reflexivity.
  - constructor; [|constructor]. exists 540, 660. split; reflexivity.
Defined.

(** ** The Combination Generator and the Priority Scheduler *)

Lemma list_insert_In {A : Type} (lt : A -> A -> bool) (x y : A) (l : list A) :
  In y (list_insert lt x l) <-> y = x \/ In y l.
Proof.
  induction l as [|z r IH]; simpl.
  - intuition congruence.
  - destruct (lt z x); simpl; rewrite ?IH; intuition congruence.
Qed.

Lemma list_sort_In {A : Type} (lt : A -> A -> bool) (y : A) (l : list A) :
  In y (list_sort lt l) <-> In y l.
Proof.
  induction l as [|x r IH]; simpl; [tauto|].
  rewrite list_insert_In, IH. intuition congruence.
Qed.

Lemma schedules_conflict_nil_r (sch : list session) :
  schedules_conflict sch [] = Ok false.
Proof. induction sch; simpl; auto. Qed.

Lemma mem_In (x : string) (l : list string) : Str.mem x l = true <-> In x l.
Proof.
  unfold Str.mem. rewrite existsb_exists. split.
  - intros (y & Hy & E). apply String.eqb_eq in E. now subst.
  - intros H. exists x. split; [assumption | apply String.eqb_refl].
Qed.

Section CourseUtilsProperties.

Variable COURSES : catalog.

Let known (key : string) : Prop := exists c, COURSES_get COURSES key = Some c.

(** *** The greedy pass *)

Lemma has_conflict_with_nil (selected : list string) :
  Forall known selected -> has_conflict_with COURSES [] selected = Ok false.
Proof.
  induction 1 as [|sel r [c Hc] _ IH]; simpl; [reflexivity|].
  unfold COURSES_item. rewrite Hc. simpl. exact IH.
Qed.

Lemma has_conflict_with_total (cur : list session) (selected : list string) :
  catalog_times_parse COURSES -> Forall times_parse cur -> Forall known selected ->
  exists b, has_conflict_with COURSES cur selected = Ok b.
Proof.
  intros Hcat Hcur. induction 1 as [|sel r [c Hc] _ IH]; simpl; [eauto|].
  unfold COURSES_item. rewrite Hc. simpl.
  rewrite (schedules_conflict_total cur (schedule_get c) Hcur (Hcat _ _ Hc)). simpl.
  destruct (existsb _ cur); eauto.
Qed.

Lemma greedy_loop_keeps (keys selected out : list string) (k : string) :
  greedy_loop COURSES keys selected = Ok out -> In k selected -> In k out.
Proof.
  revert selected. induction keys as [|key r IH]; simpl; intros selected H Hin.
  - injection H as <-. assumption.
  - destruct (COURSES_get COURSES key) as [c|]; [|eauto].
    inv_bind H. destruct x; [eauto|].
    eapply IH; [eassumption|]. apply in_or_app. now left.
Qed.

Lemma greedy_loop_selects_empty (keys selected out : list string) (k : string) (c : course) :
  Forall known selected -> In k keys ->
  COURSES_get COURSES k = Some c -> schedule_get c = [] ->
  greedy_loop COURSES keys selected = Ok out -> In k out.
Proof.
  intros Hsel Hin Hk Hc. revert selected Hsel.
  induction keys as [|key r IH]; simpl; intros selected Hsel H; [contradiction|].
  destruct (string_dec key k) as [->|Hne].
  - rewrite Hk, Hc in H. rewrite (has_conflict_with_nil selected Hsel) in H. simpl in H.
    eapply greedy_loop_keeps; [eassumption|]. apply in_or_app. right. now left.
  - destruct Hin as [E|Hin]; [contradiction|].
    destruct (COURSES_get COURSES key) as [c'|] eqn:Hkey; [|eauto].
    inv_bind H. destruct x; [eauto|].
    eapply IH; [assumption| |eassumption].
    apply Forall_app. split; [assumption|]. constructor; [|constructor].
    exists c'. assumption.
Qed.

Lemma greedy_loop_total (keys selected : list string) :
  catalog_times_parse COURSES -> Forall known selected ->
  exists out, greedy_loop COURSES keys selected = Ok out.
Proof.
  intros Hcat. revert selected.
  induction keys as [|key r IH]; simpl; intros selected Hsel; [eauto|].
  destruct (COURSES_get COURSES key) as [c|] eqn:Hkey; [|eauto].
  destruct (has_conflict_with_total (schedule_get c) selected Hcat (Hcat _ _ Hkey) Hsel)
    as [b ->].
  simpl. destruct b; [eauto|].
  apply IH. apply Forall_app. split; [assumption|]. constructor; [|constructor].
  exists c. assumption.
Qed.

(** The greedy pass ignores the keys the catalog does not hold. *)
Lemma greedy_loop_ignores_unknown (keys selected : list string) :
  greedy_loop COURSES keys selected
  = greedy_loop COURSES (filter (COURSES_mem COURSES) keys) selected.
Proof.
  revert selected. induction keys as [|key r IH]; simpl; intros selected; [reflexivity|].
  unfold COURSES_mem at 1.
  destruct (COURSES_get COURSES key) as [c|] eqn:Hkey; simpl; [|apply IH].
  rewrite Hkey.
  destruct (has_conflict_with COURSES (schedule_get c) selected) as [[|]|e];
    simpl; auto.
Qed.

(** C10: a course without sessions conflicts with nothing: the check is
    false when either schedule is empty, and so the greedy pass selects every
    catalog course whose schedule is empty, wherever it stands in the
    priority order; on a catalog whose times are readable the pass does
    return. *)
Theorem empty_schedule_never_conflicts :
  (forall sch : list session,
     schedules_conflict [] sch = Ok false /\ schedules_conflict sch [] = Ok false)
  /\ (forall (order : list string) (key : string) (c : course),
        In key order -> COURSES_get COURSES key = Some c -> schedule_get c = [] ->
        (forall sel, create_greedy_schedule COURSES order = Ok sel -> In key sel)
        /\ (catalog_times_parse COURSES ->
            exists sel, create_greedy_schedule COURSES order = Ok sel /\ In key sel)).
Proof.
  split.
  - intros sch. split; [reflexivity | apply schedules_conflict_nil_r].
  - intros order key c Hin Hk Hc.
    assert (Hsel : forall sel, create_greedy_schedule COURSES order = Ok sel -> In key sel).
    { intros sel H. eapply greedy_loop_selects_empty; eauto. }
    split; [exact Hsel|].
    intros Hcat. destruct (greedy_loop_total order [] Hcat (Forall_nil _)) as [out H].
    exists out. split; [exact H | apply Hsel; exact H].
Qed.

(** *** The Combination Generator *)

Lemma conflicts_with_later_false (ki : string) (later : list string) :
  conflicts_with_later COURSES ki later = Ok false ->
  forall kj, In kj later -> conflict_free COURSES ki kj.
Proof.
  induction later as [|k r IH]; simpl; intros H kj Hin; [contradiction|].
  inv_bind H. rename x into ci, Hx into Hci.
  inv_bind H. rename x into si, Hx into Hsi.
  inv_bind H. rename x into cj, Hx into Hcj.
  inv_bind H. rename x into sj, Hx into Hsj.
  inv_bind H. destruct x; [discriminate|].
  destruct Hin as [<-|Hin]; [|auto].
  unfold COURSES_item in Hci, Hcj. unfold schedule_item in Hsi, Hsj.
  destruct (COURSES_get COURSES ki) as [ci'|] eqn:Ei; [|discriminate].
  destruct (COURSES_get COURSES k) as [cj'|] eqn:Ej; [|discriminate].
  simpl in Hci, Hcj. injection Hci as ->. injection Hcj as ->.
  destruct (schedule ci) as [si'|] eqn:Esi; [|discriminate].
  destruct (schedule cj) as [sj'|] eqn:Esj; [|discriminate].
  simpl in Hsi, Hsj. injection Hsi as ->. injection Hsj as ->.
  exists ci, cj, si, sj. auto.
Qed.

Lemma conflict_free_sym (ki kj : string) :
  conflict_free COURSES ki kj -> conflict_free COURSES kj ki.
Proof.
  intros (ci & cj & si & sj & H1 & H2 & H3 & H4 & H).
  exists cj, ci, sj, si. repeat split; auto.
  now apply schedules_conflict_false_sym.
Qed.

Lemma pick_ok_true (keys : list string) :
  pick_ok COURSES keys = Ok true ->
  forall i j ki kj, (i < j)%nat ->
    nth_error keys i = Some ki -> nth_error keys j = Some kj ->
    conflict_free COURSES ki kj.
Proof.
  induction keys as [|k later IH]; simpl; intros H i j ki kj Hlt Hi Hj.
  - destruct i; discriminate.
  - inv_bind H. destruct x; [discriminate|].
    destruct j as [|j]; [lia|]. simpl in Hj.
    destruct i as [|i]; simpl in Hi.
    + injection Hi as ->.
      eapply conflicts_with_later_false; [eassumption|].
      eapply nth_error_In; eassumption.
    + eapply (IH H i j); eauto. lia.
Qed.

Lemma make_combo_courses (keys : list string) (c : combo) :
  make_combo COURSES keys = Ok c -> courses c = keys.
Proof.
  unfold make_combo. intros H. inv_bind H. inv_bind H. injection H as <-. reflexivity.
Qed.

Lemma collect_combos_In (picks : list (list string)) (acc combos : list combo) (c : combo) :
  collect_combos COURSES picks acc = Ok combos -> In c combos ->
  In c acc \/ (exists keys, In keys picks /\ pick_ok COURSES keys = Ok true
                            /\ make_combo COURSES keys = Ok c).
Proof.
  revert acc. induction picks as [|keys r IH]; simpl; intros acc H Hin.
  - injection H as <-. now left.
  - inv_bind H. destruct x.
    + inv_bind H. destruct (IH _ H Hin) as [Hacc|(keys' & Hk & Hok & Hmk)].
      * apply in_app_or in Hacc. destruct Hacc as [Hacc|[<-|[]]]; [now left|].
        right. exists keys. auto.
      * right. exists keys'. auto.
    + destruct (IH _ H Hin) as [Hacc|(keys' & Hk & Hok & Hmk)]; [now left|].
      right. exists keys'. auto.
Qed.

Lemma generated_combo (group_keys : list string) (combos : list combo) (c : combo) :
  generate_best_combinations_for_groups COURSES group_keys = Ok combos -> In c combos ->
  pick_ok COURSES (courses c) = Ok true /\ make_combo COURSES (courses c) = Ok c.
Proof.
  unfold generate_best_combinations_for_groups. intros H Hin.
  destruct (build_groups COURSES group_keys []) as [groups|].
  - inv_bind H. injection H as <-. apply list_sort_In in Hin.
    destruct (collect_combos_In _ _ _ _ Hx Hin) as [[]|(keys & _ & Hok & Hmk)].
    rewrite (make_combo_courses _ _ Hmk). auto.
  - injection H as <-. contradiction.
Qed.

(** C4: every combination the generator returns is pairwise conflict-free:
    for any two distinct members the conflict check over their schedules
    returns false. *)
Theorem combinations_pairwise_conflict_free
    (group_keys : list string) (combos : list combo) (c : combo)
    (i j : nat) (ki kj : string) :
  generate_best_combinations_for_groups COURSES group_keys = Ok combos ->
  In c combos -> i <> j ->
  nth_error (courses c) i = Some ki -> nth_error (courses c) j = Some kj ->
  conflict_free COURSES ki kj.
Proof.
  intros H Hin Hij Hi Hj.
  destruct (generated_combo _ _ _ H Hin) as [Hok _].
  destruct (Nat.lt_total i j) as [Hlt|[->|Hgt]]; [|contradiction|].
  - eapply pick_ok_true; eauto.
  - apply conflict_free_sym. eapply pick_ok_true; eauto.
Qed.

Lemma build_groups_empty_candidates (group_keys : list string) (groups : list (list string)) :
  (exists g, In g group_keys /\ candidates_of COURSES g = []) ->
  build_groups COURSES group_keys groups = None.
Proof.
  revert groups. induction group_keys as [|g r IH]; simpl; intros groups (g' & Hin & Hg).
  - contradiction.
  - destruct (candidates_of COURSES g) as [|x cs] eqn:E; [reflexivity|].
    apply IH. destruct Hin as [->|Hin]; [congruence|]. eauto.
Qed.

(** C6, as the code has it: on an empty list of groups the generator returns,
    without error, the list of exactly one combination, the one with no
    courses; a group without candidates makes the whole result empty. *)
Theorem generator_degenerate_inputs :
  generate_best_combinations_for_groups COURSES []
  = Ok [mkCombo [] 0 0%float 0%float]
  /\ (forall group_keys : list string,
        (exists g, In g group_keys /\ candidates_of COURSES g = []) ->
        generate_best_combinations_for_groups COURSES group_keys = Ok []).
Proof.
  split; [reflexivity|].
  intros group_keys H. unfold generate_best_combinations_for_groups.
  now rewrite (build_groups_empty_candidates group_keys [] H).
Qed.

End CourseUtilsProperties.

(** C6, as stated, fails: the result for no groups at all is not empty. *)
Lemma generator_empty_groups_not_empty :
  generate_best_combinations_for_groups [] [] <> Ok [].
Proof. discriminate. Qed.

Lemma generator_degenerate_inputs_witness :
  generate_best_combinations_for_groups [] ["1101"] = Ok [].
Proof.
  apply (proj2 (generator_degenerate_inputs [])).
  exists "1101". split; [now left | reflexivity].
Defined.

(** ** The gap penalty and the score *)

Lemma set_add_In (d e : string) (s : list string) :
  In d (set_add e s) <-> d = e \/ In d s.
Proof.
  unfold set_add. destruct (Str.mem e s) eqn:E.
  - apply mem_In in E. split; [auto | intros [->|H]; auto].
  - rewrite in_app_iff. simpl. intuition congruence.
Qed.

Lemma set_add_NoDup (e : string) (s : list string) : NoDup s -> NoDup (set_add e s).
Proof.
  unfold set_add. intros H. destruct (Str.mem e s) eqn:E; [assumption|].
  assert (~ In e s) as Hn by (rewrite <- mem_In; congruence).
  clear E. induction H as [|x r Hx Hr IH]; simpl.
  - constructor; [intros [] | constructor].
  - constructor.
    + rewrite in_app_iff. simpl. intros [H|[->|[]]]; [auto|]. apply Hn. now left.
    + apply IH. intros H. apply Hn. now right.
Qed.

Lemma days_used_snoc (l : list (string * (Z * Z))) (x : string * (Z * Z)) :
  days_used (l ++ [x]) = set_add (fst x) (days_used l).
Proof. unfold days_used. now rewrite fold_left_app. Qed.

Lemma days_used_NoDup (l : list (string * (Z * Z))) : NoDup (days_used l).
Proof.
  induction l as [|x l IH] using rev_ind.
  - constructor.
  - rewrite days_used_snoc. now apply set_add_NoDup.
Qed.

Lemma days_used_In (l : list (string * (Z * Z))) (x : string * (Z * Z)) :
  In x l -> In (fst x) (days_used l).
Proof.
  induction l as [|y l IH] using rev_ind; [intros []|].
  rewrite days_used_snoc, set_add_In, in_app_iff. simpl.
  intros [H|[->|[]]]; auto.
Qed.

Lemma day_intervals_snoc (d : string) (l : list (string * (Z * Z))) (x : string * (Z * Z)) :
  day_intervals d (l ++ [x])
  = day_intervals d l ++ (if String.eqb (fst x) d then [snd x] else []).
Proof.
  unfold day_intervals. rewrite filter_app, map_app. simpl.
  now destruct (String.eqb (fst x) d).
Qed.

Lemma day_intervals_absent (d : string) (l : list (string * (Z * Z))) :
  ~ In d (days_used l) -> day_intervals d l = [].
Proof.
  intros H. unfold day_intervals.
  assert (forall x, In x l -> fst x <> d) as Hl.
  { intros x Hx E. apply H. rewrite <- E. now apply days_used_In. }
  clear H. induction l as [|y r IH]; simpl; [reflexivity|].
  destruct (String.eqb (fst y) d) eqn:E.
  - apply String.eqb_eq in E. exfalso. apply (Hl y); [now left | assumption].
  - apply IH. intros x Hx. apply Hl. now right.
Qed.

Lemma daily_append_present (d : string) (iv : Z * Z) (g : string -> list (Z * Z))
    (ds : list string) :
  NoDup ds -> In d ds ->
  daily_append d iv (map (fun d' => (d', g d')) ds)
  = map (fun d' => (d', g d' ++ (if String.eqb d d' then [iv] else []))) ds.
Proof.
  induction 1 as [|e r He Hr IH]; simpl; [intros []|].
  intros Hin. rewrite (String.eqb_sym d e). destruct (String.eqb e d) eqn:E.
  - apply String.eqb_eq in E. subst e. f_equal.
    apply map_ext_in. intros d' Hd'.
    destruct (String.eqb d d') eqn:E'.
    + apply String.eqb_eq in E'. subst d'. contradiction.
    + now rewrite app_nil_r.
  - rewrite app_nil_r. f_equal. apply IH.
    destruct Hin as [->|Hin]; [|assumption].
    rewrite String.eqb_refl in E. discriminate.
Qed.

Lemma daily_append_absent (d : string) (iv : Z * Z) (g : string -> list (Z * Z))
    (ds : list string) :
  ~ In d ds ->
  daily_append d iv (map (fun d' => (d', g d')) ds)
  = map (fun d' => (d', g d')) ds ++ [(d, [iv])].
Proof.
  induction ds as [|e r IH]; simpl; intros Hn; [reflexivity|].
  destruct (String.eqb e d) eqn:E.
  - apply String.eqb_eq in E. subst e. exfalso. apply Hn. now left.
  - f_equal. apply IH. intros H. apply Hn. now right.
Qed.

(** The dict [daily] groups the intervals by day, the days in the order they
    first appear. *)
Lemma daily_groups_by_day (l : list (string * (Z * Z))) :
  fold_left (fun acc x => daily_append (fst x) (snd x) acc) l []
  = map (fun d => (d, day_intervals d l)) (days_used l).
Proof.
  induction l as [|x l IH] using rev_ind; [reflexivity|].
  rewrite fold_left_app. simpl. rewrite IH, days_used_snoc.
  unfold set_add. destruct (Str.mem (fst x) (days_used l)) eqn:E.
  - apply mem_In in E.
    rewrite (daily_append_present _ _ (fun d => day_intervals d l) _ (days_used_NoDup l) E).
    apply map_ext. intros d. now rewrite day_intervals_snoc.
  - assert (~ In (fst x) (days_used l)) as Hn by (rewrite <- mem_In; congruence).
    rewrite (daily_append_absent _ _ (fun d => day_intervals d l) _ Hn).
    rewrite map_app. simpl. f_equal.
    + apply map_ext_in. intros d Hd. rewrite day_intervals_snoc.
      destruct (String.eqb (fst x) d) eqn:E'; [|now rewrite app_nil_r].
      apply String.eqb_eq in E'. subst d. contradiction.
    + rewrite day_intervals_snoc, String.eqb_refl.
      now rewrite (day_intervals_absent _ _ Hn).
Qed.

Lemma add_gaps_idle_gaps (intervals : list (Z * Z)) (penalty : float) :
  add_gaps intervals penalty
  = fold_left (fun p gap => (p + float_of_Z gap / 60)%float) (idle_gaps intervals) penalty.
Proof.
  revert penalty. induction intervals as [|a r IH]; intros penalty; [reflexivity|].
  destruct r as [|b r']; [reflexivity|].
  change (add_gaps (a :: b :: r') penalty)
    with (add_gaps (b :: r')
            (if fst b - snd a >? 15 then (penalty + float_of_Z (fst b - snd a) / 60)%float
             else penalty)).
  change (idle_gaps (a :: b :: r'))
    with (if fst b - snd a >? 15 then (fst b - snd a) :: idle_gaps (b :: r')
          else idle_gaps (b :: r')).
  rewrite IH. now destruct (fst b - snd a >? 15).
Qed.

Lemma penalty_of_groups (l : list (string * (Z * Z))) (ds : list string) (penalty : float) :
  fold_left add_day_gaps (map (fun d => (d, day_intervals d l)) ds) penalty
  = fold_left (fun p gap => (p + float_of_Z gap / 60)%float)
      (flat_map (fun d => idle_gaps (day_sessions d l)) ds) penalty.
Proof.
  revert penalty. induction ds as [|d r IH]; intros penalty; simpl; [reflexivity|].
  rewrite fold_left_app, IH. f_equal.
  unfold add_day_gaps. simpl. apply add_gaps_idle_gaps.
Qed.

Section GapPenalty.

Variable COURSES : catalog.

Lemma add_intervals_Ok (items : list session) (daily daily' : daily_map) :
  add_intervals items daily = Ok daily' ->
  exists l, session_intervals items = Some l
            /\ map fst l = map day items
            /\ daily' = fold_left (fun acc x => daily_append (fst x) (snd x) acc) l daily.
Proof.
  revert daily. induction items as [|item r IH]; simpl; intros daily H.
  - injection H as <-. exists []. auto.
  - inv_bind H. rename x into s, Hx into Hs. inv_bind H. rename x into e, Hx into He.
    destruct (IH _ H) as (l & Hl & Hd & ->).
    rewrite Hs, He, Hl. exists ((day item, (s, e)) :: l). simpl. rewrite Hd. auto.
Qed.

Lemma collect_daily_Ok (keys : list string) (daily daily' : daily_map) (ds ds' : list string) :
  collect_daily COURSES keys daily = Ok daily' ->
  collect_days COURSES keys ds = Ok ds' ->
  exists l, combo_intervals COURSES keys = Some l
            /\ daily' = fold_left (fun acc x => daily_append (fst x) (snd x) acc) l daily
            /\ ds' = fold_left (fun days x => set_add (fst x) days) l ds.
Proof.
  revert daily ds. induction keys as [|key r IH]; simpl; intros daily ds H D.
  - injection H as <-. injection D as <-. exists []. auto.
  - inv_bind H. rename x into c, Hx into Hc. inv_bind H. rename x into items, Hx into Hi.
    inv_bind H. rename x into daily1, Hx into H1.
    rewrite Hc in D. cbn [Py.bind] in D. rewrite Hi in D. cbn [Py.bind] in D.
    unfold COURSES_item in Hc. unfold schedule_item in Hi.
    destruct (COURSES_get COURSES key) as [c'|]; [|discriminate].
    simpl in Hc. injection Hc as ->.
    destruct (schedule c) as [items'|]; [|discriminate].
    simpl in Hi. injection Hi as ->.
    destruct (add_intervals_Ok _ _ _ H1) as (l1 & Hl1 & Hd1 & ->).
    destruct (IH _ _ H D) as (l2 & Hl2 & -> & ->).
    rewrite Hl1, Hl2. exists (l1 ++ l2). rewrite !fold_left_app. repeat split.
    f_equal. clear - Hd1. revert ds l1 Hd1.
    induction items as [|item r IH]; intros ds [|x l1] Hd1; try discriminate; [reflexivity|].
    simpl in *. injection Hd1 as E1 E2. rewrite E1. now apply IH.
Qed.

(** C5, as the code has it: for every combination the generator returns, the
    gap penalty is the sum, day by day, of the idle time of each gap strictly
    greater than 15 minutes between consecutive sessions (sorted by start
    time), each gap counted in hours (its minutes divided by 60), and the
    score is the number of distinct days plus half the penalty. *)
Theorem gap_penalty_and_score
    (group_keys : list string) (combos : list combo) (c : combo) :
  generate_best_combinations_for_groups COURSES group_keys = Ok combos ->
  In c combos ->
  exists l, combo_intervals COURSES (courses c) = Some l
            /\ days c = Z.of_nat (List.length (days_used l))
            /\ empty c = gap_hours l
            /\ score c = (float_of_Z (days c) + 0.5 * empty c)%float.
Proof.
  intros H Hin. destruct (generated_combo _ _ _ _ H Hin) as [_ Hmk].
  remember (courses c) as keys eqn:Hkeys. clear Hkeys.
  unfold make_combo in Hmk.
  inv_bind Hmk. rename x into d, Hx into Hd.
  inv_bind Hmk. rename x into e, Hx into He.
  injection Hmk as <-.
  unfold calculate_days_needed_for_combo in Hd. inv_bind Hd. injection Hd as <-.
  unfold calculate_empty_time_for_combo in He. inv_bind He. injection He as <-.
  destruct (collect_daily_Ok _ _ _ _ _ Hx0 Hx) as (l & Hl & -> & ->).
  exists l. simpl. repeat split; [exact Hl|].
  rewrite daily_groups_by_day. apply penalty_of_groups.
Qed.

End GapPenalty.

(** ** The generator and the scheduler on the small catalog *)

(** Scenario D of the specification: of A1 and A2, only A2 goes with B1. *)
Example scenario_D :
  generate_best_combinations_for_groups demo_catalog ["A"; "B"]
  = Ok [mkCombo ["A2"; "B1"] 1 1%float 1.5%float].
Proof. vm_compute. reflexivity. Qed.

Lemma combinations_pairwise_conflict_free_witness :
  conflict_free demo_catalog "B1" "A2".
Proof.
  apply (combinations_pairwise_conflict_free demo_catalog ["A"; "B"]
           [mkCombo ["A2"; "B1"] 1 1%float 1.5%float]
           (mkCombo ["A2"; "B1"] 1 1%float 1.5%float) 1 0 "B1" "A2").
  - vm_compute. reflexivity.
  - left. reflexivity.
  - discriminate.
  - reflexivity.
  - reflexivity.
Defined.

(** C5, as stated, fails: B1 ends at 09:30 and A2 starts at 10:30, one gap of
    60 idle minutes; the penalty of the combination is 1.0, not 60. *)
Lemma gap_penalty_is_not_in_minutes :
  exists c l,
    generate_best_combinations_for_groups demo_catalog ["A"; "B"] = Ok [c]
    /\ combo_intervals demo_catalog (courses c) = Some l
    /\ gap_minutes l = 60
    /\ empty c = 1%float
    /\ empty c <> float_of_Z (gap_minutes l).
Proof.
  exists (mkCombo ["A2"; "B1"] 1 1%float 1.5%float).
  exists [(saturday, (630, 720)); (saturday, (480, 570))].
  repeat split; try (vm_compute; reflexivity).
  intros H. apply (f_equal (fun x => PrimFloat.eqb x 1%float)) in H.
  vm_compute in H. discriminate H.
Qed.

Lemma gap_penalty_and_score_witness :
  exists l, combo_intervals demo_catalog ["A2"; "B1"] = Some l
            /\ 1 = Z.of_nat (List.length (days_used l))
            /\ 1%float = gap_hours l
            /\ 1.5%float = (float_of_Z 1 + 0.5 * 1)%float.
Proof.
  apply (gap_penalty_and_score demo_catalog ["A"; "B"]
           [mkCombo ["A2"; "B1"] 1 1%float 1.5%float]
           (mkCombo ["A2"; "B1"] 1 1%float 1.5%float)).
  - vm_compute. reflexivity.
  - left. reflexivity.
Defined.

Lemma empty_schedule_never_conflicts_witness :
  exists sel, create_greedy_schedule demo_catalog ["A1"; "B1"; "E1"] = Ok sel /\ In "E1" sel.
Proof.
  refine (proj2 (proj2 (empty_schedule_never_conflicts demo_catalog)
                   ["A1"; "B1"; "E1"] "E1"
                   (mkCourse (Some "E_1") (Some "Ethics") (Some []) true) _ _ _) _).
  - right. right. left. reflexivity.
  - reflexivity.
  - reflexivity.
  - intros key c H. unfold COURSES_get, demo_catalog in H. simpl in H.
    repeat match type of H with
           | (if ?b then _ else _) = _ => destruct b
           end;
      try discriminate; injection H as <-; simpl;
      repeat constructor; eexists; eexists; split; vm_compute; reflexivity.
Defined.

(** C8: the greedy pass skips a key the catalog does not hold; the skip-k
    alternative looks it up with [COURSES[course_key]] and raises. *)
Theorem alternative_schedule_unknown_key :
  create_greedy_schedule demo_catalog ["A2"; "X9"] = Ok ["A2"]
  /\ create_alternative_schedule demo_catalog ["A2"; "X9"] 1 = Raise KeyError
  /\ generate_priority_based_schedules demo_catalog ["A2"; "X9"] = Raise KeyError.
Proof. repeat split; vm_compute; reflexivity. Qed.

(** ** The skip-k alternative and keys outside of the catalog *)

Section AlternativeSchedule.

Variable COURSES : catalog.

Let known (key : string) : Prop := exists c, COURSES_get COURSES key = Some c.

Lemma COURSES_item_known (key : string) (c : course) :
  COURSES_item COURSES key = Ok c -> known key.
Proof.
  unfold COURSES_item. destruct (COURSES_get COURSES key) as [c'|] eqn:E; [|discriminate].
  intros _. exists c'. exact E.
Qed.

Lemma Forall_known_snoc (l : list string) (key : string) :
  Forall known l -> known key -> Forall known (l ++ [key]).
Proof. intros Hl Hk. apply Forall_app. split; [assumption|]. now constructor. Qed.

Lemma alternative_first_loop_known (keys : list string) (skip_count : Z)
    (sel skipped sel' skipped' : list string) :
  Forall known sel -> Forall known skipped ->
  alternative_first_loop COURSES keys skip_count sel skipped = Ok (sel', skipped') ->
  Forall known sel' /\ Forall known skipped'.
Proof.
  revert sel skipped. induction keys as [|key r IH]; simpl; intros sel skipped Hs Hk H.
  - injection H as <- <-. auto.
  - destruct (Z.of_nat (List.length skipped) >=? skip_count).
    + injection H as <- <-. auto.
    + inv_bind H. pose proof (COURSES_item_known _ _ Hx) as Hkey.
      inv_bind H. destruct x0.
      * eapply IH; [| |eassumption]; auto using Forall_known_snoc.
      * eapply IH; [| |eassumption]; auto using Forall_known_snoc.
Qed.

Lemma alternative_second_loop_unknown (keys : list string) (sel skipped out : list string)
    (k : string) :
  In k keys -> COURSES_get COURSES k = None ->
  Forall known sel -> Forall known skipped ->
  alternative_second_loop COURSES keys sel skipped <> Ok out.
Proof.
  intros Hin Hk. revert sel skipped.
  assert (Hmem : forall l, Forall known l -> Str.mem k l = false).
  { intros l Hl. destruct (Str.mem k l) eqn:E; [|reflexivity].
    apply mem_In in E. rewrite Forall_forall in Hl. destruct (Hl _ E) as [c Hc]. congruence. }
  induction keys as [|key r IH]; [contradiction|].
  intros sel skipped Hs Hsk H. simpl in H.
  destruct (string_dec key k) as [->|Hne].
  - rewrite (Hmem _ Hs), (Hmem _ Hsk) in H. simpl in H.
    unfold COURSES_item in H. rewrite Hk in H. discriminate.
  - destruct Hin as [E|Hin]; [contradiction|].
    destruct (negb (Str.mem key sel) && negb (Str.mem key skipped)).
    + inv_bind H. pose proof (COURSES_item_known _ _ Hx) as Hkey.
      inv_bind H. destruct x0.
      * exact (IH Hin _ _ Hs Hsk H).
      * exact (IH Hin _ _ (Forall_known_snoc _ _ Hs Hkey) Hsk H).
    + exact (IH Hin _ _ Hs Hsk H).
Qed.

(** Whatever [skip_count], an order that names a key outside of the catalog
    makes [create_alternative_schedule] raise. *)
Lemma create_alternative_schedule_unknown_key (order : list string) (skip_count : Z)
    (k : string) :
  In k order -> COURSES_get COURSES k = None ->
  exists e, create_alternative_schedule COURSES order skip_count = Raise e.
Proof.
  intros Hin Hk.
  destruct (create_alternative_schedule COURSES order skip_count) as [out|e] eqn:E; [|eauto].
  exfalso. unfold create_alternative_schedule in E. inv_bind E. destruct x as [sel skipped].
  destruct (alternative_first_loop_known _ _ _ _ _ _ (Forall_nil _) (Forall_nil _) Hx)
    as [Hs Hsk].
  exact (alternative_second_loop_unknown order sel skipped out k Hin Hk Hs Hsk E).
Qed.

End AlternativeSchedule.

(** ** The Conflict Resolver *)

Lemma cell_eqb_eq (a b : cell) : cell_eqb a b = true <-> a = b.
Proof.
  destruct a as [r1 c1], b as [r2 c2]. unfold cell_eqb. simpl.
  rewrite andb_true_iff, !Z.eqb_eq. split; [intros [-> ->]; reflexivity|].
  intros H; injection H; auto.
Qed.

Lemma cell_eqb_refl (a : cell) : cell_eqb a a = true.
Proof. now apply cell_eqb_eq. Qed.

Lemma cell_eqb_neq (a b : cell) : cell_eqb a b = false <-> a <> b.
Proof.
  rewrite <- cell_eqb_eq. destruct (cell_eqb a b); split; congruence.
Qed.


Section MainWindowProperties.

Variable COURSES : catalog.
Variable auto_select_list : list (option string * option Z).
Variable unknown : string.
Variable AnimatedCourseWidget : string -> option string * option string.

Let priority := get_course_priority auto_select_list.
Let resolve := resolve_conflicts COURSES auto_select_list unknown.
Let add := _add_course_internal COURSES auto_select_list unknown AnimatedCourseWidget.

(** *** The priority rule *)

Lemma resolve_conflicts_ok (cur : Z) (conflicts : list conflict) (r : resolution) :
  resolution_ok priority cur r -> resolution_ok priority cur (resolve cur conflicts r).
Proof.
  revert r. induction conflicts as [|conf rest IH]; intros r Hr; [exact Hr|].
  unfold resolve in *. simpl.
  destruct (Str.mem (conflict_key conf) (conflict_course_keys_set r)); [now apply IH|].
  destruct (identified COURSES unknown conf); simpl; [|now apply IH].
  apply IH. destruct Hr as (Hn & Hd & Hk & Hb).
  unfold resolution_ok. simpl. repeat split.
  - rewrite Hn. now destruct (Str.mem _ _).
  - intros _. destruct (Str.mem _ (conflict_names_set r)) eqn:E.
    + apply mem_In in E. rewrite Hn in E. intros E'. now rewrite E' in E.
    + intros E'. now apply app_eq_nil in E' as [_ E'].
  - intros k Hin Hlt. apply set_add_In in Hin.
    fold priority. destruct (priority (conflict_key conf) <? cur) eqn:E.
    + rewrite map_app, in_app_iff. simpl. destruct Hin as [->|Hin]; auto.
    + destruct Hin as [->|Hin]; [|auto]. apply Z.ltb_ge in E. lia.
  - fold priority in H. destruct (priority (conflict_key conf) <? cur) eqn:E.
    + apply in_app_or in H. destruct H as [H|[<-|[]]]; [now apply Hb | reflexivity].
    + now apply Hb.
  - fold priority in H. destruct (priority (conflict_key conf) <? cur) eqn:E.
    + apply in_app_or in H. destruct H as [H|[<-|[]]]; [now apply Hb|].
      simpl. now apply Z.ltb_lt.
    + now apply Hb.
Qed.

Lemma resolve_conflicts_keys (cur : Z) (conflicts : list conflict) (r : resolution) (k : string) :
  In k (conflict_course_keys_set r) ->
  In k (conflict_course_keys_set (resolve cur conflicts r)).
Proof.
  revert r. induction conflicts as [|conf rest IH]; intros r Hin; [exact Hin|].
  unfold resolve in *. simpl.
  destruct (Str.mem (conflict_key conf) (conflict_course_keys_set r)); [now apply IH|].
  destruct (identified COURSES unknown conf); simpl; [|now apply IH].
  apply IH. simpl. apply set_add_In. now right.
Qed.

Lemma resolve_conflicts_sees (cur : Z) (conflicts : list conflict) (r : resolution)
    (conf : conflict) :
  In conf conflicts -> identified COURSES unknown conf = true ->
  In (conflict_key conf) (conflict_course_keys_set (resolve cur conflicts r)).
Proof.
  revert r. induction conflicts as [|c rest IH]; intros r Hin Hid; [contradiction|].
  destruct Hin as [->|Hin].
  - unfold resolve. simpl.
    destruct (Str.mem (conflict_key conf) (conflict_course_keys_set r)) eqn:E.
    + apply resolve_conflicts_keys. now apply mem_In.
    + rewrite Hid. simpl. apply resolve_conflicts_keys. simpl.
      apply set_add_In. now left.
  - unfold resolve in *. simpl.
    destruct (Str.mem (conflict_key c) (conflict_course_keys_set r)); [now apply IH|].
    destruct (identified COURSES unknown c); simpl; now apply IH.
Qed.

(** C3, as the code has it: when the caller asks about conflicts and the
    conflict scan recorded a course that can be named (its name is neither
    empty nor the unknown label) and whose rank number is strictly lower than
    the candidate's (999 for a course outside of the priority list), the
    placement is rejected, the rejection lists that course among the blocking
    ones, each with its strictly lower rank, and the window is left as it
    was. *)
Theorem higher_priority_conflict_rejects
    (w : window) (course_key : string) (c : course) (nm : string)
    (sched : list session) (placements : list placement) (warned : list session)
    (conf : conflict) (answer : dialog_answer) :
  COURSES_get COURSES course_key = Some c ->
  name c = Some nm ->
  schedule c = Some sched ->
  build_placements c sched [] [] = Ok (placements, warned) ->
  In conf (fst (find_conflicts COURSES unknown w course_key placements)) ->
  identified COURSES unknown conf = true ->
  priority (conflict_key conf) < priority course_key ->
  exists blocking,
    add course_key true answer w
    = mkAdded (RejectedHigherPriority blocking) warned w
    /\ In (conflict_key conf) (map (fun b => fst (fst b)) blocking)
    /\ (forall b, In b blocking ->
          snd b = priority (fst (fst b)) /\ snd b < priority course_key).
Proof.
  intros Hc Hnm Hs Hp Hin Hid Hlt.
  unfold add, _add_course_internal. rewrite Hc.
  assert (course_truthy c = true) as ->.
  { unfold course_truthy. rewrite Hnm. now destruct (code c). }
  unfold schedule_item. rewrite Hs. simpl. rewrite Hp.
  destruct (find_conflicts COURSES unknown w course_key placements)
    as [conflicts compatible_slots] eqn:Ef.
  simpl in Hin.
  destruct conflicts as [|c0 rest] eqn:Ec; [contradiction|]. rewrite <- Ec in *.
  set (r := resolve_conflicts COURSES auto_select_list unknown _ conflicts _).
  assert (resolution_ok priority (priority course_key) r) as (Hn & Hd & Hk & Hb).
  { apply resolve_conflicts_ok. unfold resolution_ok. simpl.
    repeat split; try contradiction; congruence. }
  assert (In (conflict_key conf) (conflict_course_keys_set r)) as Hkey.
  { apply resolve_conflicts_sees; assumption. }
  pose proof (Hk _ Hkey Hlt) as Hhigh.
  assert (conflict_details_list r <> []) as Hdet.
  { apply Hd. intros E. now rewrite E in Hkey. }
  exists (higher_priority_conflicts r).
  destruct (higher_priority_conflicts r) as [|b bs] eqn:Eh; [contradiction|].
  destruct (conflict_details_list r) as [|d ds] eqn:Ed; [congruence|].
  unfold name_item. rewrite Hnm. simpl. auto.
Qed.

(** *** Placing the sessions *)

Lemma index_mem (l : list string) (x : string) :
  Str.mem x l = true -> exists i, Str.index l x = Ok i.
Proof.
  induction l as [|y r IH]; simpl; [discriminate|].
  rewrite (String.eqb_sym x y). destruct (String.eqb y x); simpl; [eauto|].
  intros H. destruct (IH H) as [i ->]. simpl. eauto.
Qed.

(** The placements are the sessions that resolve to the grid, the warnings
    the sessions of a known day whose times do not. *)
Lemma build_placements_spec (c : course) (sched : list session)
    (acc placements : list placement) (wacc warned : list session) :
  build_placements c sched acc wacc = Ok (placements, warned) ->
  (forall p, In p placements <->
     In p acc
     \/ (In (snd p) sched
         /\ Str.index DAYS (day (snd p)) = Ok (snd (fst (fst p)))
         /\ exists erow, slot_rows (snd p) = Some (fst (fst (fst p)), erow)
                         /\ snd (fst p) = Z.max 1 (erow - fst (fst (fst p)))))
  /\ (forall sess, In sess warned <->
        In sess wacc
        \/ (In sess sched /\ Str.mem (day sess) DAYS = true /\ slot_rows sess = None)).
Proof.
  revert acc wacc. induction sched as [|sess r IH]; intros acc wacc H.
  - simpl in H. injection H as <- <-. split; intros x; simpl; tauto.
  - cbn [build_placements] in H. cbn [In].
    destruct (Str.mem (day sess) DAYS) eqn:Em; cbn [negb] in H.
    + destruct (index_mem _ _ Em) as [col Ecol]. rewrite Ecol in H. cbn [Py.bind] in H.
      destruct (slot_rows sess) as [[srow erow]|] eqn:Es.
      * destruct (IH _ _ H) as [IHp IHw]. split.
        -- intros p. rewrite IHp, in_app_iff. cbn [In]. split.
           ++ intros [[Hp|[<-|[]]]|(Hin & Hd & He)]; auto.
              right. cbn [fst snd]. repeat split; eauto.
           ++ intros [Hp|([E|Hin] & Hd & erow' & He & Hsp)]; auto;
                [|right; eauto].
              left. right. left. destruct p as [[[srow' col'] span'] sess'].
              cbn [fst snd] in E, He, Hd, Hsp. subst sess'. rewrite Es in He.
              injection He as <- <-. rewrite Ecol in Hd. injection Hd as <-. now subst.
        -- intros s. rewrite IHw. split.
           ++ intros [Hw|(Hin & Hm & Hn)]; auto.
           ++ intros [Hw|([E|Hin] & Hm & Hn)]; auto. subst s. congruence.
      * destruct (name_item c) as [nm|e]; cbn [Py.bind] in H; [|discriminate].
        destruct (IH _ _ H) as [IHp IHw]. split.
        -- intros p. rewrite IHp. split.
           ++ intros [Hp|(Hin & Hd & He)]; auto.
           ++ intros [Hp|([E|Hin] & Hd & erow' & He & Hsp)]; auto;
                [subst sess; congruence | right; eauto].
        -- intros s. rewrite IHw, in_app_iff. cbn [In]. split.
           ++ intros [[Hw|[E|[]]]|(Hin & Hm & Hn)]; auto. subst s. auto.
           ++ intros [Hw|([E|Hin] & Hm & Hn)]; auto.
    + destruct (IH _ _ H) as [IHp IHw]. split.
      * intros p. rewrite IHp. split.
        -- intros [Hp|(Hin & Hd & He)]; auto.
        -- intros [Hp|([E|Hin] & Hd & He)]; auto; try solve [right; eauto].
           exfalso. subst sess. clear - Em Hd.
           assert (forall l i, Str.index l (day (snd p)) = Ok i -> Str.mem (day (snd p)) l = true)
             as Hi.
           { induction l as [|y l IHl]; simpl; [discriminate|].
             rewrite (String.eqb_sym (day (snd p)) y).
             destruct (String.eqb y (day (snd p))); simpl; [reflexivity|].
             destruct (Str.index l (day (snd p))); simpl; [eauto | discriminate]. }
           rewrite (Hi _ _ Hd) in Em. discriminate.
      * intros s. rewrite IHw. split.
        -- intros [Hw|(Hin & Hm & Hn)]; auto.
        -- intros [Hw|([E|Hin] & Hm & Hn)]; auto. subst s. congruence.
Qed.







End MainWindowProperties.

(** *** The resolver on the small grid *)

(** Scenario B of the specification: O1 and V1, placed in sequence, share a
    dual cell. *)
Example scenario_B_dual_cell :
  map (fun e => (fst e, info_courses (snd e))) (placed window_O1_V1)
  = [((2, 0), ["O1"; "V1"])].
Proof. reflexivity. Qed.

(** Scenario C of the specification: N1 over O1, eviction confirmed. *)
Example scenario_C :
  map (fun e => (fst e, info_course (snd e)))
    (placed (result_window (demo_add [] "N1" true Yes window_O1)))
  = [((4, 0), Some "N1")].
Proof. vm_compute. reflexivity. Qed.

Lemma higher_priority_conflict_rejects_witness :
  exists blocking,
    demo_add [(Some "O1", Some 1); (Some "N1", Some 2)] "N1" true Yes window_O1
    = mkAdded (RejectedHigherPriority blocking)
        [mkSession saturday "25:00" "26:00" None] window_O1
    /\ In "O1" (map (fun b => fst (fst b)) blocking)
    /\ (forall b, In b blocking ->
          snd b = get_course_priority [(Some "O1", Some 1); (Some "N1", Some 2)] (fst (fst b))
          /\ snd b < get_course_priority [(Some "O1", Some 1); (Some "N1", Some 2)] "N1").
Proof.
  apply (higher_priority_conflict_rejects demo_grid_catalog
           [(Some "O1", Some 1); (Some "N1", Some 2)] "Unknown" demo_widget
           window_O1 "N1"
           (mkCourse (Some "N_1") (Some "Norms")
              (Some [mkSession saturday "09:00" "11:00" None;
                     mkSession saturday "25:00" "26:00" None]) true)
           "Norms"
           [mkSession saturday "09:00" "11:00" None; mkSession saturday "25:00" "26:00" None]
           [(4, 0, 4, mkSession saturday "09:00" "11:00" None)]
           [mkSession saturday "25:00" "26:00" None]
           ((4, 0), (2, 0), "O1", "Optics") Yes).
  - reflexivity.
  - reflexivity.
  - reflexivity.
  - vm_compute. reflexivity.
  - vm_compute. left. reflexivity.
  - vm_compute. reflexivity.
  - vm_compute. reflexivity.
Defined.

(** C3, as stated, fails: U1 holds Saturday 08:00 and ranks first, O1 ranks
    second and conflicts with it; U1 has no name to show, the priority rule
    skips it, and O1 takes the cell. *)
Lemma priority_rule_skips_unnamed_course :
  fst (find_conflicts demo_grid_catalog "Unknown" window_U1 "O1"
         [(2, 0, 4, mkSession saturday "08:00" "10:00" (Some ODD))])
  = [((2, 0), (2, 0), "U1", "Unknown"); ((2, 0), (2, 0), "U1", "Unknown")]
  /\ get_course_priority [(Some "U1", Some 1); (Some "O1", Some 2)] "U1"
     < get_course_priority [(Some "U1", Some 1); (Some "O1", Some 2)] "O1"
  /\ result_outcome
       (demo_add [(Some "U1", Some 1); (Some "O1", Some 2)] "O1" true Yes window_U1)
     = Added
  /\ map (fun e => (fst e, info_course (snd e)))
       (placed (result_window
          (demo_add [(Some "U1", Some 1); (Some "O1", Some 2)] "O1" true Yes window_U1)))
     = [((2, 0), Some "O1")]
  /\ result_window
       (demo_add [(Some "U1", Some 1); (Some "O1", Some 2)] "O1" true Yes window_U1)
     <> window_U1.
Proof.
  repeat split; try (vm_compute; reflexivity).
  vm_compute. discriminate.
Qed.


(** A key that is not in the catalog raises [TypeError] before anything is
    touched; a course without a ['name'] raises [KeyError] at its first cell,
    and nothing is placed. *)
Example unknown_key_and_nameless_course_place_nothing :
  demo_add [] "X9" true Yes window_O1 = mkAdded (Failed TypeError) [] window_O1
  /\ _add_course_internal
       [("L1", mkCourse (Some "L_1") None
                 (Some [mkSession saturday "09:00" "11:00" None]) true)]
       [] "Unknown" demo_widget "L1" true Yes empty_window
     = mkAdded (Failed KeyError) [] empty_window.
Proof. split; vm_compute; reflexivity. Qed.


(** ** Removal *)

Lemma In_dict_del {V : Type} (k : cell) (e : cell * V) (d : list (cell * V)) :
  In e (dict_del k d) -> In e d.
Proof.
  induction d as [|[k0 v0] r IH]; simpl; [tauto|].
  destruct (cell_eqb k0 k); simpl; tauto.
Qed.

Lemma In_dict_del_neq {V : Type} (k k' : cell) (v : V) (d : list (cell * V)) :
  In (k', v) d -> k' <> k -> In (k', v) (dict_del k d).
Proof.
  intros H Hne. induction d as [|[k0 v0] r IH]; simpl in *; [tauto|].
  destruct (cell_eqb k0 k) eqn:E.
  - apply cell_eqb_eq in E. subst k0. destruct H as [H|H]; [|assumption].
    injection H as <- _. contradiction.
  - simpl. tauto.
Qed.

Lemma keys_dict_del {V : Type} (k k' : cell) (d : list (cell * V)) :
  In k' (map fst (dict_del k d)) -> In k' (map fst d).
Proof.
  rewrite !in_map_iff. intros ([k0 v0] & E & H). exists (k0, v0).
  split; [assumption|]. eapply In_dict_del; eassumption.
Qed.

Lemma keys_dict_del_neq {V : Type} (k k' : cell) (d : list (cell * V)) :
  In k' (map fst d) -> k' <> k -> In k' (map fst (dict_del k d)).
Proof.
  rewrite !in_map_iff. intros ([k0 v0] & E & H) Hne. simpl in E. subst k0.
  exists (k', v0). split; [reflexivity|]. now apply In_dict_del_neq.
Qed.

Lemma NoDup_dict_del {V : Type} (k : cell) (d : list (cell * V)) :
  NoDup (map fst d) -> NoDup (map fst (dict_del k d)) /\ ~ In k (map fst (dict_del k d)).
Proof.
  induction d as [|[k0 v0] r IH]; simpl; intros H.
  - split; [constructor | tauto].
  - inversion H as [|? ? Hn Hr]; subst.
    destruct (cell_eqb k0 k) eqn:E.
    + apply cell_eqb_eq in E. subst k0. auto.
    + apply cell_eqb_neq in E. destruct (IH Hr) as [IH1 IH2]. simpl. split.
      * constructor; [|assumption]. intros Hin. apply Hn. eapply keys_dict_del; eassumption.
      * intros [Heq|Hin]; auto.
Qed.

Lemma In_dict_set {V : Type} (k : cell) (v : V) (e : cell * V) (d : list (cell * V)) :
  In e (dict_set k v d) -> e = (k, v) \/ In e d.
Proof.
  induction d as [|[k0 v0] r IH]; simpl.
  - intros [<-|[]]. now left.
  - destruct (cell_eqb k0 k) eqn:E; simpl.
    + apply cell_eqb_eq in E. subst k0. intros [<-|H]; auto.
    + intros [<-|H]; auto. destruct (IH H); auto.
Qed.

Lemma In_dict_set_neq {V : Type} (k k' : cell) (v v' : V) (d : list (cell * V)) :
  In (k', v') d -> k' <> k -> In (k', v') (dict_set k v d).
Proof.
  intros H Hne. induction d as [|[k0 v0] r IH]; simpl in *; [tauto|].
  destruct (cell_eqb k0 k) eqn:E; simpl.
  - apply cell_eqb_eq in E. subst k0. destruct H as [H|H]; [|auto].
    injection H as <- _. contradiction.
  - tauto.
Qed.

Lemma In_dict_set_same {V : Type} (k : cell) (v : V) (d : list (cell * V)) :
  ~ In k (map fst d) -> In (k, v) (dict_set k v d).
Proof.
  induction d as [|[k0 v0] r IH]; simpl; intros H; [now left|].
  destruct (cell_eqb k0 k) eqn:E; simpl.
  - apply cell_eqb_eq in E. subst k0. tauto.
  - right. apply IH. tauto.
Qed.

Lemma keys_dict_set {V : Type} (k k' : cell) (v : V) (d : list (cell * V)) :
  In k' (map fst (dict_set k v d)) <-> k' = k \/ In k' (map fst d).
Proof.
  induction d as [|[k0 v0] r IH]; simpl.
  - intuition congruence.
  - destruct (cell_eqb k0 k) eqn:E; simpl.
    + apply cell_eqb_eq in E. subst k0. intuition congruence.
    + rewrite IH. intuition congruence.
Qed.

Lemma NoDup_dict_set {V : Type} (k : cell) (v : V) (d : list (cell * V)) :
  NoDup (map fst d) -> NoDup (map fst (dict_set k v d)).
Proof.
  induction d as [|[k0 v0] r IH]; simpl; intros H.
  - constructor; [tauto | constructor].
  - inversion H as [|? ? Hn Hr]; subst.
    destruct (cell_eqb k0 k) eqn:E; simpl.
    + constructor; assumption.
    + apply cell_eqb_neq in E. constructor; [|auto].
      rewrite keys_dict_set. intros [Heq|Hin]; auto.
Qed.

Lemma In_keys {V : Type} (k : cell) (v : V) (d : list (cell * V)) :
  In (k, v) d -> In k (map fst d).
Proof. intros H. apply in_map_iff. exists (k, v). auto. Qed.

Lemma NoDup_keys_unique {V : Type} (k : cell) (v v' : V) (d : list (cell * V)) :
  NoDup (map fst d) -> In (k, v) d -> In (k, v') d -> v = v'.
Proof.
  induction d as [|[k0 v0] r IH]; simpl; intros H H1 H2; [contradiction|].
  inversion H as [|? ? Hn Hr]; subst.
  destruct H1 as [H1|H1], H2 as [H2|H2].
  - congruence.
  - injection H1 as -> _. exfalso. apply Hn. eapply In_keys; eassumption.
  - injection H2 as -> _. exfalso. apply Hn. eapply In_keys; eassumption.
  - auto.
Qed.

Lemma dict_mem_keys {V : Type} (k : cell) (d : list (cell * V)) :
  dict_mem k d = true <-> In k (map fst d).
Proof.
  unfold dict_mem. induction d as [|[k0 v0] r IH]; simpl.
  - split; [discriminate | tauto].
  - destruct (cell_eqb k0 k) eqn:E.
    + apply cell_eqb_eq in E. subst. tauto.
    + apply cell_eqb_neq in E. rewrite IH. intuition congruence.
Qed.

Lemma find_dual_widget_Some (id : nat) (p : list (cell * info)) (k : cell) (rows : Z) :
  find_dual_widget id p = Some (k, rows) ->
  exists cs odd_data even_data, In (k, DualInfo cs rows id odd_data even_data) p.
Proof.
  induction p as [|[k0 i0] r IH]; simpl; [discriminate|].
  destruct i0 as [c rows0 wd|cs rows0 id0 odd_data even_data].
  - intros H. destruct (IH H) as (cs & o & e & Hin). eauto 6.
  - destruct (Nat.eqb id0 id) eqn:E.
    + apply Nat.eqb_eq in E. subst id0. intros H. injection H as <- <-. eauto 6.
    + intros H. destruct (IH H) as (cs' & o & e & Hin). eauto 6.
Qed.

Lemma find_dual_widget_None (id : nat) (p : list (cell * info)) :
  find_dual_widget id p = None <->
  (forall k cs rows odd_data even_data, ~ In (k, DualInfo cs rows id odd_data even_data) p).
Proof.
  induction p as [|[k0 i0] r IH]; simpl.
  - split; [intros _ ? ? ? ? ? [] | reflexivity].
  - destruct i0 as [c rows0 wd|cs rows0 id0 odd_data even_data].
    + rewrite IH. split.
      * intros H k cs rows o e [Heq|Hin]; [discriminate | eapply H; eassumption].
      * intros H k cs rows o e Hin. eapply H. right. eassumption.
    + destruct (Nat.eqb id0 id) eqn:E.
      * apply Nat.eqb_eq in E. subst id0. split; [discriminate|].
        intros H. exfalso. eapply H. left. reflexivity.
      * apply Nat.eqb_neq in E. rewrite IH. split.
        -- intros H k cs' rows o e [Heq|Hin]; [congruence | eapply H; eassumption].
        -- intros H k cs' rows o e Hin. eapply H. right. eassumption.
Qed.

Section RemovalProperties.

Variable COURSES : catalog.
Variable AnimatedCourseWidget : string -> option string * option string.
Variable key : string.
Variable p0 : list (cell * info).
Hypothesis Hwf : wf_placed p0.

Let Inv := removal_inv COURSES key p0.

Lemma info_holds_single (c : string) (rows : Z) (wd : option widget) (k : string) :
  info_holds k (SingleInfo c rows wd) = String.eqb c k.
Proof. reflexivity. Qed.

Lemma info_holds_dual (cs : list string) (rows : Z) (id : nat) (o e : course_data)
    (k : string) :
  info_holds k (DualInfo cs rows id o e) = Str.mem k cs.
Proof. reflexivity. Qed.

(** In a dual entry that holds [key], the other course is another course,
    and the entry holds it too. *)
Lemma dual_entry_other (k : cell) (cs : list string) (rows : Z) (id : nat)
    (o e : course_data) :
  In (k, DualInfo cs rows id o e) p0 -> Str.mem key cs = true ->
  other_course_key o e key <> key /\ Str.mem (other_course_key o e key) cs = true.
Proof.
  intros Hin Hk. destruct Hwf as (_ & Hcs & _).
  destruct (Hcs _ _ _ _ _ _ Hin) as [-> Hne].
  unfold other_course_key, get_other_course_data.
  apply mem_In in Hk. destruct (String.eqb key (cd_course_key o)) eqn:E.
  - apply String.eqb_eq in E. split; [congruence|].
    apply mem_In. right. now left.
  - apply String.eqb_neq in E. split.
    + destruct Hk as [Hk|[Hk|[]]]; congruence.
    + apply mem_In. now left.
Qed.

Lemma demoted_not_holding (k : cell) (i : info) :
  demoted key p0 k i -> info_holds key i = false /\ info_is_dual i = false.
Proof.
  intros (cs & rows & id & o & e & wd & Hin & Hk & -> & _).
  destruct (dual_entry_other _ _ _ _ _ _ Hin Hk) as [Hne _].
  split; [|reflexivity]. rewrite info_holds_single. now apply String.eqb_neq.
Qed.

Lemma inv_entry_origin (p : list (cell * info)) (k : cell) (i : info) :
  Inv p -> In (k, i) p -> info_holds key i = true \/ info_is_dual i = true ->
  In (k, i) p0.
Proof.
  intros HI Hin H. destruct (inv_origin _ _ _ _ HI _ _ Hin) as [?|Hd]; [assumption|].
  destruct (demoted_not_holding _ _ Hd) as [H1 H2]. destruct H; congruence.
Qed.

Lemma inv_holder_origin (p : list (cell * info)) (k : cell) (i : info) (other : string) :
  Inv p -> In (k, i) p -> info_holds other i = true ->
  exists i0, In (k, i0) p0 /\ info_holds other i0 = true.
Proof.
  intros HI Hin H. destruct (inv_origin _ _ _ _ HI _ _ Hin) as [?|Hd]; [eauto|].
  destruct Hd as (cs & rows & id & o & e & wd & Hin0 & Hk & -> & _).
  exists (DualInfo cs rows id o e). split; [assumption|].
  rewrite info_holds_single in H. apply String.eqb_eq in H. subst other.
  rewrite info_holds_dual. now apply (dual_entry_other _ _ _ _ _ _ Hin0 Hk).
Qed.

Lemma inv_start : Inv p0.
Proof.
  destruct Hwf as (Hnd & _). constructor; auto.
  intros k rows other (cs & id & o & e & Hin & _). eapply In_keys; eassumption.
Qed.

(** *** The scan *)

Lemma has_other_sessions_true (other : string) (here : cell) (exc : option cell)
    (p : list (cell * info)) :
  has_other_sessions other here exc p = true <->
  exists k' i', In (k', i') p /\ k' <> here /\ not_except exc k'
                /\ info_holds other i' = true.
Proof.
  unfold has_other_sessions. rewrite existsb_exists. split.
  - intros ([k' i'] & Hin & H). simpl in H.
    apply andb_true_iff in H. destruct H as [H Hh].
    apply andb_true_iff in H. destruct H as [He Hn].
    exists k', i'. repeat split; auto.
    + apply negb_true_iff, cell_eqb_neq in Hn. assumption.
    + destruct exc as [e|]; simpl; [|exact I].
      apply negb_true_iff, cell_eqb_neq in He. assumption.
  - intros (k' & i' & Hin & Hn & He & Hh). exists (k', i'). split; [assumption|].
    simpl. rewrite Hh. apply cell_eqb_neq in Hn. rewrite Hn.
    destruct exc as [e|]; simpl in *; [|reflexivity].
    apply cell_eqb_neq in He. now rewrite He.
Qed.

Lemma removal_scan_spec (exc : option cell) (all q : list (cell * info))
    (tc : list dual_ref) (tr : list cell) :
  removal_scan key exc all q = (tc, tr) ->
  (forall id o e, In (id, o, e) tc ->
     exists k cs rows,
       In (k, DualInfo cs rows id o e) q /\ Str.mem key cs = true
       /\ has_other_sessions (other_course_key o e key) k exc all = true)
  /\ (forall k, In k tr ->
        exists i, In (k, i) q /\ info_holds key i = true /\ not_except exc k
                  /\ (forall cs rows id o e, i = DualInfo cs rows id o e ->
                        has_other_sessions (other_course_key o e key) k exc all = false))
  /\ (forall k i, In (k, i) q -> info_holds key i = true -> not_except exc k ->
        In k tr \/ exists cs rows id o e, i = DualInfo cs rows id o e /\ In (id, o, e) tc).
Proof.
  revert tc tr. induction q as [|[k0 i0] r IH]; intros tc tr H.
  - simpl in H. injection H as <- <-. repeat split; try contradiction.
  - simpl in H. destruct (removal_scan key exc all r) as [tc' tr'].
    destruct (IH _ _ eq_refl) as (IH1 & IH2 & IH3).
    assert (Hrest :
      (forall id o e, In (id, o, e) tc' ->
         exists k cs rows, In (k, DualInfo cs rows id o e) ((k0, i0) :: r)
           /\ Str.mem key cs = true
           /\ has_other_sessions (other_course_key o e key) k exc all = true)
      /\ (forall k, In k tr' ->
            exists i, In (k, i) ((k0, i0) :: r) /\ info_holds key i = true
              /\ not_except exc k
              /\ (forall cs rows id o e, i = DualInfo cs rows id o e ->
                    has_other_sessions (other_course_key o e key) k exc all = false))).
    { split.
      - intros id o e Hin. destruct (IH1 _ _ _ Hin) as (k & cs & rows & Hq & Hr).
        exists k, cs, rows. split; [now right | assumption].
      - intros k Hin. destruct (IH2 _ Hin) as (i & Hq & Hr).
        exists i. split; [now right | assumption]. }
    destruct Hrest as [R1 R2].
    destruct (match exc with Some e => cell_eqb k0 e | None => false end) eqn:Eskip.
    + injection H as <- <-. repeat split; auto.
      intros k i Hin Hh He. destruct Hin as [Heq|Hin]; [|eauto].
      injection Heq as -> ->. exfalso.
      destruct exc as [e|]; [|discriminate]. apply cell_eqb_eq in Eskip. contradiction.
    + assert (Hne : not_except exc k0).
      { destruct exc as [e|]; simpl; [|exact I]. now apply cell_eqb_neq. }
      destruct i0 as [c rows0 wd|cs rows0 id0 o0 e0].
      * destruct (String.eqb c key) eqn:Ec; injection H as <- <-; repeat split; auto.
        -- intros k [<-|Hin]; [|auto].
           exists (SingleInfo c rows0 wd). repeat split; auto; [now left | discriminate].
        -- intros k i [Heq|Hin] Hh He.
           ++ injection Heq as <- <-. left. now left.
           ++ destruct (IH3 _ _ Hin Hh He) as [?|?]; [left; now right | now right].
        -- intros k i [Heq|Hin] Hh He; [|eauto].
           injection Heq as <- <-. rewrite info_holds_single in Hh. congruence.
      * destruct (Str.mem key cs) eqn:Ec.
        -- destruct (has_other_sessions _ k0 exc all) eqn:Eo;
             injection H as <- <-; repeat split; auto.
           ++ intros id o e [Heq|Hin]; [|auto]. injection Heq as <- <- <-.
              exists k0, cs, rows0. repeat split; auto. now left.
           ++ intros k i [Heq|Hin] Hh He.
              ** injection Heq as <- <-. right. exists cs, rows0, id0, o0, e0.
                 split; [reflexivity | now left].
              ** destruct (IH3 _ _ Hin Hh He) as [?|(cs' & r' & id' & o' & e' & -> & ?)];
                   [now left|]. right. exists cs', r', id', o', e'.
                 split; [reflexivity | now right].
           ++ intros k [<-|Hin]; [|auto].
              exists (DualInfo cs rows0 id0 o0 e0). repeat split; auto; [now left|].
              intros cs' r' id' o' e' Heq. injection Heq as <- <- <- <- <-. assumption.
           ++ intros k i [Heq|Hin] Hh He.
              ** injection Heq as <- <-. left. now left.
              ** destruct (IH3 _ _ Hin Hh He) as [?|?]; [left; now right | now right].
        -- injection H as <- <-. repeat split; auto.
           intros k i [Heq|Hin] Hh He; [|eauto].
           injection Heq as <- <-. rewrite info_holds_dual in Hh. congruence.
Qed.

(** *** The steps *)

Lemma keeps_refl (p : list (cell * info)) : keeps key p p.
Proof. intros k i H _. exact H. Qed.

Lemma keeps_trans (p1 p2 p3 : list (cell * info)) :
  keeps key p1 p2 -> keeps key p2 p3 -> keeps key p1 p3.
Proof. intros H12 H23 k i H Hh. apply H12; [apply H23|]; assumption. Qed.

Lemma keeps_del (k : cell) (p : list (cell * info)) : keeps key p (dict_del k p).
Proof. intros k' i H _. eapply In_dict_del; eassumption. Qed.

Lemma gone_keeps (r : dual_ref) (p p' : list (cell * info)) :
  gone r p -> keeps key p p' -> gone r p'.
Proof.
  unfold gone. rewrite !find_dual_widget_None. intros H Hk k cs rows o e Hin.
  eapply H. apply Hk; [eassumption|]. now right.
Qed.

Lemma count_dual_keeps (p p' : list (cell * info)) :
  NoDup (map fst p') -> keeps key p p' -> (count_dual p' <= count_dual p)%nat.
Proof.
  intros Hnd Hk. unfold count_dual. apply NoDup_incl_length.
  - apply NoDup_filter. eapply NoDup_map_inv. eassumption.
  - intros [k i] Hin. apply filter_In in Hin. destruct Hin as [Hin Hd].
    apply filter_In. split; [|assumption]. apply Hk; [assumption|]. now right.
Qed.

Lemma count_dual_del (k : cell) (i : info) (p : list (cell * info)) :
  NoDup (map fst p) -> In (k, i) p -> info_is_dual i = true ->
  (count_dual (dict_del k p) < count_dual p)%nat.
Proof.
  unfold count_dual. induction p as [|[k0 i0] r IH]; simpl; intros Hnd Hin Hd; [contradiction|].
  inversion Hnd as [|? ? Hn Hr]; subst.
  destruct (cell_eqb k0 k) eqn:E.
  - apply cell_eqb_eq in E. subst k0.
    destruct Hin as [Heq|Hin].
    + injection Heq as ->. rewrite Hd. simpl. lia.
    + exfalso. apply Hn. eapply In_keys; eassumption.
  - apply cell_eqb_neq in E. destruct Hin as [Heq|Hin]; [congruence|].
    specialize (IH Hr Hin Hd). simpl. destruct (info_is_dual i0); simpl; lia.
Qed.

Lemma count_dual_set_single (k : cell) (c : string) (rows : Z) (wd : option widget)
    (p : list (cell * info)) :
  (count_dual (dict_set k (SingleInfo c rows wd) p) <= count_dual p)%nat.
Proof.
  unfold count_dual. induction p as [|[k0 i0] r IH]; simpl; [lia|].
  destruct (cell_eqb k0 k); simpl.
  - destruct (info_is_dual i0); simpl; lia.
  - destruct (info_is_dual i0); simpl; lia.
Qed.

Lemma inv_del (k : cell) (p : list (cell * info)) :
  Inv p -> cell_ok COURSES key p0 k -> Inv (dict_del k p).
Proof.
  intros HI [(i & Hi & Hh) Hnm]. constructor.
  - now apply NoDup_dict_del, (inv_nodup _ _ _ _ HI).
  - intros k' i' Hin. apply (inv_origin _ _ _ _ HI). eapply In_dict_del; eassumption.
  - intros k' i' Hin Hn. apply In_dict_del_neq; [now apply (inv_kept _ _ _ _ HI)|].
    intros ->. destruct Hwf as (Hnd & _).
    rewrite (NoDup_keys_unique _ _ _ _ Hnd Hin Hi) in Hn. congruence.
  - intros k' rows other Hm. apply keys_dict_del_neq.
    + eapply (inv_demote _ _ _ _ HI); eassumption.
    + intros ->. eapply Hnm; eassumption.
Qed.

(** The dual widget found by identity is the entry the scan saw. *)
Lemma found_is_ref (p : list (cell * info)) (id : nat) (o e : course_data)
    (pos : cell) (span : Z) :
  Inv p -> ref_ok key p0 (id, o, e) -> find_dual_widget id p = Some (pos, span) ->
  exists cs, In (pos, DualInfo cs span id o e) p /\ In (pos, DualInfo cs span id o e) p0
             /\ Str.mem key cs = true
             /\ held_elsewhere p0 pos (other_course_key o e key).
Proof.
  intros HI (k & cs & rows & Hin0 & Hk & Hheld) Hf.
  destruct (find_dual_widget_Some _ _ _ _ Hf) as (cs' & o' & e' & Hin).
  assert (In (pos, DualInfo cs' span id o' e') p0) as Hin0'.
  { eapply inv_entry_origin; eauto. }
  destruct Hwf as (Hnd & _ & Hid).
  assert (pos = k) as -> by (eapply Hid; eassumption).
  pose proof (NoDup_keys_unique _ _ _ _ Hnd Hin0 Hin0') as E. injection E as -> -> -> ->.
  exists cs'. auto.
Qed.

Lemma inv_demoted_set (p : list (cell * info)) (id : nat) (o e : course_data)
    (cs : list string) (pos : cell) (span : Z) (wd : option widget) :
  In (pos, DualInfo cs span id o e) p0 -> Str.mem key cs = true ->
  held_elsewhere p0 pos (other_course_key o e key) ->
  ~ In pos (map fst p) ->
  (forall k i, In (k, i) p0 -> k <> pos -> info_holds key i = false -> In (k, i) p) ->
  (forall k rows other, must_demote COURSES key p0 k rows other -> k <> pos ->
                        In k (map fst p)) ->
  NoDup (map fst p) ->
  (forall k i, In (k, i) p -> In (k, i) p0 \/ demoted key p0 k i) ->
  removal_inv COURSES key p0 (dict_set pos (SingleInfo (other_course_key o e key) span wd) p).
Proof.
  intros Hin0 Hk Hheld Hnot Hkept Hdem Hnd Horig. constructor.
  - now apply NoDup_dict_set.
  - intros k i Hin. apply In_dict_set in Hin. destruct Hin as [Heq|Hin]; [|auto].
    injection Heq as -> ->. right. exists cs, span, id, o, e, wd. auto.
  - intros k i Hin Hn. destruct (Hwf) as (Hnd0 & _).
    assert (k <> pos) as Hne.
    { intros ->. rewrite (NoDup_keys_unique _ _ _ _ Hnd0 Hin Hin0) in Hn.
      rewrite info_holds_dual in Hn. congruence. }
    apply In_dict_set_neq; auto.
  - intros k rows other Hm. apply keys_dict_set.
    destruct (cell_eqb k pos) eqn:E.
    + left. now apply cell_eqb_eq.
    + right. apply cell_eqb_neq in E. eauto.
Qed.

(** The two writes of [remove_course_from_dual_widget] on [self.placed]. *)
Lemma convert_step (p : list (cell * info)) (id : nat) (o e : course_data)
    (pos : cell) (span : Z) :
  Inv p -> ref_ok key p0 (id, o, e) -> find_dual_widget id p = Some (pos, span) ->
  let other := other_course_key o e key in
  let p2 := dict_del pos p in
  (count_dual p2 < count_dual p)%nat
  /\ keeps key p p2
  /\ gone (id, o, e) p2
  /\ (exists i, In (pos, i) p0 /\ info_holds key i = true)
  /\ (course_truthy (COURSES_get_or_empty COURSES other) = false -> Inv p2)
  /\ (forall wd,
        let p5 := dict_set pos (SingleInfo other span wd) p2 in
        Inv p5 /\ keeps key p2 p5 /\ gone (id, o, e) p5
        /\ (count_dual p5 <= count_dual p2)%nat).
Proof.
  intros HI Hr Hf other p2.
  destruct (found_is_ref _ _ _ _ _ _ HI Hr Hf) as (cs & Hin & Hin0 & Hk & Hheld).
  pose proof (inv_nodup _ _ _ _ HI) as Hnd.
  destruct (NoDup_dict_del pos p Hnd) as [Hnd2 Habs]. fold p2 in Hnd2, Habs.
  destruct Hwf as (Hnd0 & _ & Hid).
  assert (Hgone2 : gone (id, o, e) p2).
  { unfold gone. simpl. apply find_dual_widget_None. intros k cs' rows o' e' Hin'.
    assert (In (k, DualInfo cs' rows id o' e') p0) as Hin0'.
    { eapply inv_entry_origin; [exact HI | eapply In_dict_del; eassumption | now right]. }
    assert (k = pos) as -> by (eapply Hid; eassumption).
    apply Habs. eapply In_keys; eassumption. }
  assert (Hkept2 : forall k i, In (k, i) p0 -> k <> pos -> info_holds key i = false ->
                               In (k, i) p2).
  { intros k i Hi Hne Hn. apply In_dict_del_neq; [|assumption].
    now apply (inv_kept _ _ _ _ HI). }
  assert (Hdem2 : forall k rows other', must_demote COURSES key p0 k rows other' ->
                                        k <> pos -> In k (map fst p2)).
  { intros k rows other' Hm Hne. apply keys_dict_del_neq; [|assumption].
    eapply (inv_demote _ _ _ _ HI); eassumption. }
  assert (Horig2 : forall k i, In (k, i) p2 -> In (k, i) p0 \/ demoted key p0 k i).
  { intros k i Hi. apply (inv_origin _ _ _ _ HI). eapply In_dict_del; eassumption. }
  refine (conj _ (conj _ (conj Hgone2 (conj _ (conj _ _))))).
  - eapply count_dual_del; eauto.
  - apply keeps_del.
  - exists (DualInfo cs span id o e). split; [assumption|]. now rewrite info_holds_dual.
  - intros Hfalse. constructor; auto.
    + intros k i Hi Hn. apply Hkept2; auto. intros ->.
      rewrite (NoDup_keys_unique _ _ _ _ Hnd0 Hi Hin0) in Hn.
      rewrite info_holds_dual in Hn. congruence.
    + intros k rows other' Hm. apply (Hdem2 _ _ _ Hm). intros ->.
      destruct Hm as (cs' & id' & o' & e' & Hin' & _ & -> & Ht & _).
      pose proof (NoDup_keys_unique _ _ _ _ Hnd0 Hin' Hin0) as E.
      injection E as -> -> -> -> ->. unfold other in Hfalse. congruence.
  - intros wd p5. refine (conj _ (conj _ (conj _ _))).
    + eapply inv_demoted_set; eauto.
    + intros k i Hi Hh. apply In_dict_set in Hi. destruct Hi as [Heq|Hi]; [|assumption].
      injection Heq as -> ->. exfalso.
      destruct (dual_entry_other _ _ _ _ _ _ Hin0 Hk) as [Hne _].
      destruct Hh as [Hh|Hh]; [|discriminate].
      rewrite info_holds_single in Hh. apply String.eqb_eq in Hh. contradiction.
    + unfold gone. simpl. apply find_dual_widget_None. intros k cs' rows o' e' Hin'.
      apply In_dict_set in Hin'. destruct Hin' as [Heq|Hin']; [discriminate|].
      unfold gone in Hgone2. simpl in Hgone2.
      eapply (proj1 (find_dual_widget_None id p2)); eassumption.
    + apply count_dual_set_single.
Qed.

Lemma placed_remove_placed_by_start (k : cell) (w : window) :
  placed (remove_placed_by_start k w)
  = if dict_mem k (placed w) then dict_del k (placed w) else placed w.
Proof.
  unfold remove_placed_by_start, dict_mem.
  destruct (dict_get k (placed w)); reflexivity.
Qed.

Lemma placed_setCellWidget (k : cell) (x : widget) (w : window) :
  placed (setCellWidget k x w) = placed w.
Proof. unfold setCellWidget. now destruct (in_table k). Qed.

Lemma remove_all_sub (cells : list cell) (w : window) (e : cell * info) :
  In e (placed (remove_all cells w)) -> In e (placed w).
Proof.
  revert w. induction cells as [|k r IH]; intros w H; [exact H|].
  unfold remove_all in H. simpl in H. apply (IH _) in H.
  destruct (dict_mem k (placed w)) eqn:Em; [|exact H].
  rewrite placed_remove_placed_by_start, Em in H. eapply In_dict_del; eassumption.
Qed.

Lemma remove_all_spec (cells : list cell) (w : window) :
  Inv (placed w) -> Forall (cell_ok COURSES key p0) cells ->
  Inv (placed (remove_all cells w))
  /\ keeps key (placed w) (placed (remove_all cells w))
  /\ (forall k, In k cells -> ~ In k (map fst (placed (remove_all cells w)))).
Proof.
  intros HI Hc. revert w HI. induction Hc as [|k r Hk Hr IH]; intros w HI.
  - simpl. refine (conj HI (conj (keeps_refl _) _)). intros k [].
  - set (w1 := if dict_mem k (placed w) then remove_placed_by_start k w else w).
    change (remove_all (k :: r) w) with (remove_all r w1).
    assert (H1 : Inv (placed w1) /\ keeps key (placed w) (placed w1)
                 /\ ~ In k (map fst (placed w1))).
    { unfold w1. destruct (dict_mem k (placed w)) eqn:Em.
      - rewrite placed_remove_placed_by_start, Em. refine (conj _ (conj _ _)).
        + now apply inv_del.
        + apply keeps_del.
        + now apply NoDup_dict_del, (inv_nodup _ _ _ _ HI).
      - refine (conj HI (conj (keeps_refl _) _)).
        rewrite <- dict_mem_keys. congruence. }
    destruct H1 as (HI1 & Hk1 & Habs1). destruct (IH w1 HI1) as (HI2 & Hk2 & Habs2).
    refine (conj HI2 (conj _ _)); [eapply keeps_trans; eassumption|].
    intros k' [<-|Hin]; [|auto].
    intros Hin. apply in_map_iff in Hin. destruct Hin as ([k0 i0] & E & Hin).
    simpl in E. subst k0. apply Habs1. eapply In_keys.
    eapply remove_all_sub. eassumption.
Qed.

(** *** The scan hands on only what may be removed *)

Lemma scan_ok (exc : option cell) (p : list (cell * info))
    (tc : list dual_ref) (tr : list cell) :
  Inv p -> exc_ok key p0 exc -> removal_scan key exc p p = (tc, tr) ->
  Forall (ref_ok key p0) tc /\ Forall (cell_ok COURSES key p0) tr.
Proof.
  intros HI He Hs. destruct (removal_scan_spec _ _ _ _ _ Hs) as (S1 & S2 & _).
  destruct Hwf as (Hnd0 & _). split; apply Forall_forall.
  - intros [[id o] e] Hin. destruct (S1 _ _ _ Hin) as (k & cs & rows & Hp & Hk & Ho).
    apply has_other_sessions_true in Ho. destruct Ho as (k' & i' & Hin' & Hne & _ & Hh).
    destruct (inv_holder_origin _ _ _ _ HI Hin' Hh) as (i0 & Hi0 & Hh0).
    exists k, cs, rows. repeat split; auto.
    + eapply inv_entry_origin; eauto.
    + exists k', i0. auto.
  - intros k Hin. destruct (S2 _ Hin) as (i & Hp & Hh & Hne & Hno).
    assert (In (k, i) p0) as Hi0 by (eapply inv_entry_origin; eauto).
    split; [eauto|].
    intros rows other (cs & id & o & e & Hd & Hk & -> & _ & k' & i' & Hne' & Hi' & Hh' & Hn').
    rewrite (NoDup_keys_unique _ _ _ _ Hnd0 Hi0 Hd) in Hno.
    specialize (Hno _ _ _ _ _ eq_refl).
    assert (has_other_sessions (other_course_key o e key) k exc p = true) as Ht;
      [|congruence].
    apply has_other_sessions_true. exists k', i'. repeat split; auto.
    + now apply (inv_kept _ _ _ _ HI).
    + destruct exc as [ex|]; simpl; [|exact I]. intros ->.
      destruct He as (ie & Hie & Hhe).
      rewrite (NoDup_keys_unique _ _ _ _ Hnd0 Hi' Hie) in Hn'. congruence.
Qed.

Lemma convert_all_spec (n : nat) (convert : dual_ref -> window -> option window)
    (refs : list dual_ref) (w : window) :
  convert_ok COURSES key p0 n convert ->
  Inv (placed w) -> Forall (ref_ok key p0) refs -> (count_dual (placed w) <= n)%nat ->
  exists w', convert_all convert refs w = Some w'
             /\ Inv (placed w')
             /\ keeps key (placed w) (placed w')
             /\ Forall (fun r => gone r (placed w')) refs.
Proof.
  intros Hc HI Hr. revert w HI. induction Hr as [|r rest Hr Hrest IH]; intros w HI Hn.
  - exists w. simpl. refine (conj eq_refl (conj HI (conj (keeps_refl _) _))). constructor.
  - destruct (Hc w r HI Hr Hn) as (w1 & E1 & HI1 & Hk1 & Hg1).
    assert (count_dual (placed w1) <= n)%nat as Hn1.
    { pose proof (count_dual_keeps _ _ (inv_nodup _ _ _ _ HI1) Hk1). lia. }
    destruct (IH w1 HI1 Hn1) as (w2 & E2 & HI2 & Hk2 & Hg2).
    exists w2. simpl. rewrite E1.
    refine (conj E2 (conj HI2 (conj _ _))).
    + eapply keeps_trans; eassumption.
    + constructor; [|assumption]. eapply gone_keeps; eassumption.
Qed.

Lemma remove_except_spec (n : nat) (convert : dual_ref -> window -> option window)
    (e : cell) (w : window) :
  convert_ok COURSES key p0 n convert ->
  Inv (placed w) -> exc_ok key p0 (Some e) -> (count_dual (placed w) <= n)%nat ->
  exists w', remove_course_sessions_except_cell_with convert key e w = Some w'
             /\ Inv (placed w')
             /\ keeps key (placed w) (placed w').
Proof.
  intros Hc HI He Hn. unfold remove_course_sessions_except_cell_with.
  destruct (removal_scan key (Some e) (placed w) (placed w)) as [tc tr] eqn:Es.
  destruct (scan_ok _ _ _ _ HI He Es) as [Htc Htr].
  destruct (convert_all_spec n convert tc w Hc HI Htc Hn) as (w1 & -> & HI1 & Hk1 & _).
  destruct (remove_all_spec tr w1 HI1 Htr) as (HI2 & Hk2 & _).
  eexists. refine (conj eq_refl (conj HI2 _)). eapply keeps_trans; eassumption.
Qed.

Lemma remove_course_from_dual_widget_S (fuel : nat) (id : nat) (o e : course_data)
    (w : window) :
  remove_course_from_dual_widget COURSES AnimatedCourseWidget (S fuel) key (id, o, e) w
  = match find_dual_widget id (placed w) with
    | None => Some w
    | Some (pos, span) =>
        let other := other_course_key o e key in
        let w2 := set_placed (dict_del pos (placed w)) (removeCellWidget pos w) in
        if course_truthy (COURSES_get_or_empty COURSES other) then
          let cw := CourseWidget (next_id w2) (fst (AnimatedCourseWidget other))
                      (snd (AnimatedCourseWidget other)) in
          let w4 := setCellWidget pos cw (snd (fresh_id w2)) in
          remove_course_sessions_except_cell_with
            (remove_course_from_dual_widget COURSES AnimatedCourseWidget fuel key)
            key pos
            (set_placed (dict_set pos (SingleInfo other span (Some cw)) (placed w4)) w4)
        else Some w2
    end.
Proof.
  cbn [remove_course_from_dual_widget].
  destruct (find_dual_widget id (placed w)) as [[pos span]|]; [|reflexivity].
  unfold other_course_key.
  destruct (course_truthy _); reflexivity.
Qed.

(** [remove_course_from_dual_widget] with [S n] units of fuel converts on
    stores of at most [n] dual entries. *)
Lemma remove_course_from_dual_widget_ok (n : nat) :
  convert_ok COURSES key p0 n
    (remove_course_from_dual_widget COURSES AnimatedCourseWidget (S n) key).
Proof.
  induction n as [|n IH]; intros w [[id o] e] HI Hr Hn;
    rewrite remove_course_from_dual_widget_S.
  - destruct (find_dual_widget id (placed w)) as [[pos span]|] eqn:Ef.
    + exfalso. destruct (find_dual_widget_Some _ _ _ _ Ef) as (cs & o' & e' & Hin).
      pose proof (count_dual_del pos _ _ (inv_nodup _ _ _ _ HI) Hin eq_refl). lia.
    + exists w. refine (conj eq_refl (conj HI (conj (keeps_refl _) Ef))).
  - destruct (find_dual_widget id (placed w)) as [[pos span]|] eqn:Ef.
    2: { exists w. refine (conj eq_refl (conj HI (conj (keeps_refl _) Ef))). }
    destruct (convert_step _ _ _ _ _ _ HI Hr Ef) as (Hlt & Hk2 & Hg2 & Hpos & Hfalse & Hset).
    cbv zeta.
    destruct (course_truthy (COURSES_get_or_empty COURSES (other_course_key o e key)))
      eqn:Et.
    + match goal with
      | |- exists w', remove_course_sessions_except_cell_with _ _ _ ?x = _ /\ _ =>
          match x with
          | set_placed (dict_set _ (SingleInfo _ _ (Some ?c)) _) _ =>
              destruct (Hset (Some c)) as (HI5 & Hk5 & Hg5 & Hle);
              assert (placed x = dict_set pos
                        (SingleInfo (other_course_key o e key) span (Some c))
                        (dict_del pos (placed w))) as Ep5
                by (cbn [set_placed placed]; rewrite placed_setCellWidget; reflexivity);
              set (w5 := x) in *
          end
      end.
      destruct (remove_except_spec n _ pos w5 IH) as (w' & E' & HI' & Hk').
      * rewrite Ep5. exact HI5.
      * exact Hpos.
      * rewrite Ep5. lia.
      * exists w'. refine (conj E' (conj HI' (conj _ _))).
        -- rewrite Ep5 in Hk'. eapply keeps_trans; [|exact Hk'].
           eapply keeps_trans; eassumption.
        -- rewrite Ep5 in Hk'. eapply gone_keeps; eassumption.
    + eexists. refine (conj eq_refl (conj _ (conj _ _))); cbn [placed set_placed].
      * now apply Hfalse.
      * exact Hk2.
      * exact Hg2.
Qed.

Lemma remove_course_from_schedule_fuel_enough (w : window) :
  placed w = p0 ->
  exists w',
    remove_course_from_schedule_fuel COURSES AnimatedCourseWidget
      (S (count_dual (placed w))) key w = Some w'
    /\ Inv (placed w')
    /\ (forall k i, In (k, i) (placed w') -> info_holds key i = false).
Proof.
  intros Ep. unfold remove_course_from_schedule_fuel.
  pose proof inv_start as HI. rewrite <- Ep in HI.
  destruct (removal_scan key None (placed w) (placed w)) as [tc tr] eqn:Es.
  destruct (scan_ok None _ _ _ HI I Es) as [Htc Htr].
  destruct (removal_scan_spec _ _ _ _ _ Es) as (_ & _ & S3).
  destruct (convert_all_spec _ _ tc w
              (remove_course_from_dual_widget_ok (count_dual (placed w))) HI Htc
              (le_n _)) as (w1 & -> & HI1 & Hk1 & Hg1).
  destruct (remove_all_spec tr w1 HI1 Htr) as (HI2 & Hk2 & Habs).
  eexists. refine (conj eq_refl (conj HI2 _)).
  intros k i Hin. destruct (info_holds key i) eqn:Eh; [exfalso | reflexivity].
  assert (In (k, i) (placed w1)) as Hin1 by (apply Hk2; auto).
  assert (In (k, i) (placed w)) as Hin0 by (apply Hk1; auto).
  destruct (S3 _ _ Hin0 Eh I) as [Hr|(cs & rows & id & o & e & -> & Hc)].
  - apply (Habs _ Hr). eapply In_keys; eassumption.
  - rewrite Forall_forall in Hg1. specialize (Hg1 _ Hc). unfold gone in Hg1. simpl in Hg1.
    eapply (proj1 (find_dual_widget_None id (placed w1))); eassumption.
Qed.

End RemovalProperties.

(** The fuel [remove_course_from_schedule] takes is enough. *)
Lemma remove_course_from_schedule_total (COURSES : catalog)
    (AnimatedCourseWidget : string -> option string * option string)
    (key : string) (w : window) :
  wf_placed (placed w) ->
  remove_course_from_schedule_fuel COURSES AnimatedCourseWidget
    (S (count_dual (placed w))) key w
  = Some (remove_course_from_schedule COURSES AnimatedCourseWidget key w).
Proof.
  intros Hwf. unfold remove_course_from_schedule.
  destruct (remove_course_from_schedule_fuel_enough COURSES AnimatedCourseWidget key
              (placed w) Hwf w eq_refl) as (w' & -> & _).
  reflexivity.
Qed.

(** C2, as the code has it: removing a course key leaves no cell holding it
    and touches no cell that did not hold it. A Single cell of the key ends
    Empty. A Dual cell of the key ends either Single holding the other
    course or Empty: it is demoted when the other course (a catalog course)
    also holds a cell without the key, and it is emptied in one step when no
    other cell holds the other course. *)
Theorem removal_demotes_or_empties (COURSES : catalog)
    (AnimatedCourseWidget : string -> option string * option string)
    (key : string) (w : window) :
  wf_placed (placed w) ->
  let p0 := placed w in
  let p' := placed (remove_course_from_schedule COURSES AnimatedCourseWidget key w) in
  (forall k i, In (k, i) p' -> info_holds key i = false)
  /\ (forall k i, In (k, i) p0 -> info_holds key i = false -> In (k, i) p')
  /\ (forall k i, In (k, i) p' -> In (k, i) p0 \/ demoted key p0 k i)
  /\ (forall k rows wd, In (k, SingleInfo key rows wd) p0 -> ~ In k (map fst p'))
  /\ (forall k rows other, must_demote COURSES key p0 k rows other ->
        exists wd, In (k, SingleInfo other rows wd) p')
  /\ (forall k cs rows id odd_data even_data,
        In (k, DualInfo cs rows id odd_data even_data) p0 -> Str.mem key cs = true ->
        ~ held_elsewhere p0 k (other_course_key odd_data even_data key) ->
        ~ In k (map fst p')).
Proof.
  intros Hwf p0 p'.
  destruct (remove_course_from_schedule_fuel_enough COURSES AnimatedCourseWidget key
              p0 Hwf w eq_refl) as (w' & E & HI & Hclean).
  assert (p' = placed w') as ->.
  { unfold p'. pose proof (remove_course_from_schedule_total COURSES AnimatedCourseWidget key w Hwf) as T.
    rewrite E in T. injection T as <-. reflexivity. }
  pose proof Hwf as (Hnd0 & _).
  assert (Hat : forall k i0, In (k, i0) p0 -> info_holds key i0 = true ->
                  In k (map fst (placed w')) ->
                  exists i, In (k, i) (placed w') /\ demoted key p0 k i).
  { intros k i0 Hi0 Hh Hin. apply in_map_iff in Hin.
    destruct Hin as ([k1 i] & Ek & Hin). simpl in Ek. subst k1.
    destruct (inv_origin _ _ _ _ HI _ _ Hin) as [Hin0|Hd]; [|eauto].
    rewrite (NoDup_keys_unique _ _ _ _ Hnd0 Hin0 Hi0) in Hin.
    rewrite (Hclean _ _ Hin) in Hh. discriminate. }
  refine (conj Hclean (conj (inv_kept _ _ _ _ HI) (conj (inv_origin _ _ _ _ HI)
            (conj _ (conj _ _))))).
  - intros k rows wd Hi0 Hin.
    destruct (Hat _ _ Hi0 (String.eqb_refl key) Hin)
      as (i & _ & cs & rows' & id & o & e & wd' & Hd & _).
    pose proof (NoDup_keys_unique _ _ _ _ Hnd0 Hi0 Hd). discriminate.
  - intros k rows other Hm. pose proof (inv_demote _ _ _ _ HI _ _ _ Hm) as Hin.
    destruct Hm as (cs & id & o & e & Hi0 & Hk & -> & _).
    destruct (Hat _ _ Hi0 Hk Hin) as (i & Hi & cs' & rows' & id' & o' & e' & wd & Hd & _ & -> & _).
    pose proof (NoDup_keys_unique _ _ _ _ Hnd0 Hi0 Hd) as Eq. injection Eq as -> -> -> -> ->.
    eauto.
  - intros k cs rows id o e Hi0 Hk Hno Hin.
    destruct (Hat _ _ Hi0 Hk Hin) as (i & Hi & cs' & rows' & id' & o' & e' & wd & Hd & _ & _ & Hheld).
    pose proof (NoDup_keys_unique _ _ _ _ Hnd0 Hi0 Hd) as Eq. injection Eq as -> -> -> -> ->.
    contradiction.
Qed.

(** *** Removal on the small grid *)

Ltac entry_cases H :=
  repeat match type of H with
         | _ \/ _ => destruct H as [H|H]
         | False => destruct H
         end.

Lemma window_P1_Q1_wf : wf_placed (placed window_P1_Q1).
Proof.
  split; [|split].
  - simpl. repeat constructor; simpl; intuition congruence.
  - intros k cs rows id o e H. simpl in H. entry_cases H; try discriminate.
    injection H as <- <- <- <- <- <-. split; [reflexivity | discriminate].
  - intros k1 k2 cs1 cs2 r1 r2 id o1 o2 e1 e2 H1 H2. simpl in H1, H2.
    entry_cases H1; try discriminate. entry_cases H2; try discriminate.
    congruence.
Qed.

(** P1 leaves: its own cell is emptied, the cell it shared with Q1 becomes a
    single cell of Q1, the other cell of Q1 stays. *)
Example removal_demotes_shared_cell :
  map (fun e => (fst e, info_course (snd e), info_courses (snd e)))
    (placed window_P1_Q1)
  = [((6, 1), Some "P1", []); ((10, 0), None, ["P1"; "Q1"]); ((6, 2), Some "Q1", [])]
  /\ map (fun e => (fst e, info_course (snd e), info_courses (snd e)))
       (placed (remove_course_from_schedule demo_grid_catalog demo_widget "P1" window_P1_Q1))
     = [((6, 2), Some "Q1", []); ((10, 0), Some "Q1", [])].
Proof. split; vm_compute; reflexivity. Qed.

(** C2, as stated, fails: O1 and V1 share their only cell; removing O1 takes
    the whole cell away, V1 with it. *)
Lemma removal_empties_lone_dual_cell :
  map (fun e => (fst e, info_courses (snd e))) (placed window_O1_V1)
  = [((2, 0), ["O1"; "V1"])]
  /\ placed (remove_course_from_schedule demo_grid_catalog demo_widget "O1" window_O1_V1)
     = []
  /\ table (remove_course_from_schedule demo_grid_catalog demo_widget "O1" window_O1_V1)
     = [].
Proof. repeat split; vm_compute; reflexivity. Qed.

Lemma removal_demotes_or_empties_witness :
  exists wd,
    In ((10, 0), SingleInfo "Q1" 4 wd)
      (placed (remove_course_from_schedule demo_grid_catalog demo_widget "P1" window_P1_Q1)).
Proof.
  refine (proj1 (proj2 (proj2 (proj2 (proj2
            (removal_demotes_or_empties demo_grid_catalog demo_widget "P1" window_P1_Q1
               window_P1_Q1_wf))))) (10, 0) 4 "Q1" _).
  match eval vm_compute in (dict_get (10, 0) (placed window_P1_Q1)) with
  | Some (DualInfo ?cs _ ?id ?o ?e) => exists cs, id, o, e
  end.
  split; [right; left; reflexivity|].
  split; [reflexivity|]. split; [reflexivity|]. split; [reflexivity|].
  match eval vm_compute in (dict_get (6, 2) (placed window_P1_Q1)) with
  | Some ?i => exists (6, 2), i
  end.
  split; [discriminate|]. split; [right; right; left; reflexivity|].
  split; reflexivity.
Defined.

(** * More of the engine *)

(** * The priority scheduler *)

Section GreedyProperties.

Variable COURSES : catalog.

Lemma COURSES_mem_get (k : string) :
  COURSES_mem COURSES k = true <-> exists c, COURSES_get COURSES k = Some c.
Proof.
  unfold COURSES_mem. destruct (COURSES_get COURSES k) as [c|]; split; eauto.
  - discriminate.
  - intros [c H]. discriminate.
Qed.

Lemma subsequence_refl {A : Type} (l : list A) : subsequence l l.
Proof. induction l; constructor; assumption. Qed.

Lemma subsequence_nil_l {A : Type} (l : list A) : subsequence [] l.
Proof. induction l; constructor; assumption. Qed.

Lemma subsequence_In {A : Type} (l1 l2 : list A) (x : A) :
  subsequence l1 l2 -> In x l1 -> In x l2.
Proof.
  induction 1; simpl; intros Hin; auto.
  destruct Hin as [->|Hin]; auto.
Qed.

Lemma greedy_loop_app (a b selected : list string) :
  greedy_loop COURSES (a ++ b) selected
  = (s <- greedy_loop COURSES a selected ;; greedy_loop COURSES b s).
Proof.
  revert selected. induction a as [|k r IH]; simpl; intros selected; [reflexivity|].
  destruct (COURSES_get COURSES k) as [c|]; [|apply IH].
  destruct (has_conflict_with COURSES (schedule_get c) selected) as [[|]|e];
    simpl; auto.
Qed.

(** What the greedy pass adds to [selected] is a subsequence of the keys. *)
Lemma greedy_loop_picks (keys selected out : list string) :
  greedy_loop COURSES keys selected = Ok out ->
  exists picked, out = selected ++ picked /\ subsequence picked keys
                 /\ all_known COURSES picked.
Proof.
  revert selected. induction keys as [|k r IH]; simpl; intros selected H.
  - injection H as <-. exists []. rewrite app_nil_r. repeat split; constructor.
  - destruct (COURSES_get COURSES k) as [c|] eqn:Hk.
    + inv_bind H. destruct x.
      * destruct (IH _ H) as (picked & -> & Hs & Hkn).
        exists picked. repeat split; [now constructor | assumption].
      * destruct (IH _ H) as (picked & -> & Hs & Hkn).
        exists (k :: picked). rewrite <- app_assoc. repeat split.
        -- now constructor.
        -- constructor; [|assumption]. apply COURSES_mem_get. eauto.
    + destruct (IH _ H) as (picked & -> & Hs & Hkn).
      exists picked. repeat split; [now constructor | assumption].
Qed.

Lemma has_conflict_with_false (cur : list session) (selected : list string) :
  has_conflict_with COURSES cur selected = Ok false ->
  forall k, In k selected ->
    exists c, COURSES_get COURSES k = Some c
              /\ schedules_conflict cur (schedule_get c) = Ok false.
Proof.
  induction selected as [|sel r IH]; simpl; intros H k Hin; [contradiction|].
  inv_bind H. inv_bind H. destruct x0; [discriminate|].
  destruct Hin as [<-|Hin]; [|auto].
  unfold COURSES_item in Hx. destruct (COURSES_get COURSES sel) as [c|]; [|discriminate].
  injection Hx as <-. eauto.
Qed.

Lemma has_conflict_with_true (cur : list session) (selected : list string) :
  has_conflict_with COURSES cur selected = Ok true ->
  exists k c, In k selected /\ COURSES_get COURSES k = Some c
              /\ schedules_conflict cur (schedule_get c) = Ok true.
Proof.
  induction selected as [|sel r IH]; simpl; intros H; [discriminate|].
  inv_bind H. inv_bind H. destruct x0.
  - unfold COURSES_item in Hx. destruct (COURSES_get COURSES sel) as [c|] eqn:E; [|discriminate].
    injection Hx as <-. exists sel, c. auto.
  - destruct (IH H) as (k & c & Hin & Hk & Hc). exists k, c. auto.
Qed.

Lemma cleared_snoc (selected : list string) (k : string) (c : course) :
  cleared COURSES selected -> COURSES_get COURSES k = Some c ->
  has_conflict_with COURSES (schedule_get c) selected = Ok false ->
  cleared COURSES (selected ++ [k]).
Proof.
  intros Hcl Hk Hc i j ki kj Hlt Hi Hj.
  assert (Hlen : (j < List.length (selected ++ [k]))%nat)
    by (apply nth_error_Some; congruence).
  rewrite length_app in Hlen. simpl in Hlen.
  assert (Hi' : nth_error selected i = Some ki).
  { rewrite nth_error_app1 in Hi; [assumption | lia]. }
  destruct (Nat.eq_dec j (List.length selected)) as [->|Hne].
  - rewrite nth_error_app2 in Hj by lia. rewrite Nat.sub_diag in Hj.
    injection Hj as <-.
    destruct (has_conflict_with_false _ _ Hc ki (nth_error_In _ _ Hi')) as (ci & Hci & Hf).
    exists c, ci. auto.
  - rewrite nth_error_app1 in Hj by lia. exact (Hcl i j ki kj Hlt Hi' Hj).
Qed.

Lemma greedy_loop_cleared (keys selected out : list string) :
  greedy_loop COURSES keys selected = Ok out -> cleared COURSES selected -> cleared COURSES out.
Proof.
  revert selected. induction keys as [|k r IH]; simpl; intros selected H Hcl.
  - injection H as <-. assumption.
  - destruct (COURSES_get COURSES k) as [c|] eqn:Hk; [|eauto].
    inv_bind H. destruct x; [eauto|].
    eapply IH; [eassumption|]. eapply cleared_snoc; eauto.
Qed.

Lemma checked_false_sym (ki kj : string) :
  checked COURSES ki kj false -> checked COURSES kj ki false.
Proof.
  intros (ci & cj & Hi & Hj & H). exists cj, ci. repeat split; auto.
  now apply schedules_conflict_false_sym.
Qed.

(** The schedule of the greedy pass: its courses are courses of the catalog,
    they stand in the priority order they were given in, and the conflict
    check clears any two of them. *)
Theorem greedy_schedule_sound (order sel : list string) :
  create_greedy_schedule COURSES order = Ok sel ->
  subsequence sel order
  /\ all_known COURSES sel
  /\ (forall i j ki kj, i <> j ->
        nth_error sel i = Some ki -> nth_error sel j = Some kj ->
        checked COURSES ki kj false).
Proof.
  unfold create_greedy_schedule. intros H.
  destruct (greedy_loop_picks _ _ _ H) as (picked & -> & Hs & Hk). simpl.
  refine (conj Hs (conj Hk _)).
  assert (Hcl : cleared COURSES picked).
  { apply (greedy_loop_cleared _ _ _ H). intros i j ki kj _ Hi. destruct i; discriminate. }
  intros i j ki kj Hij Hi Hj.
  destruct (Nat.lt_total i j) as [Hlt|[->|Hgt]]; [|contradiction|].
  - apply checked_false_sym. exact (Hcl i j ki kj Hlt Hi Hj).
  - exact (Hcl j i kj ki Hgt Hj Hi).
Qed.

(** The greedy pass leaves a catalog course out only for a conflict with a
    course of higher priority that it selected. *)
Theorem greedy_schedule_maximal (pre post sel : list string) (k : string) :
  create_greedy_schedule COURSES (pre ++ k :: post) = Ok sel ->
  COURSES_mem COURSES k = true -> ~ In k sel ->
  exists k', In k' pre /\ In k' sel /\ checked COURSES k k' true.
Proof.
  unfold create_greedy_schedule. rewrite greedy_loop_app. intros H Hk Hn.
  inv_bind H. rename x into s, Hx into Hpre.
  destruct (greedy_loop_picks _ _ _ Hpre) as (picked & E & Hs & _). simpl in E. subst s.
  apply COURSES_mem_get in Hk. destruct Hk as [c Hc].
  simpl in H. rewrite Hc in H. inv_bind H. destruct x.
  - destruct (has_conflict_with_true _ _ Hx) as (k' & c' & Hin & Hk' & Hconf).
    exists k'. repeat split.
    + eapply subsequence_In; eassumption.
    + eapply greedy_loop_keeps; eassumption.
    + exists c, c'. auto.
  - exfalso. apply Hn. eapply greedy_loop_keeps; [eassumption|].
    apply in_or_app. right. now left.
Qed.

End GreedyProperties.

Lemma greedy_schedule_sound_witness :
  subsequence ["B1"; "A2"] ["B1"; "A1"; "A2"]
  /\ all_known demo_catalog ["B1"; "A2"]
  /\ (forall i j ki kj, i <> j ->
        nth_error ["B1"; "A2"] i = Some ki -> nth_error ["B1"; "A2"] j = Some kj ->
        checked demo_catalog ki kj false).
Proof.
  apply (greedy_schedule_sound demo_catalog ["B1"; "A1"; "A2"] ["B1"; "A2"]).
  vm_compute. reflexivity.
Defined.

Lemma greedy_schedule_maximal_witness :
  exists k', In k' ["B1"] /\ In k' ["B1"; "A2"] /\ checked demo_catalog "A1" k' true.
Proof.
  apply (greedy_schedule_maximal demo_catalog ["B1"] ["A2"] ["B1"; "A2"] "A1").
  - vm_compute. reflexivity.
  - reflexivity.
  - simpl. intros [H|[H|[]]]; discriminate.
Defined.

(** ** The skip-k alternatives *)

Section AlternativeIsGreedy.

Variable COURSES : catalog.

Lemma mem_false_not_In (x : string) (l : list string) :
  Str.mem x l = false <-> ~ In x l.
Proof.
  rewrite <- mem_In. destruct (Str.mem x l); split; congruence.
Qed.

(** The second loop passes over the keys the first loop has dealt with. *)
Lemma alternative_second_loop_done (done keys sel skipped : list string) :
  (forall k, In k done -> In k sel \/ In k skipped) ->
  alternative_second_loop COURSES (done ++ keys) sel skipped
  = alternative_second_loop COURSES keys sel skipped.
Proof.
  induction done as [|k r IH]; simpl; intros H; [reflexivity|].
  destruct (H k (or_introl eq_refl)) as [Hin|Hin]; apply mem_In in Hin; rewrite Hin.
  - simpl. apply IH. auto.
  - rewrite andb_false_r. apply IH. auto.
Qed.

(** On keys it has not met, the second loop is the greedy pass. *)
Lemma alternative_second_loop_greedy (keys sel skipped : list string) :
  all_known COURSES keys -> NoDup keys ->
  (forall k, In k keys -> ~ In k sel /\ ~ In k skipped) ->
  alternative_second_loop COURSES keys sel skipped = greedy_loop COURSES keys sel.
Proof.
  intros Hkn. revert sel. induction Hkn as [|k r Hk Hr IH]; intros sel Hnd Hnew; [reflexivity|].
  simpl. inversion Hnd as [|? ? Hkr Hnd']. subst.
  destruct (Hnew k (or_introl eq_refl)) as [H1 H2].
  apply mem_false_not_In in H1, H2. rewrite H1, H2. simpl.
  apply COURSES_mem_get in Hk. destruct Hk as [c Hc].
  unfold COURSES_item. rewrite Hc. simpl.
  destruct (has_conflict_with COURSES (schedule_get c) sel) as [[|]|e]; simpl.
  - apply IH; [assumption|]. intros k' Hk'. apply Hnew. now right.
  - apply IH; [assumption|]. intros k' Hk'.
    destruct (Hnew k' (or_intror Hk')) as [H3 H4]. split; [|assumption].
    rewrite in_app_iff. simpl. intros [H|[<-|[]]]; auto.
  - reflexivity.
Qed.

(** The two loops of [create_alternative_schedule], started in the middle of
    the order: [done] are the keys the first loop has dealt with. *)
Lemma alternative_loops_greedy (skip_count : Z) (keys done sel skipped : list string) :
  all_known COURSES keys -> NoDup (done ++ keys) ->
  (forall k, In k done -> In k sel \/ In k skipped) ->
  (forall k, In k sel \/ In k skipped -> In k done) ->
  (st <- alternative_first_loop COURSES keys skip_count sel skipped ;;
   alternative_second_loop COURSES (done ++ keys) (fst st) (snd st))
  = greedy_loop COURSES keys sel.
Proof.
  intros Hkn. revert done sel skipped.
  induction Hkn as [|k r Hk Hr IH]; intros done sel skipped Hnd Hd1 Hd2.
  - simpl. rewrite app_nil_r.
    rewrite <- (app_nil_r done) at 1. now rewrite alternative_second_loop_done.
  - assert (Hfresh : forall k', In k' (k :: r) -> ~ In k' sel /\ ~ In k' skipped).
    { intros k' Hk'. apply NoDup_app_remove_l in Hnd as Hnd'.
      assert (~ In k' done) as Hn.
      { intros Hin. revert Hnd. clear - Hin Hk'. induction done as [|d ds IHd]; [contradiction|].
        simpl. intros Hnd. inversion Hnd as [|? ? Hx Hy]. subst.
        destruct Hin as [->|Hin]; [|auto].
        apply Hx. apply in_or_app. now right. }
      split; intros Hin; apply Hn; apply Hd2; auto. }
    cbn [alternative_first_loop].
    destruct (Z.of_nat (List.length skipped) >=? skip_count).
    + cbn [Py.bind fst snd]. rewrite alternative_second_loop_done by assumption.
      apply alternative_second_loop_greedy.
      * now constructor.
      * now apply NoDup_app_remove_l in Hnd.
      * assumption.
    + cbn [greedy_loop]. apply COURSES_mem_get in Hk. destruct Hk as [c Hc].
      unfold COURSES_item. rewrite Hc. cbn [of_option Py.bind].
      destruct (has_conflict_with COURSES (schedule_get c) sel) as [[|]|e];
        cbn [Py.bind]; [| |reflexivity].
      * replace (done ++ k :: r) with ((done ++ [k]) ++ r) by now rewrite <- app_assoc.
        apply IH.
        -- now rewrite <- app_assoc.
        -- intros k' Hk'. apply in_app_or in Hk'. destruct Hk' as [Hk'|[<-|[]]].
           ++ destruct (Hd1 _ Hk'); auto. right. apply in_or_app. now left.
           ++ right. apply in_or_app. right. now left.
        -- intros k' [Hk'|Hk']; apply in_or_app.
           ++ left. auto.
           ++ apply in_app_or in Hk'. destruct Hk' as [Hk'|[<-|[]]]; [left; auto | right; now left].
      * replace (done ++ k :: r) with ((done ++ [k]) ++ r) by now rewrite <- app_assoc.
        apply IH.
        -- now rewrite <- app_assoc.
        -- intros k' Hk'. apply in_app_or in Hk'. destruct Hk' as [Hk'|[<-|[]]].
           ++ destruct (Hd1 _ Hk'); auto. left. apply in_or_app. now left.
           ++ left. apply in_or_app. right. now left.
        -- intros k' [Hk'|Hk']; apply in_or_app.
           ++ apply in_app_or in Hk'. destruct Hk' as [Hk'|[<-|[]]]; [left; auto | right; now left].
           ++ left. auto.
Qed.

Lemma create_alternative_schedule_greedy (order : list string) (skip_count : Z) :
  NoDup order -> all_known COURSES order ->
  create_alternative_schedule COURSES order skip_count
  = create_greedy_schedule COURSES order.
Proof.
  intros Hnd Hkn. unfold create_alternative_schedule, create_greedy_schedule.
  apply (alternative_loops_greedy skip_count order [] [] []); auto.
  intros k [[]|[]].
Qed.

(** On distinct keys of the catalog the skip-k alternative is the greedy
    schedule, whatever [skip_count]: a course the first loop skips is a
    course the greedy pass drops, and the second loop resumes the greedy pass
    where the first loop stopped. Errors included. *)
Theorem alternative_is_greedy (order : list string) (skip_count : Z) :
  NoDup order -> all_known COURSES order ->
  create_alternative_schedule COURSES order skip_count
  = create_greedy_schedule COURSES order.
Proof. exact (create_alternative_schedule_greedy order skip_count). Qed.

Lemma alternatives_loop_nothing_new (order greedy : list string) (skips : list Z)
    (valid_schedules : list schedule_result) :
  NoDup order -> all_known COURSES order ->
  create_greedy_schedule COURSES order = Ok greedy ->
  (greedy <> [] -> In greedy (map sr_courses valid_schedules)) ->
  alternatives_loop COURSES order skips valid_schedules = Ok valid_schedules.
Proof.
  intros Hnd Hkn Hg Hin. induction skips as [|n r IH]; simpl; [reflexivity|].
  assert (E : create_alternative_schedule COURSES order n = Ok greedy).
  { rewrite <- Hg. now apply create_alternative_schedule_greedy. }
  rewrite E. simpl. destruct greedy as [|g gs]; [exact IH|].
  assert (existsb (list_eqb (g :: gs)) (map sr_courses valid_schedules) = true) as ->.
  { apply existsb_exists. exists (g :: gs). split; [apply Hin; discriminate|].
    unfold list_eqb. destruct (list_eq_dec string_dec (g :: gs) (g :: gs)); congruence. }
  exact IH.
Qed.

(** *** The results are computed whenever the catalog can be read *)

Lemma collect_days_total (keys : list string) (ds : list string) :
  catalog_has_schedules COURSES -> all_known COURSES keys ->
  exists ds', collect_days COURSES keys ds = Ok ds'.
Proof.
  intros Hs Hk. revert ds. induction Hk as [|k r Hk Hr IH]; intros ds; simpl; [eauto|].
  apply COURSES_mem_get in Hk. destruct Hk as [c Hc].
  unfold COURSES_item, schedule_item. rewrite Hc. simpl.
  destruct (schedule c) as [items|] eqn:E; [|exfalso; exact (Hs _ _ Hc E)].
  simpl. apply IH.
Qed.

Lemma add_intervals_total (items : list session) (daily : daily_map) :
  Forall times_parse items -> exists daily', add_intervals items daily = Ok daily'.
Proof.
  intros H. revert daily. induction H as [|item r (m1 & m2 & H1 & H2) Hr IH]; intros daily;
    simpl; [eauto|].
  rewrite H1, H2. simpl. apply IH.
Qed.

Lemma collect_daily_total (keys : list string) (daily : daily_map) :
  catalog_times_parse COURSES -> catalog_has_schedules COURSES -> all_known COURSES keys ->
  exists daily', collect_daily COURSES keys daily = Ok daily'.
Proof.
  intros Ht Hs Hk. revert daily. induction Hk as [|k r Hk Hr IH]; intros daily; simpl; [eauto|].
  apply COURSES_mem_get in Hk. destruct Hk as [c Hc].
  unfold COURSES_item, schedule_item. rewrite Hc. simpl.
  destruct (schedule c) as [items|] eqn:E; [|exfalso; exact (Hs _ _ Hc E)].
  simpl. pose proof (Ht _ _ Hc) as Hp. unfold schedule_get in Hp. rewrite E in Hp.
  destruct (add_intervals_total items daily Hp) as [d' ->]. simpl. apply IH.
Qed.

Lemma make_result_total (cs : list string) (m : method_label) (sc : Z) :
  catalog_times_parse COURSES -> catalog_has_schedules COURSES -> all_known COURSES cs ->
  exists d e, make_result COURSES cs m sc = Ok (mkScheduleResult cs m sc true d e).
Proof.
  intros Ht Hs Hk. unfold make_result, calculate_days_needed_for_combo,
    calculate_empty_time_for_combo.
  destruct (collect_days_total cs [] Hs Hk) as [ds ->].
  destruct (collect_daily_total cs [] Ht Hs Hk) as [daily ->].
  simpl. eauto.
Qed.

Lemma make_result_fields (cs : list string) (m : method_label) (sc : Z)
    (s : schedule_result) :
  make_result COURSES cs m sc = Ok s ->
  sr_courses s = cs /\ sr_method s = m /\ sr_score s = sc.
Proof.
  unfold make_result. intros H. inv_bind H. inv_bind H. injection H as <-. auto.
Qed.

Lemma generate_priority_based_schedules_greedy (order : list string) :
  NoDup order -> all_known COURSES order ->
  generate_priority_based_schedules COURSES order
  = (greedy <- create_greedy_schedule COURSES order ;;
     match greedy with
     | [] => Ok []
     | _ => s <- make_result COURSES greedy PriorityGreedy
                   (Z.of_nat (List.length greedy) * 100) ;;
            Ok [s]
     end).
Proof.
  intros Hnd Hkn. unfold generate_priority_based_schedules.
  destruct (create_greedy_schedule COURSES order) as [greedy|e] eqn:Hg; [|reflexivity].
  cbn [Py.bind]. destruct greedy as [|g gs].
  - cbn [Py.bind].
    rewrite (alternatives_loop_nothing_new order [] _ [] Hnd Hkn Hg) by congruence.
    reflexivity.
  - destruct (make_result COURSES (g :: gs) PriorityGreedy
                (Z.of_nat (List.length (g :: gs)) * 100)) as [s|e] eqn:Hs; [|reflexivity].
    cbn [Py.bind].
    rewrite (alternatives_loop_nothing_new order (g :: gs) _ [s] Hnd Hkn Hg).
    + reflexivity.
    + intros _. left. now destruct (make_result_fields _ _ _ _ Hs) as [-> _].
Qed.

(** On distinct keys of the catalog [generate_priority_based_schedules]
    offers at most one schedule, the greedy one, scored 100 for each of its
    courses: no skip-k alternative ever differs from it. When the catalog
    can be read and the order is not empty, it returns exactly that one. *)
Theorem priority_schedules_only_greedy (order : list string) :
  NoDup order -> all_known COURSES order ->
  (forall l, generate_priority_based_schedules COURSES order = Ok l ->
     (List.length l <= 1)%nat
     /\ forall s, In s l ->
          sr_method s = PriorityGreedy
          /\ create_greedy_schedule COURSES order = Ok (sr_courses s)
          /\ sr_score s = Z.of_nat (List.length (sr_courses s)) * 100)
  /\ (catalog_times_parse COURSES -> catalog_has_schedules COURSES -> order <> [] ->
      exists s, generate_priority_based_schedules COURSES order = Ok [s]).
Proof.
  intros Hnd Hkn. rewrite (generate_priority_based_schedules_greedy order Hnd Hkn). split.
  - intros l H. inv_bind H. rename x into greedy, Hx into Hg.
    destruct greedy as [|g gs].
    + injection H as <-. split; [simpl; lia | intros s []].
    + inv_bind H. injection H as <-. split; [simpl; lia|].
      intros s [<-|[]]. destruct (make_result_fields _ _ _ _ Hx) as (-> & -> & ->). auto.
  - intros Ht Hs Hne.
    assert (Hkn' : Forall (fun k => exists c, COURSES_get COURSES k = Some c) []) by constructor.
    destruct (greedy_loop_total COURSES order [] Ht Hkn') as [greedy Hg].
    unfold create_greedy_schedule. rewrite Hg. cbn [Py.bind].
    destruct (greedy_loop_picks COURSES _ _ _ Hg) as (picked & E & _ & Hpk). simpl in E. subst.
    destruct picked as [|g gs].
    + exfalso. destruct order as [|k r]; [congruence|].
      inversion Hkn as [|? ? Hk _]. subst. apply COURSES_mem_get in Hk. destruct Hk as [c Hc].
      simpl in Hg. rewrite Hc in Hg. simpl in Hg.
      pose proof (greedy_loop_keeps COURSES r [k] [] k Hg (or_introl eq_refl)) as [].
    + destruct (make_result_total (g :: gs) PriorityGreedy
                  (Z.of_nat (List.length (g :: gs)) * 100) Ht Hs Hpk) as (d & e & ->).
      cbn [Py.bind]. eauto.
Qed.

End AlternativeIsGreedy.

Lemma demo_catalog_times_parse : catalog_times_parse demo_catalog.
Proof.
  intros key c H. unfold COURSES_get, demo_catalog in H. simpl in H.
  repeat match type of H with
         | (if ?b then _ else _) = _ => destruct b
         end;
    try discriminate; injection H as <-; simpl;
    repeat constructor; eexists; eexists; split; vm_compute; reflexivity.
Qed.

Lemma demo_catalog_has_schedules : catalog_has_schedules demo_catalog.
Proof.
  intros key c H. unfold COURSES_get, demo_catalog in H. simpl in H.
  repeat match type of H with
         | (if ?b then _ else _) = _ => destruct b
         end;
    try discriminate; injection H as <-; discriminate.
Qed.

Lemma demo_order_NoDup : NoDup ["A1"; "B1"; "A2"].
Proof. repeat constructor; simpl; intuition discriminate. Qed.

Lemma demo_order_known : all_known demo_catalog ["A1"; "B1"; "A2"].
Proof. repeat constructor. Qed.

Lemma alternative_is_greedy_witness :
  create_alternative_schedule demo_catalog ["A1"; "B1"; "A2"] 1
  = create_greedy_schedule demo_catalog ["A1"; "B1"; "A2"].
Proof.
  apply (alternative_is_greedy demo_catalog ["A1"; "B1"; "A2"] 1).
  - exact demo_order_NoDup.
  - exact demo_order_known.
Defined.

Lemma priority_schedules_only_greedy_witness :
  exists s, generate_priority_based_schedules demo_catalog ["A1"; "B1"; "A2"] = Ok [s].
Proof.
  apply (proj2 (priority_schedules_only_greedy demo_catalog ["A1"; "B1"; "A2"]
                  demo_order_NoDup demo_order_known)).
  - exact demo_catalog_times_parse.
  - exact demo_catalog_has_schedules.
  - discriminate.
Defined.

(** * The combination generator: which combinations it returns *)

Lemma product_In {A : Type} (groups : list (list A)) (keys : list A) :
  In keys (product groups) <-> Forall2 (fun g k => In k g) groups keys.
Proof.
  revert keys. induction groups as [|g r IH]; simpl; intros keys.
  - split.
    + intros [<-|[]]. constructor.
    + intros H. inversion H. now left.
  - rewrite in_flat_map. split.
    + intros (x & Hx & Hin). apply in_map_iff in Hin. destruct Hin as (ks & <- & Hks).
      constructor; [assumption | now apply IH].
    + intros H. inversion H as [|? k ? ks Hk Hks]. subst.
      exists k. split; [assumption|]. apply in_map. now apply IH.
Qed.

Section GeneratorProperties.

Variable COURSES : catalog.

Lemma build_groups_Some (group_keys : list string) (acc groups : list (list string)) :
  build_groups COURSES group_keys acc = Some groups ->
  groups = acc ++ map (candidates_of COURSES) group_keys.
Proof.
  revert acc. induction group_keys as [|g r IH]; simpl; intros acc H.
  - injection H as <-. now rewrite app_nil_r.
  - destruct (candidates_of COURSES g) as [|x cs] eqn:E; [discriminate|].
    rewrite (IH _ H), <- app_assoc. reflexivity.
Qed.

Lemma one_per_group_product (group_keys keys : list string) :
  In keys (product (map (candidates_of COURSES) group_keys))
  <-> one_per_group COURSES group_keys keys.
Proof.
  rewrite product_In. unfold one_per_group. revert keys.
  induction group_keys as [|g r IH]; simpl; intros keys.
  - split; intros H; inversion H; constructor.
  - split; intros H; inversion H; subst; constructor; auto; now apply IH.
Qed.

Lemma collect_combos_acc (picks : list (list string)) (acc combos : list combo) (c : combo) :
  collect_combos COURSES picks acc = Ok combos -> In c acc -> In c combos.
Proof.
  revert acc. induction picks as [|keys r IH]; simpl; intros acc H Hin.
  - injection H as <-. assumption.
  - inv_bind H. destruct x.
    + inv_bind H. apply (IH _ H). apply in_or_app. now left.
    + eauto.
Qed.

Lemma collect_combos_complete (picks : list (list string)) (acc combos : list combo)
    (keys : list string) :
  collect_combos COURSES picks acc = Ok combos ->
  In keys picks -> pick_ok COURSES keys = Ok true ->
  exists c, In c combos /\ courses c = keys.
Proof.
  revert acc. induction picks as [|ks r IH]; simpl; intros acc H Hin Hok; [contradiction|].
  inv_bind H. destruct Hin as [->|Hin].
  - rewrite Hok in Hx. injection Hx as <-. inv_bind H.
    exists x. split.
    + apply (collect_combos_acc _ _ _ _ H). apply in_or_app. right. now left.
    + eapply make_combo_courses; eassumption.
  - destruct x.
    + inv_bind H. eauto.
    + eauto.
Qed.

Lemma conflicts_with_later_clear (ki : string) (later : list string) :
  (forall kj, In kj later -> conflict_free COURSES ki kj) ->
  conflicts_with_later COURSES ki later = Ok false.
Proof.
  induction later as [|kj r IH]; simpl; intros H; [reflexivity|].
  destruct (H kj (or_introl eq_refl)) as (ci & cj & si & sj & Hi & Hsi & Hj & Hsj & Hc).
  unfold COURSES_item, schedule_item. rewrite Hi, Hj. simpl. rewrite Hsi, Hsj. simpl.
  rewrite Hc. simpl. apply IH. auto.
Qed.

Lemma pick_ok_clear (keys : list string) :
  pairwise_conflict_free COURSES keys -> pick_ok COURSES keys = Ok true.
Proof.
  induction keys as [|ki later IH]; simpl; intros H; [reflexivity|].
  rewrite conflicts_with_later_clear.
  - simpl. apply IH. intros i j a b Hlt Hi Hj.
    apply (H (S i) (S j) a b); [lia | assumption | assumption].
  - intros kj Hin. apply In_nth_error in Hin. destruct Hin as [n Hn].
    apply (H 0%nat (S n) ki kj); [lia | reflexivity | assumption].
Qed.

(** The combinations the generator returns are the choices of one candidate
    for each group, in the order of the groups, that are pairwise
    conflict-free: all of them, and nothing else. *)
Theorem combinations_are_the_clear_picks
    (group_keys : list string) (combos : list combo) (keys : list string) :
  generate_best_combinations_for_groups COURSES group_keys = Ok combos ->
  In keys (map courses combos)
  <-> one_per_group COURSES group_keys keys /\ pairwise_conflict_free COURSES keys.
Proof.
  unfold generate_best_combinations_for_groups. intros H.
  destruct (build_groups COURSES group_keys []) as [groups|] eqn:Hg.
  - apply build_groups_Some in Hg. simpl in Hg. subst groups.
    inv_bind H. injection H as <-. rename x into found. split.
    + intros Hin. apply in_map_iff in Hin. destruct Hin as (c & <- & Hc).
      apply list_sort_In in Hc.
      destruct (collect_combos_In _ _ _ _ _ Hx Hc) as [[]|(ks & Hks & Hok & Hmk)].
      rewrite (make_combo_courses _ _ _ Hmk). split.
      * now apply one_per_group_product.
      * intros i j ki kj. now apply pick_ok_true.
    + intros [Hone Hpw]. apply one_per_group_product in Hone.
      destruct (collect_combos_complete _ _ _ _ Hx Hone (pick_ok_clear _ Hpw))
        as (c & Hc & <-).
      apply in_map. now apply list_sort_In.
  - injection H as <-. simpl. split; [intros []|].
    intros [Hone _]. exfalso.
    assert (Hgen : forall acc, build_groups COURSES group_keys acc <> None).
    { clear Hg. induction Hone as [|g k gs ks Hk Hr IH]; simpl; intros acc; [discriminate|].
      destruct (candidates_of COURSES g); [contradiction | apply IH]. }
    exact (Hgen [] Hg).
Qed.

(** *** Their order *)

Lemma list_insert_sorted_by_days (c : combo) (l : list combo) :
  StronglySorted (fun a b => days a <= days b) l ->
  StronglySorted (fun a b => days a <= days b) (list_insert combo_key_ltb c l).
Proof.
  induction 1 as [|y r Hr IH Hy]; simpl.
  - constructor; constructor.
  - destruct (combo_key_ltb y c) eqn:E.
    + constructor; [assumption|].
      apply Forall_forall. intros z Hz. apply list_insert_In in Hz.
      destruct Hz as [->|Hz].
      * unfold combo_key_ltb in E. destruct (days y =? days c) eqn:D; simpl in E; lia.
      * rewrite Forall_forall in Hy. auto.
    + assert (days c <= days y) as Hcy.
      { unfold combo_key_ltb in E. destruct (days y =? days c) eqn:D; simpl in E; lia. }
      constructor; [now constructor|].
      constructor; [assumption|].
      eapply Forall_impl; [|exact Hy]. simpl. intros; lia.
Qed.

(** The generator lists its combinations by number of days, fewest first. *)
Theorem combinations_sorted_by_days (group_keys : list string) (combos : list combo) :
  generate_best_combinations_for_groups COURSES group_keys = Ok combos ->
  StronglySorted (fun a b => days a <= days b) combos.
Proof.
  unfold generate_best_combinations_for_groups. intros H.
  destruct (build_groups COURSES group_keys []) as [groups|].
  - inv_bind H. injection H as <-. clear Hx.
    induction x as [|c r IH]; simpl; [constructor|].
    now apply list_insert_sorted_by_days.
  - injection H as <-. constructor.
Qed.

End GeneratorProperties.

Lemma combinations_are_the_clear_picks_witness :
  In ["A2"; "B1"] (map courses [mkCombo ["A2"; "B1"] 1 1%float 1.5%float])
  <-> one_per_group demo_catalog ["A"; "B"] ["A2"; "B1"]
      /\ pairwise_conflict_free demo_catalog ["A2"; "B1"].
Proof.
  apply (combinations_are_the_clear_picks demo_catalog ["A"; "B"]).
  vm_compute. reflexivity.
Defined.

(** The picks come out of the product as C1, D1 (two days) and then C2, D1
    (one day); the generator returns them the other way round. *)
Example generator_puts_fewer_days_first :
  collect_combos demo_days_catalog [["C1"; "D1"]; ["C2"; "D1"]] []
  = Ok [mkCombo ["C1"; "D1"] 2 0%float 2%float; mkCombo ["C2"; "D1"] 1 0%float 1%float]
  /\ generate_best_combinations_for_groups demo_days_catalog ["C"; "D"]
     = Ok [mkCombo ["C2"; "D1"] 1 0%float 1%float; mkCombo ["C1"; "D1"] 2 0%float 2%float].
Proof. split; vm_compute; reflexivity. Qed.

Lemma combinations_sorted_by_days_witness :
  StronglySorted (fun a b => days a <= days b)
    [mkCombo ["C2"; "D1"] 1 0%float 1%float; mkCombo ["C1"; "D1"] 2 0%float 2%float].
Proof.
  apply (combinations_sorted_by_days demo_days_catalog ["C"; "D"]).
  vm_compute. reflexivity.
Defined.

(** * The generator returns whenever the catalog can be read *)

Section GeneratorTotal.

Variable COURSES : catalog.
Hypothesis Htimes : catalog_times_parse COURSES.
Hypothesis Hsched : catalog_has_schedules COURSES.

Lemma assoc_get_In_keys {V : Type} (k : string) (d : list (string * V)) :
  In k (map fst d) -> exists v, assoc_get k d = Some v.
Proof.
  induction d as [|[k' v] r IH]; simpl; [intros []|].
  intros H. destruct (String.eqb_spec k' k) as [->|Hne]; [eauto|].
  destruct H as [H|H]; [contradiction | auto].
Qed.

Lemma candidates_of_known (g k : string) :
  In k (candidates_of COURSES g) -> COURSES_mem COURSES k = true.
Proof.
  intros H. assert (Hk : In k (map fst COURSES)).
  { unfold candidates_of in H.
    destruct (candidates_by_prefix COURSES g) eqn:E.
    - unfold candidates_by_name in H. apply in_map_iff in H.
      destruct H as (kv & <- & Hkv). apply filter_In in Hkv. apply in_map. tauto.
    - rewrite <- E in H. unfold candidates_by_prefix in H. apply in_map_iff in H.
      destruct H as (kv & <- & Hkv). apply filter_In in Hkv. apply in_map. tauto. }
  destruct (assoc_get_In_keys _ _ Hk) as [c Hc].
  unfold COURSES_mem, COURSES_get. now rewrite Hc.
Qed.

Lemma one_per_group_known (group_keys keys : list string) :
  one_per_group COURSES group_keys keys -> all_known COURSES keys.
Proof.
  induction 1 as [|g k gs ks Hk Hr IH]; constructor; [|assumption].
  eapply candidates_of_known; eassumption.
Qed.

Lemma known_schedule (k : string) :
  COURSES_mem COURSES k = true ->
  exists c items, COURSES_get COURSES k = Some c /\ schedule c = Some items
                  /\ Forall times_parse items.
Proof.
  intros H. unfold COURSES_mem in H.
  destruct (COURSES_get COURSES k) as [c|] eqn:Hc; [|discriminate].
  pose proof (Htimes _ _ Hc) as Hp. unfold schedule_get in Hp.
  destruct (schedule c) as [items|] eqn:E; [|exfalso; exact (Hsched _ _ Hc E)].
  eauto.
Qed.

Lemma conflicts_with_later_total (ki : string) (later : list string) :
  COURSES_mem COURSES ki = true -> all_known COURSES later ->
  exists b, conflicts_with_later COURSES ki later = Ok b.
Proof.
  intros Hi Hl. induction Hl as [|kj r Hj Hr IH]; simpl; [eauto|].
  destruct (known_schedule _ Hi) as (ci & si & Hci & Hsi & Hpi).
  destruct (known_schedule _ Hj) as (cj & sj & Hcj & Hsj & Hpj).
  unfold COURSES_item, schedule_item. rewrite Hci, Hcj. simpl. rewrite Hsi, Hsj. simpl.
  rewrite (schedules_conflict_total si sj Hpi Hpj). simpl.
  destruct (existsb _ si); [eauto | exact IH].
Qed.

Lemma pick_ok_total (keys : list string) :
  all_known COURSES keys -> exists b, pick_ok COURSES keys = Ok b.
Proof.
  induction 1 as [|ki later Hi Hl IH]; simpl; [eauto|].
  destruct (conflicts_with_later_total ki later Hi Hl) as [b ->]. simpl.
  destruct b; [eauto | exact IH].
Qed.

Lemma make_combo_total (keys : list string) :
  all_known COURSES keys -> exists c, make_combo COURSES keys = Ok c.
Proof.
  intros Hk. unfold make_combo, calculate_days_needed_for_combo,
    calculate_empty_time_for_combo.
  destruct (collect_days_total COURSES keys [] Hsched Hk) as [ds ->].
  destruct (collect_daily_total COURSES keys [] Htimes Hsched Hk) as [daily ->].
  simpl. eauto.
Qed.

Lemma collect_combos_total (picks : list (list string)) (acc : list combo) :
  Forall (all_known COURSES) picks ->
  exists combos, collect_combos COURSES picks acc = Ok combos.
Proof.
  intros H. revert acc. induction H as [|keys r Hk Hr IH]; intros acc; simpl; [eauto|].
  destruct (pick_ok_total keys Hk) as [b ->]. simpl. destruct b; [|apply IH].
  destruct (make_combo_total keys Hk) as [c ->]. simpl. apply IH.
Qed.

(** When every course of the catalog has a schedule with readable times the
    generator raises nothing: it returns a list for every list of groups. *)
Theorem generator_returns_on_readable_catalog (group_keys : list string) :
  exists combos, generate_best_combinations_for_groups COURSES group_keys = Ok combos.
Proof.
  unfold generate_best_combinations_for_groups.
  destruct (build_groups COURSES group_keys []) as [groups|] eqn:Hg; [|eauto].
  apply build_groups_Some in Hg. simpl in Hg. subst groups.
  destruct (collect_combos_total (product (map (candidates_of COURSES) group_keys)) [])
    as [combos ->]; [|simpl; eauto].
  apply Forall_forall. intros keys Hin. apply one_per_group_product in Hin.
  eapply one_per_group_known; eassumption.
Qed.

End GeneratorTotal.

Lemma generator_returns_on_readable_catalog_witness :
  exists combos, generate_best_combinations_for_groups demo_catalog ["A"; "B"] = Ok combos.
Proof.
  apply (generator_returns_on_readable_catalog demo_catalog
           demo_catalog_times_parse demo_catalog_has_schedules ["A"; "B"]).
Defined.

(** * The number of days of a combination *)

Section DaysNeeded.

Variable COURSES : catalog.


Lemma add_days_In (items : list session) (days : list string) (d : string) :
  In d (add_days items days) <-> In d days \/ exists s, In s items /\ day s = d.
Proof.
  revert days. induction items as [|item r IH]; simpl; intros days.
  - split; [auto | intros [H|(s & [] & _)]; assumption].
  - rewrite IH, set_add_In. split.
    + intros [[->|H]|(s & Hs & E)]; eauto.
    + intros [H|(s & [->|Hs] & E)]; eauto.
Qed.

Lemma add_days_NoDup (items : list session) (days : list string) :
  NoDup days -> NoDup (add_days items days).
Proof.
  revert days. induction items as [|item r IH]; simpl; intros days H; [assumption|].
  apply IH. now apply set_add_NoDup.
Qed.

Lemma collect_days_spec (keys : list string) (acc ds : list string) :
  collect_days COURSES keys acc = Ok ds -> NoDup acc ->
  NoDup ds
  /\ (forall k, In k keys -> has_schedule COURSES k)
  /\ forall d, In d ds <->
       In d acc \/ exists k c items s,
         In k keys /\ COURSES_get COURSES k = Some c /\ schedule c = Some items
         /\ In s items /\ day s = d.
Proof.
  revert acc. induction keys as [|key r IH]; simpl; intros acc H Hnd.
  - injection H as <-. split; [assumption|]. split; [intros k []|].
    intros d. split; [auto | intros [H|(k & _ & _ & _ & [] & _)]; assumption].
  - unfold COURSES_item, schedule_item in H.
    destruct (COURSES_get COURSES key) as [c|] eqn:Hc; [|discriminate]. simpl in H.
    destruct (schedule c) as [items|] eqn:Hs; [|discriminate]. simpl in H.
    destruct (IH _ H (add_days_NoDup items acc Hnd)) as (Hnd' & Hall & Hin).
    split; [assumption|]. split.
    + intros k [<-|Hk]; [exists c, items; auto | auto].
    + intros d. rewrite Hin, add_days_In. split.
      * intros [[Ha|(s & Hs' & E)]|(k & c' & it & s & Hk & Hc' & Hi & Hs' & E)]; auto.
        -- right. exists key, c, items, s. auto.
        -- right. exists k, c', it, s. auto 10.
      * intros [Ha|(k & c' & it & s & [<-|Hk] & Hc' & Hi & Hs' & E)]; auto.
        -- left. right. exists s. split; [|assumption]. congruence.
        -- right. exists k, c', it, s. auto 10.
Qed.

Lemma collect_days_Ok (keys : list string) (acc : list string) :
  (forall k, In k keys -> has_schedule COURSES k) ->
  exists ds, collect_days COURSES keys acc = Ok ds.
Proof.
  revert acc. induction keys as [|key r IH]; simpl; intros acc H; [eauto|].
  destruct (H key (or_introl eq_refl)) as (c & items & Hc & Hs).
  unfold COURSES_item, schedule_item. rewrite Hc. simpl. rewrite Hs. simpl.
  apply IH. auto.
Qed.

Lemma collect_days_raises (keys : list string) (acc : list string) (e : exn) :
  collect_days COURSES keys acc = Raise e -> e = KeyError.
Proof.
  revert acc. induction keys as [|key r IH]; simpl; intros acc H; [discriminate|].
  unfold COURSES_item, schedule_item in H.
  destruct (COURSES_get COURSES key) as [c|]; simpl in H; [|congruence].
  destruct (schedule c) as [items|]; simpl in H; [eauto | congruence].
Qed.

(** The number of days depends on which courses are picked only: neither the
    order of the keys nor a key listed twice changes the result, and this
    includes the [KeyError] of a key that is not in the catalog or whose
    course has no ['schedule'], the only exception raised. *)
Theorem days_needed_ignores_order (keys keys' : list string) :
  (forall k, In k keys <-> In k keys') ->
  calculate_days_needed_for_combo COURSES keys
  = calculate_days_needed_for_combo COURSES keys'
  /\ (calculate_days_needed_for_combo COURSES keys = Raise KeyError
      <-> exists k, In k keys /\ ~ has_schedule COURSES k).
Proof.
  intros Hsame. unfold calculate_days_needed_for_combo.
  assert (Hnd : NoDup (@nil string)) by constructor.
  destruct (collect_days COURSES keys []) as [ds|e] eqn:H1.
  - destruct (collect_days_spec _ _ _ H1 Hnd) as (Hn1 & Hall & Hin1).
    destruct (collect_days_Ok keys' []) as [ds' H2].
    { intros k Hk. apply Hall, Hsame, Hk. }
    rewrite H2. destruct (collect_days_spec _ _ _ H2 Hnd) as (Hn2 & _ & Hin2).
    cbn [Py.bind]. split.
    + do 2 f_equal. apply Nat.le_antisymm; apply NoDup_incl_length; try assumption;
        intros d Hd.
      * apply Hin2. apply Hin1 in Hd.
        destruct Hd as [[]|(k & c & it & s & Hk & Hrest)].
        right. exists k, c, it, s. split; [now apply Hsame | assumption].
      * apply Hin1. apply Hin2 in Hd.
        destruct Hd as [[]|(k & c & it & s & Hk & Hrest)].
        right. exists k, c, it, s. split; [now apply Hsame | assumption].
    + split; [discriminate|]. intros (k & Hk & Hno). exfalso. auto.
  - pose proof (collect_days_raises _ _ _ H1) as ->. cbn [Py.bind].
    assert (Hbad : exists k, In k keys /\ ~ has_schedule COURSES k).
    { clear Hsame. revert H1. generalize (@nil string).
      induction keys as [|key r IH]; simpl; intros acc H; [discriminate|].
      unfold COURSES_item, schedule_item in H.
      destruct (COURSES_get COURSES key) as [c|] eqn:Hc; simpl in H.
      - destruct (schedule c) as [items|] eqn:Hs; simpl in H.
        + destruct (IH _ H) as (k & Hk & Hno). eauto.
        + exists key. split; [auto|]. intros (c' & it & Hc' & Hs'). congruence.
      - exists key. split; [auto|]. intros (c' & it & Hc' & _).
        unfold COURSES_get in *. congruence. }
    split; [|tauto].
    destruct (collect_days COURSES keys' []) as [ds'|e'] eqn:H2.
    + exfalso. destruct (collect_days_spec _ _ _ H2 Hnd) as (_ & Hall & _).
      destruct Hbad as (k & Hk & Hno). apply Hno, Hall, Hsame, Hk.
    + now rewrite (collect_days_raises _ _ _ H2).
Qed.

End DaysNeeded.

Lemma days_needed_ignores_order_witness :
  calculate_days_needed_for_combo demo_catalog ["A1"; "B1"]
  = calculate_days_needed_for_combo demo_catalog ["B1"; "A1"; "B1"]
  /\ (calculate_days_needed_for_combo demo_catalog ["A1"; "B1"] = Raise KeyError
      <-> exists k, In k ["A1"; "B1"] /\ ~ has_schedule demo_catalog k).
Proof.
  apply (days_needed_ignores_order demo_catalog ["A1"; "B1"] ["B1"; "A1"; "B1"]).
  intros k. simpl. tauto.
Defined.

(** * The slot grid and the minutes of the conflict check *)

Lemma format_slot_parses_all :
  forallb (fun n => match to_minutes (format_slot (Z.of_nat n)) with
                    | Ok m => m =? Z.of_nat n
                    | Raise _ => false
                    end) (seq 0 (Z.to_nat 6000)) = true.
Proof. vm_compute. reflexivity. Qed.

(** A slot label reads back as the minute it was written from: [to_minutes]
    undoes the [f"{hh:02d}:{mm:02d}"] of the slot generators, for every
    minute of a two-digit hour. *)
Theorem slot_label_round_trip (m : Z) :
  0 <= m < 6000 -> to_minutes (format_slot m) = Ok m.
Proof.
  intros Hm. pose proof format_slot_parses_all as H.
  rewrite forallb_forall in H. specialize (H (Z.to_nat m)).
  rewrite Z2Nat.id in H by lia.
  destruct (to_minutes (format_slot m)) as [m'|e].
  - f_equal. apply Z.eqb_eq. apply H. apply in_seq. lia.
  - discriminate H. apply in_seq. lia.
Qed.

Lemma slot_label_round_trip_witness : to_minutes (format_slot 510) = Ok 510.
Proof. apply (slot_label_round_trip 510). lia. Defined.

Lemma index_nth_error (l : list string) (x : string) (i : Z) :
  Str.index l x = Ok i -> 0 <= i /\ nth_error l (Z.to_nat i) = Some x.
Proof.
  revert i. induction l as [|y r IH]; simpl; intros i H; [discriminate|].
  destruct (String.eqb y x) eqn:E.
  - injection H as <-. apply String.eqb_eq in E. subst. auto with zarith.
  - inv_bind H. injection H as <-. destruct (IH _ Hx) as [H0 Hn].
    split; [lia|]. rewrite Z2Nat.inj_add by lia. rewrite Nat.add_comm. exact Hn.
Qed.

Lemma EXTENDED_TIME_SLOTS_minutes :
  forallb (fun n => match nth_error EXTENDED_TIME_SLOTS n with
                    | Some s => match to_minutes s with
                                | Ok m => m =? 420 + 30 * Z.of_nat n
                                | Raise _ => false
                                end
                    | None => true
                    end) (seq 0 25) = true.
Proof. vm_compute. reflexivity. Qed.

(** Row [i] of the grid is the minute [07:00 + 30 i]. *)
Lemma slot_row_minutes (s : string) (i : Z) :
  Str.index EXTENDED_TIME_SLOTS s = Ok i -> to_minutes s = Ok (420 + 30 * i).
Proof.
  intros H. apply index_nth_error in H. destruct H as [H0 Hn].
  assert (Hlt : (Z.to_nat i < 25)%nat).
  { change 25%nat with (List.length EXTENDED_TIME_SLOTS). apply nth_error_Some. congruence. }
  pose proof EXTENDED_TIME_SLOTS_minutes as H. rewrite forallb_forall in H.
  specialize (H (Z.to_nat i)). rewrite Hn, Z2Nat.id in H by lia.
  destruct (to_minutes s) as [m|e].
  - f_equal. apply Z.eqb_eq. apply H. apply in_seq. lia.
  - discriminate H. apply in_seq. lia.
Qed.

Lemma slot_rows_minutes (a : session) (sa ea : Z) :
  slot_rows a = Some (sa, ea) ->
  to_minutes (start a) = Ok (420 + 30 * sa) /\ to_minutes (end_ a) = Ok (420 + 30 * ea).
Proof.
  unfold slot_rows. intros H.
  destruct (Str.index EXTENDED_TIME_SLOTS (start a)) as [s|] eqn:Es; [|discriminate].
  destruct (Str.index EXTENDED_TIME_SLOTS (end_ a)) as [e|] eqn:Ee; [|discriminate].
  injection H as <- <-. split; now apply slot_row_minutes.
Qed.



(** * The conflict check on two schedules *)

Lemma schedules_conflict_row_true (a : session) (sch2 : list session) :
  schedules_conflict_row a sch2 = Ok true ->
  exists b, In b sch2 /\ sessions_conflict a b = Ok true.
Proof.
  induction sch2 as [|b r IH]; simpl; [discriminate|].
  destruct (sessions_conflict a b) as [[|]|e] eqn:E; simpl; [eauto | | discriminate].
  intros H. destruct (IH H) as (b' & Hb & Hc). eauto.
Qed.

Lemma schedules_conflict_true (sch1 sch2 : list session) :
  schedules_conflict sch1 sch2 = Ok true ->
  exists a b, In a sch1 /\ In b sch2 /\ sessions_conflict a b = Ok true.
Proof.
  induction sch1 as [|a r IH]; simpl; [discriminate|].
  destruct (schedules_conflict_row a sch2) as [[|]|e] eqn:E; simpl; [| |discriminate].
  - intros _. destruct (schedules_conflict_row_true _ _ E) as (b & Hb & Hc).
    exists a, b. auto.
  - intros H. destruct (IH H) as (a' & b & Ha & Hb & Hc). exists a', b. auto.
Qed.

Lemma sessions_conflict_raises_ValueError (a b : session) (e : exn) :
  sessions_conflict a b = Raise e -> e = ValueError.
Proof.
  unfold sessions_conflict.
  destruct (negb (day a =? day b)%string); [discriminate|].
  destruct (is_compatible (get_parity a) (get_parity b)); [discriminate|].
  destruct (to_minutes (start a)) as [s1|e1] eqn:E1; simpl;
    [|intros H; injection H as <-; eapply to_minutes_raises_ValueError; eauto].
  destruct (to_minutes (end_ a)) as [s2|e2] eqn:E2; simpl;
    [|intros H; injection H as <-; eapply to_minutes_raises_ValueError; eauto].
  destruct (to_minutes (start b)) as [s3|e3] eqn:E3; simpl;
    [|intros H; injection H as <-; eapply to_minutes_raises_ValueError; eauto].
  destruct (to_minutes (end_ b)) as [s4|e4] eqn:E4; simpl;
    [discriminate|intros H; injection H as <-; eapply to_minutes_raises_ValueError; eauto].
Qed.

Lemma schedules_conflict_raises_ValueError (sch1 sch2 : list session) (e : exn) :
  schedules_conflict sch1 sch2 = Raise e -> e = ValueError.
Proof.
  induction sch1 as [|a r IH]; simpl; [discriminate|].
  destruct (schedules_conflict_row a sch2) as [[|]|e'] eqn:E; simpl; [discriminate|exact IH|].
  intros H. injection H as <-. clear IH. revert E.
  induction sch2 as [|b l IHl]; simpl; [discriminate|].
  destruct (sessions_conflict a b) as [[|]|e''] eqn:Eb; simpl; [discriminate|exact IHl|].
  intros H. injection H as <-. eapply sessions_conflict_raises_ValueError; eauto.
Qed.

(** On two lists of sessions the conflict check is the check on two sessions
    asked of every pair: it returns False exactly when every pair is
    cleared, it returns True only for a pair that conflicts, and when the
    times can be read it returns True exactly when some pair conflicts. The
    only exception it raises is [ValueError]. *)
Theorem schedules_conflict_is_some_pair (sch1 sch2 : list session) :
  (schedules_conflict sch1 sch2 = Ok false
   <-> forall a b, In a sch1 -> In b sch2 -> conflicts a b = Ok false)
  /\ (schedules_conflict sch1 sch2 = Ok true ->
      exists a b, In a sch1 /\ In b sch2 /\ conflicts a b = Ok true)
  /\ (Forall times_parse sch1 -> Forall times_parse sch2 ->
      (exists a b, In a sch1 /\ In b sch2 /\ conflicts a b = Ok true) ->
      schedules_conflict sch1 sch2 = Ok true)
  /\ (forall e, schedules_conflict sch1 sch2 = Raise e -> e = ValueError).
Proof.
  refine (conj _ (conj _ (conj _ _))).
  - rewrite schedules_conflict_false. split; intros H a b Ha Hb.
    + rewrite conflicts_eq. auto.
    + rewrite <- conflicts_eq. auto.
  - intros H. destruct (schedules_conflict_true _ _ H) as (a & b & Ha & Hb & Hc).
    exists a, b. rewrite conflicts_eq. auto.
  - intros H1 H2 (a & b & Ha & Hb & Hc). rewrite conflicts_eq in Hc.
    rewrite (schedules_conflict_total sch1 sch2 H1 H2). f_equal.
    apply existsb_exists. exists a. split; [assumption|].
    apply existsb_exists. exists b. split; [assumption|].
    unfold conflict_bool. now rewrite Hc.
  - apply schedules_conflict_raises_ValueError.
Qed.

Lemma schedules_conflict_is_some_pair_witness :
  schedules_conflict
    [mkSession saturday "08:00" "09:00" None; mkSession saturday "10:00" "12:00" None]
    [mkSession saturday "11:00" "13:00" None] = Ok true.
Proof.
  apply (proj1 (proj2 (proj2 (schedules_conflict_is_some_pair
           [mkSession saturday "08:00" "09:00" None; mkSession saturday "10:00" "12:00" None]
           [mkSession saturday "11:00" "13:00" None])))).
  - repeat constructor; eexists; eexists; split; vm_compute; reflexivity.
  - repeat constructor; eexists; eexists; split; vm_compute; reflexivity.
  - exists (mkSession saturday "10:00" "12:00" None),
      (mkSession saturday "11:00" "13:00" None).
    simpl. repeat split; auto.
Defined.

(** * Where the sessions of a course go on the grid *)

Lemma index_bound (l : list string) (x : string) (i : Z) :
  Str.index l x = Ok i -> 0 <= i < Z.of_nat (List.length l).
Proof.
  intros H. destruct (index_nth_error _ _ _ H) as [H0 Hn].
  assert (Z.to_nat i < List.length l)%nat by (apply nth_error_Some; congruence). lia.
Qed.

Lemma build_placements_In (c : course) (sched : list session)
    (placements : list placement) (warned : list session) (p : placement) :
  build_placements c sched [] [] = Ok (placements, warned) ->
  In p placements ->
  In (snd p) sched
  /\ Str.index DAYS (day (snd p)) = Ok (snd (fst (fst p)))
  /\ exists erow, slot_rows (snd p) = Some (fst (fst (fst p)), erow)
                  /\ snd (fst p) = Z.max 1 (erow - fst (fst (fst p))).
Proof.
  intros H Hin.
  destruct (build_placements_spec [] [] EmptyString (fun _ => (None, None))
              _ _ _ _ _ _ H) as [Hp _].
  apply Hp in Hin. destruct Hin as [[]|Hin]. exact Hin.
Qed.

(** Every placement sits in the column of the day of its session and at the
    row of its start slot, 30 minutes a row from 07:00 on; it spans one row
    at least. The rows run from 0 to 24 while the table has the rows 0 to
    23: a session that starts at 19:00 gets its entry in [self.placed] and
    no cell of the table. *)
Theorem placements_lie_on_the_grid (c : course) (sched : list session)
    (placements : list placement) (warned : list session)
    (srow col span : Z) (sess : session) :
  build_placements c sched [] [] = Ok (placements, warned) ->
  In (srow, col, span, sess) placements ->
  In sess sched
  /\ 0 <= col <= 6 /\ nth_error DAYS (Z.to_nat col) = Some (day sess)
  /\ 0 <= srow <= 24 /\ to_minutes (start sess) = Ok (420 + 30 * srow)
  /\ 1 <= span <= 24
  /\ in_table (srow, col) = negb (srow =? 24).
Proof.
  intros H Hin.
  destruct (build_placements_In _ _ _ _ _ H Hin) as (Hs & Hd & erow & Hr & Hspan).
  cbn [fst snd] in Hs, Hd, Hr, Hspan.
  pose proof (index_bound _ _ _ Hd) as Hc. destruct (index_nth_error _ _ _ Hd) as [_ Hn].
  destruct (slot_rows_minutes _ _ _ Hr) as [Hm _].
  unfold slot_rows in Hr.
  destruct (Str.index EXTENDED_TIME_SLOTS (start sess)) as [s|] eqn:Es; [|discriminate].
  destruct (Str.index EXTENDED_TIME_SLOTS (end_ sess)) as [e'|] eqn:Ee; [|discriminate].
  injection Hr as <- <-.
  pose proof (index_bound _ _ _ Es) as Hbs. pose proof (index_bound _ _ _ Ee) as Hbe.
  change (Z.of_nat (List.length EXTENDED_TIME_SLOTS)) with 25 in Hbs, Hbe.
  change (Z.of_nat (List.length DAYS)) with 7 in Hc.
  repeat split; auto; try lia.
  unfold in_table. cbn [fst snd].
  change (Z.of_nat (List.length EXTENDED_TIME_SLOTS)) with 25.
  destruct (Z.eqb_spec s 24) as [->|Hne]; cbn [negb].
  - reflexivity.
  - rewrite !andb_true_iff, !Z.leb_le, !Z.ltb_lt. lia.
Qed.

Lemma placements_lie_on_the_grid_witness :
  In (mkSession saturday "19:00" "19:00" None) [mkSession saturday "19:00" "19:00" None]
  /\ 0 <= 0 <= 6
  /\ nth_error DAYS (Z.to_nat 0) = Some (day (mkSession saturday "19:00" "19:00" None))
  /\ 0 <= 24 <= 24
  /\ to_minutes (start (mkSession saturday "19:00" "19:00" None)) = Ok (420 + 30 * 24)
  /\ 1 <= 1 <= 24
  /\ in_table (24, 0) = negb (24 =? 24).
Proof.
  apply (placements_lie_on_the_grid
           (mkCourse None (Some "Late") None true)
           [mkSession saturday "19:00" "19:00" None]
           [(24, 0, 1, mkSession saturday "19:00" "19:00" None)] []).
  - reflexivity.
  - left. reflexivity.
Defined.

(** * The priority list *)

Lemma renumber_fst (i : Z) (items : list auto_item) :
  map fst (renumber i items) = map fst items.
Proof.
  revert i. induction items as [|[k p] r IH]; simpl; intros i; [reflexivity|].
  now rewrite IH.
Qed.

Lemma renumber_priority (items : list auto_item) (i0 : Z) (i : nat) (k : string) :
  nth_error (map fst items) i = Some (Some k) ->
  (forall j, (j < i)%nat -> nth_error (map fst items) j <> Some (Some k)) ->
  get_course_priority_from (renumber i0 items) k = i0 + Z.of_nat i + 1.
Proof.
  revert i0 i. induction items as [|[k' p] r IH]; intros i0 i Hi Hfirst.
  - destruct i; discriminate.
  - destruct i as [|i]; simpl in Hi.
    + injection Hi as ->. simpl. rewrite String.eqb_refl. lia.
    + simpl. destruct k' as [k'|].
      * destruct (String.eqb k' k) eqn:E.
        -- apply String.eqb_eq in E. subst k'.
           exfalso. apply (Hfirst 0%nat); [lia | reflexivity].
        -- rewrite (IH (i0 + 1) i Hi); [lia|].
           intros j Hj. apply (Hfirst (S j)). lia.
      * rewrite (IH (i0 + 1) i Hi); [lia|].
        intros j Hj. apply (Hfirst (S j)). lia.
Qed.

Lemma get_course_priority_from_absent (items : list auto_item) (k : string) :
  ~ In (Some k) (map fst items) -> get_course_priority_from items k = 999.
Proof.
  induction items as [|[k' p] r IH]; simpl; intros H; [reflexivity|].
  destruct k' as [k'|]; [|apply IH; tauto].
  destruct p as [p|]; [|apply IH; tauto].
  destruct (String.eqb k' k) eqn:E; [|apply IH; tauto].
  apply String.eqb_eq in E. subst. exfalso. apply H. now left.
Qed.

(** After the list was reordered, the priority of a course is the position
    of its first item, counted from 1, and 999 when it has no item: the
    higher a course stands in the list, the smaller its number. *)
Theorem reordered_priority_is_position (items : list auto_item) :
  (forall (i : nat) (k : string),
     nth_error (map fst items) i = Some (Some k) ->
     (forall j, (j < i)%nat -> nth_error (map fst items) j <> Some (Some k)) ->
     get_course_priority_from (on_auto_list_reordered items) k = Z.of_nat i + 1)
  /\ (forall k : string,
        ~ In (Some k) (map fst items) ->
        get_course_priority_from (on_auto_list_reordered items) k = 999).
Proof.
  split.
  - intros i k Hi Hfirst. unfold on_auto_list_reordered.
    rewrite (renumber_priority items 0 i k Hi Hfirst). lia.
  - intros k Hk. apply get_course_priority_from_absent.
    unfold on_auto_list_reordered. now rewrite renumber_fst.
Qed.

Lemma reordered_priority_is_position_witness :
  get_course_priority_from
    (on_auto_list_reordered [(Some "B1", Some 7); (Some "A1", None)]) "A1" = 2
  /\ get_course_priority_from
       (on_auto_list_reordered [(Some "B1", Some 7); (Some "A1", None)]) "E1" = 999.
Proof.
  split.
  - apply (proj1 (reordered_priority_is_position [(Some "B1", Some 7); (Some "A1", None)])
             1%nat "A1").
    + reflexivity.
    + intros j Hj. assert (j = 0%nat) as -> by lia. discriminate.
  - apply (proj2 (reordered_priority_is_position [(Some "B1", Some 7); (Some "A1", None)])).
    simpl. intros [H|[H|[]]]; discriminate.
Defined.

Lemma data_eqb_eq (a b : option string) : data_eqb a b = true <-> a = b.
Proof.
  destruct a as [x|], b as [y|]; simpl; try (split; congruence).
  rewrite String.eqb_eq. split; congruence.
Qed.

Lemma existsb_data_In (key : option string) (items : list auto_item) :
  existsb (fun it => data_eqb (fst it) key) items = true <-> In key (map fst items).
Proof.
  rewrite existsb_exists, in_map_iff. split.
  - intros (it & Hin & E). apply data_eqb_eq in E. eauto.
  - intros (it & E & Hin). exists it. split; [assumption|]. now apply data_eqb_eq.
Qed.

Lemma numbered_snoc (items : list auto_item) (k : option string) :
  numbered items ->
  numbered (items ++ [(k, Some (Z.of_nat (List.length items) + 1))]).
Proof.
  intros H i it Hi.
  destruct (Nat.lt_ge_cases i (List.length items)) as [Hlt|Hge].
  - rewrite nth_error_app1 in Hi by assumption. auto.
  - rewrite nth_error_app2 in Hi by assumption.
    destruct (i - List.length items)%nat as [|n] eqn:E; simpl in Hi.
    + injection Hi as <-. simpl. do 2 f_equal. lia.
    + destruct n; discriminate.
Qed.

Lemma NoDup_snoc {A : Type} (l : list A) (x : A) :
  NoDup l -> ~ In x l -> NoDup (l ++ [x]).
Proof.
  intros Hl Hx. apply NoDup_app; [assumption | repeat constructor; auto |].
  intros y Hy [<-|[]]. contradiction.
Qed.

(** [on_add_to_auto] only appends: the items of the list stay as they are
    and where they are; a list without two items of one key stays so, and so
    does a list numbered 1, 2, ...; every item it adds is a selected course
    of the catalog. *)
Theorem on_add_to_auto_keeps_the_list (COURSES : catalog)
    (selected : list (option string)) (items items' : list auto_item) (e : option exn) :
  on_add_to_auto COURSES selected items = (items', e) ->
  exists added,
    items' = items ++ added
    /\ (NoDup (map fst items) -> NoDup (map fst items'))
    /\ (numbered items -> numbered items')
    /\ Forall (fun it => exists k c, fst it = Some k /\ In (Some k) selected
                                     /\ COURSES_get COURSES k = Some c
                                     /\ course_truthy c = true) added.
Proof.
  revert items. induction selected as [|key r IH]; simpl; intros items H.
  - injection H as <- <-. exists []. rewrite app_nil_r. auto.
  - assert (Hskip : on_add_to_auto COURSES r items = (items', e) ->
              exists added,
                items' = items ++ added
                /\ (NoDup (map fst items) -> NoDup (map fst items'))
                /\ (numbered items -> numbered items')
                /\ Forall (fun it => exists k c, fst it = Some k
                                       /\ (key = Some k \/ In (Some k) r)
                                       /\ COURSES_get COURSES k = Some c
                                       /\ course_truthy c = true) added).
    { intros H'. destruct (IH _ H') as (added & E & Hn & Hnum & Hall).
      exists added. repeat split; auto.
      eapply Forall_impl; [|exact Hall]. simpl.
      intros it (k & c & H1 & H2 & H3 & H4). exists k, c. auto. }
    destruct (existsb (fun it => data_eqb (fst it) key) items) eqn:Hex; [auto|].
    destruct key as [course_key|]; [|auto].
    destruct (COURSES_get COURSES course_key) as [c|] eqn:Hc; [|auto].
    destruct (course_truthy c) eqn:Ht; [|auto].
    destruct (name c) as [n|].
    + destruct (IH _ H) as (added & E & Hn & Hnum & Hall).
      exists ((Some course_key, Some (Z.of_nat (List.length items) + 1)) :: added).
      split; [rewrite E, <- app_assoc; reflexivity|]. split; [|split].
      * intros Hnd. apply Hn. rewrite map_app. simpl. apply NoDup_snoc; [assumption|].
        rewrite <- existsb_data_In. congruence.
      * intros Hnb. apply Hnum. now apply numbered_snoc.
      * constructor.
        -- exists course_key, c. auto.
        -- eapply Forall_impl; [|exact Hall]. simpl.
           intros it (k & c' & H1 & H2 & H3 & H4). exists k, c'. auto.
    + injection H as <- <-. exists []. rewrite app_nil_r. auto.
Qed.

Lemma on_add_to_auto_keeps_the_list_witness :
  exists added,
    [(Some "B1", Some 1); (Some "A2", Some 2)] = [(Some "B1", Some 1)] ++ added
    /\ (NoDup (map fst [(Some "B1", Some 1)])
        -> NoDup (map fst [(Some "B1", Some 1); (Some "A2", Some 2)]))
    /\ (numbered [(Some "B1", Some 1)]
        -> numbered [(Some "B1", Some 1); (Some "A2", Some 2)])
    /\ Forall (fun it => exists k c, fst it = Some k
                           /\ In (Some k) [Some "B1"; Some "X9"; None; Some "A2"]
                           /\ COURSES_get demo_catalog k = Some c
                           /\ course_truthy c = true) added.
Proof.
  apply (on_add_to_auto_keeps_the_list demo_catalog
           [Some "B1"; Some "X9"; None; Some "A2"] [(Some "B1", Some 1)]
           [(Some "B1", Some 1); (Some "A2", Some 2)] None).
  reflexivity.
Defined.

(** ** From the priority list to the scheduler *)

Section FromAutoList.

Variable COURSES : catalog.

Lemma ordered_course_keys_of_known (items : list auto_item) :
  all_known COURSES (ordered_course_keys_of COURSES items).
Proof.
  unfold all_known, ordered_course_keys_of. apply Forall_forall. intros k Hk.
  apply in_flat_map in Hk. destruct Hk as ([[k'|] p] & _ & Hin); simpl in Hin; [|contradiction].
  destruct (nonempty k' && COURSES_mem COURSES k') eqn:E; [|contradiction].
  destruct Hin as [<-|[]]. now apply andb_true_iff in E.
Qed.

Lemma ordered_course_keys_of_In (items : list auto_item) (k : string) :
  In k (ordered_course_keys_of COURSES items) -> In (Some k) (map fst items).
Proof.
  unfold ordered_course_keys_of. intros Hk. apply in_flat_map in Hk.
  destruct Hk as ([[k'|] p] & Hit & Hin); simpl in Hin; [|contradiction].
  destruct (nonempty k' && COURSES_mem COURSES k'); [|contradiction].
  destruct Hin as [<-|[]]. apply in_map_iff. exists (Some k', p). auto.
Qed.

Lemma ordered_course_keys_of_NoDup (items : list auto_item) :
  NoDup (map fst items) -> NoDup (ordered_course_keys_of COURSES items).
Proof.
  induction items as [|[k p] r IH]; simpl; intros H; [constructor|].
  inversion H as [|? ? Hk Hr]. subst.
  destruct k as [k|]; [|simpl; auto].
  destruct (nonempty k && COURSES_mem COURSES k); simpl; [|auto].
  constructor; [|auto].
  intros Hin. apply Hk. now apply ordered_course_keys_of_In.
Qed.

(** The keys [generate_optimal_schedule_from_auto_list] hands to the
    scheduler are keys of the catalog, so the [KeyError] of the skip-k
    alternatives cannot occur; for a priority list without two items of one
    key and a catalog that can be read, the dialog shows exactly one
    schedule, the greedy one, or reports the list as empty when no item
    names a course of the catalog. *)
Theorem auto_list_schedules_only_greedy (items : list auto_item) :
  NoDup (map fst items) ->
  catalog_times_parse COURSES -> catalog_has_schedules COURSES ->
  all_known COURSES (ordered_course_keys_of COURSES items)
  /\ ((ordered_course_keys_of COURSES items = []
       /\ generate_optimal_schedule_from_auto_list COURSES items = PriorityListEmpty)
      \/ exists s,
           generate_optimal_schedule_from_auto_list COURSES items = PriorityResults [s]
           /\ sr_method s = PriorityGreedy
           /\ create_greedy_schedule COURSES (ordered_course_keys_of COURSES items)
              = Ok (sr_courses s)).
Proof.
  intros Hnd Ht Hs. split; [apply ordered_course_keys_of_known|].
  unfold generate_optimal_schedule_from_auto_list.
  pose proof (ordered_course_keys_of_known items) as Hkn.
  pose proof (ordered_course_keys_of_NoDup items Hnd) as Hnd'.
  destruct (ordered_course_keys_of COURSES items) as [|k r] eqn:E; [left; auto|].
  right. rewrite (generate_priority_based_schedules_greedy COURSES (k :: r) Hnd' Hkn).
  assert (Hkn0 : Forall (fun k => exists c, COURSES_get COURSES k = Some c) []) by constructor.
  destruct (greedy_loop_total COURSES (k :: r) [] Ht Hkn0) as [greedy Hg].
  unfold create_greedy_schedule. rewrite Hg. cbn [Py.bind].
  destruct (greedy_loop_picks COURSES _ _ _ Hg) as (picked & Ep & _ & Hpk). simpl in Ep. subst.
  destruct picked as [|g gs].
  - exfalso. inversion Hkn as [|? ? Hk _]. subst.
    apply COURSES_mem_get in Hk. destruct Hk as [c Hc].
    simpl in Hg. rewrite Hc in Hg. simpl in Hg.
    pose proof (greedy_loop_keeps COURSES r [k] [] k Hg (or_introl eq_refl)) as [].
  - destruct (make_result_total COURSES (g :: gs) PriorityGreedy
                (Z.of_nat (List.length (g :: gs)) * 100) Ht Hs Hpk) as (d & e & ->).
    cbn [Py.bind]. eexists. repeat split.
Qed.

End FromAutoList.

Lemma auto_list_schedules_only_greedy_witness :
  all_known demo_catalog
    (ordered_course_keys_of demo_catalog [(Some "A1", Some 1); (Some "X9", Some 2)])
  /\ ((ordered_course_keys_of demo_catalog [(Some "A1", Some 1); (Some "X9", Some 2)] = []
       /\ generate_optimal_schedule_from_auto_list demo_catalog
            [(Some "A1", Some 1); (Some "X9", Some 2)] = PriorityListEmpty)
      \/ exists s,
           generate_optimal_schedule_from_auto_list demo_catalog
             [(Some "A1", Some 1); (Some "X9", Some 2)] = PriorityResults [s]
           /\ sr_method s = PriorityGreedy
           /\ create_greedy_schedule demo_catalog
                (ordered_course_keys_of demo_catalog
                   [(Some "A1", Some 1); (Some "X9", Some 2)])
              = Ok (sr_courses s)).
Proof.
  apply (auto_list_schedules_only_greedy demo_catalog
           [(Some "A1", Some 1); (Some "X9", Some 2)]).
  - repeat constructor; simpl; intuition discriminate.
  - exact demo_catalog_times_parse.
  - exact demo_catalog_has_schedules.
Defined.

(** * The time filter *)

Lemma matches_time_filter_loop_iff (sched : list session) (time_from time_to : Z) :
  matches_time_filter_loop sched time_from time_to = true
  <-> exists sess start_hour end_hour,
        In sess sched
        /\ start sess <> EmptyString /\ end_ sess <> EmptyString
        /\ hour_of (start sess) = Ok start_hour /\ hour_of (end_ sess) = Ok end_hour
        /\ start_hour <= time_to /\ time_from <= end_hour.
Proof.
  induction sched as [|sess r IH]; simpl.
  - split; [discriminate | intros (s & _ & _ & [] & _)].
  - assert (Hrest : matches_time_filter_loop r time_from time_to = true ->
              exists s sh eh, (sess = s \/ In s r)
                /\ start s <> EmptyString /\ end_ s <> EmptyString
                /\ hour_of (start s) = Ok sh /\ hour_of (end_ s) = Ok eh
                /\ sh <= time_to /\ time_from <= eh).
    { intros H. apply IH in H. destruct H as (s & sh & eh & Hin & H).
      exists s, sh, eh. tauto. }
    unfold nonempty.
    destruct (String.eqb (start sess) EmptyString) eqn:E1;
      [apply String.eqb_eq in E1 | apply String.eqb_neq in E1];
      (destruct (String.eqb (end_ sess) EmptyString) eqn:E2;
       [apply String.eqb_eq in E2 | apply String.eqb_neq in E2]); simpl;
      try (split; [exact Hrest|];
           intros (s & sh & eh & [<-|Hin] & H1 & H2 & H); [congruence|];
           apply IH; exists s, sh, eh; tauto).
    destruct (hour_of (start sess)) as [sh0|e0] eqn:Hs.
    + destruct (hour_of (end_ sess)) as [eh0|e1] eqn:He.
      * destruct ((sh0 <=? time_to) && (eh0 >=? time_from)) eqn:Hc.
        -- split; [|reflexivity]. intros _. exists sess, sh0, eh0.
           apply andb_true_iff in Hc. destruct Hc as [Hc1 Hc2].
           apply Z.leb_le in Hc1. apply Z.geb_le in Hc2. repeat split; auto.
        -- split; [exact Hrest|].
           intros (s & sh & eh & [<-|Hin] & H1 & H2 & H3 & H4 & H5 & H6).
           ++ exfalso. rewrite Hs in H3. rewrite He in H4.
              injection H3 as ->. injection H4 as ->.
              apply andb_false_iff in Hc. destruct Hc as [Hc|Hc].
              ** apply Z.leb_gt in Hc. lia.
              ** rewrite Z.geb_leb in Hc. apply Z.leb_gt in Hc. lia.
           ++ apply IH. exists s, sh, eh. tauto.
      * split; [exact Hrest|].
        intros (s & sh & eh & [<-|Hin] & H1 & H2 & H3 & H4 & H5); [congruence|].
        apply IH. exists s, sh, eh. tauto.
    + split; [exact Hrest|].
      intros (s & sh & eh & [<-|Hin] & H1 & H2 & H3 & H4 & H5); [congruence|].
      apply IH. exists s, sh, eh. tauto.
Qed.

(** The time filter keeps a course exactly when one of its sessions has both
    times set, hours that can be read, a start hour not after the end of the
    range and an end hour not before its start; a session whose hours cannot
    be read is passed over. So a course that matches a range matches every
    wider range, and a course without sessions matches none. *)
Theorem time_filter_matches (c : course) (time_from time_to : Z) :
  (_matches_time_filter c time_from time_to = true
   <-> exists sess start_hour end_hour,
         In sess (schedule_get c)
         /\ start sess <> EmptyString /\ end_ sess <> EmptyString
         /\ hour_of (start sess) = Ok start_hour /\ hour_of (end_ sess) = Ok end_hour
         /\ start_hour <= time_to /\ time_from <= end_hour)
  /\ (forall from' to' : Z,
        from' <= time_from -> time_to <= to' ->
        _matches_time_filter c time_from time_to = true ->
        _matches_time_filter c from' to' = true)
  /\ (schedule_get c = [] -> _matches_time_filter c time_from time_to = false).
Proof.
  unfold _matches_time_filter. split; [apply matches_time_filter_loop_iff|]. split.
  - intros from' to' Hf Ht H. apply matches_time_filter_loop_iff in H.
    destruct H as (s & sh & eh & Hin & H1 & H2 & H3 & H4 & H5 & H6).
    apply matches_time_filter_loop_iff. exists s, sh, eh. repeat split; auto; lia.
  - intros ->. reflexivity.
Qed.

Lemma time_filter_matches_witness :
  _matches_time_filter (mkCourse None None
                          (Some [mkSession saturday "10:30" "12:00" None]) true) 8 13
  = true.
Proof.
  apply (proj1 (proj2 (time_filter_matches
                         (mkCourse None None
                            (Some [mkSession saturday "10:30" "12:00" None]) true)
                         12 12)) 8 13).
  - lia.
  - lia.
  - reflexivity.
Defined.

(** * Persian numerals *)

Lemma has_ascii_digit_app (a b : string) :
  has_ascii_digit (a ++ b) = has_ascii_digit a || has_ascii_digit b.
Proof.
  induction a as [|c r IH]; simpl; [reflexivity|].
  destruct (Str.digit_of c); [reflexivity | exact IH].
Qed.

Lemma convert_to_persian_numerals_cons (c : ascii) (r : string) :
  convert_to_persian_numerals (String c r)
  = (english_to_persian_get english_to_persian c ++ convert_to_persian_numerals r)%string.
Proof. reflexivity. Qed.

Lemma append_assoc (a b c : string) : ((a ++ b) ++ c)%string = (a ++ (b ++ c))%string.
Proof. induction a as [|x a IH]; simpl; [reflexivity | now rewrite IH]. Qed.

Lemma convert_to_persian_numerals_app (a b : string) :
  convert_to_persian_numerals (a ++ b)
  = (convert_to_persian_numerals a ++ convert_to_persian_numerals b)%string.
Proof.
  induction a as [|c r IH]; [reflexivity|].
  change (String c r ++ b)%string with (String c (r ++ b)).
  now rewrite !convert_to_persian_numerals_cons, IH, append_assoc.
Qed.

Lemma english_to_persian_get_cases (c : ascii) :
  let p := english_to_persian_get english_to_persian c in
  has_ascii_digit p = false
  /\ convert_to_persian_numerals p = p
  /\ (Str.digit_of c = None -> p = String c EmptyString).
Proof.
  destruct c as [[|] [|] [|] [|] [|] [|] [|] [|]];
    vm_compute; repeat split; congruence.
Qed.

(** [convert_to_persian_numerals] leaves no ASCII digit behind, changes
    nothing else, and converting twice is converting once. *)
Theorem persian_numerals_replace_every_digit (time_str : string) :
  has_ascii_digit (convert_to_persian_numerals time_str) = false
  /\ convert_to_persian_numerals (convert_to_persian_numerals time_str)
     = convert_to_persian_numerals time_str
  /\ (has_ascii_digit time_str = false -> convert_to_persian_numerals time_str = time_str).
Proof.
  induction time_str as [|c r (IH1 & IH2 & IH3)]; [simpl; auto|].
  destruct (english_to_persian_get_cases c) as (H1 & H2 & H3). cbv zeta in H1, H2, H3.
  rewrite convert_to_persian_numerals_cons.
  rewrite has_ascii_digit_app, convert_to_persian_numerals_app, H1, H2, IH1, IH2.
  repeat split. cbn [has_ascii_digit].
  destruct (Str.digit_of c); [discriminate|].
  intros Hr. rewrite (H3 eq_refl), (IH3 Hr). reflexivity.
Qed.

Lemma persian_numerals_replace_every_digit_witness :
  convert_to_persian_numerals "(:)" = "(:)".
Proof.
  apply (proj2 (proj2 (persian_numerals_replace_every_digit "(:)"))). reflexivity.
Defined.

(** * Unique keys *)

Lemma str_of_int_inj (n m : Z) : str_of_int n = str_of_int m -> n = m.
Proof.
  unfold str_of_int. intros H. apply to_int_inj.
  assert (Hn : forall z, NilZero.int_of_string (NilZero.string_of_int (Z.to_int z))
                         = Some (Z.to_int z)).
  { intros z. apply NilZero.isi; destruct z; simpl; try discriminate;
      intros E; injection E as E; now apply Unsigned.to_uint_nonnil in E. }
  pose proof (Hn n) as H1. rewrite H, Hn in H1. congruence.
Qed.

Lemma append_inj_r (a b c : string) : (a ++ b)%string = (a ++ c)%string -> b = c.
Proof. induction a as [|x a IH]; simpl; intros H; [assumption|]. injection H as H. auto. Qed.

Lemma numbered_key_inj (base_key : string) (n m : Z) :
  numbered_key base_key n = numbered_key base_key m -> n = m.
Proof.
  unfold numbered_key. intros H. apply append_inj_r in H. simpl in H.
  injection H as H. now apply str_of_int_inj.
Qed.

Lemma unique_key_loop_Some (fuel : nat) (base_key : string) (existing_keys : list string)
    (counter : Z) (key : string) :
  unique_key_loop fuel base_key existing_keys counter = Some key ->
  ~ In key existing_keys
  /\ exists n, counter <= n /\ key = numbered_key base_key n
               /\ forall m, counter <= m < n -> In (numbered_key base_key m) existing_keys.
Proof.
  revert counter. induction fuel as [|fuel IH]; simpl; intros counter H; [discriminate|].
  destruct (Str.mem (numbered_key base_key counter) existing_keys) eqn:E.
  - destruct (IH _ H) as (Hn & n & Hle & -> & Hall). split; [assumption|].
    exists n. repeat split; [lia|]. intros m Hm.
    destruct (Z.eq_dec m counter) as [->|Hne]; [now apply mem_In | apply Hall; lia].
  - injection H as <-. split; [rewrite <- mem_In; congruence|].
    exists counter. repeat split; [lia|]. intros m Hm. lia.
Qed.

Lemma unique_key_loop_None (fuel : nat) (base_key : string) (existing_keys : list string)
    (counter : Z) :
  unique_key_loop fuel base_key existing_keys counter = None ->
  forall m, counter <= m < counter + Z.of_nat fuel ->
            In (numbered_key base_key m) existing_keys.
Proof.
  revert counter. induction fuel as [|fuel IH]; simpl; intros counter H m Hm; [lia|].
  destruct (Str.mem (numbered_key base_key counter) existing_keys) eqn:E; [|discriminate].
  destruct (Z.eq_dec m counter) as [->|Hne]; [now apply mem_In|].
  apply (IH _ H). lia.
Qed.

Lemma unique_key_loop_total (base_key : string) (existing_keys : list string) :
  unique_key_loop (S (List.length existing_keys)) base_key existing_keys 1 <> None.
Proof.
  intros H. pose proof (unique_key_loop_None _ _ _ _ H) as Hall.
  set (l := map (fun i => numbered_key base_key (Z.of_nat i))
              (seq 1 (S (List.length existing_keys)))).
  assert (Hnd : NoDup l).
  { apply NoDup_map_NoDup_ForallPairs; [|apply seq_NoDup].
    intros x y _ _ E. apply numbered_key_inj in E. lia. }
  assert (Hincl : incl l existing_keys).
  { intros k Hk. apply in_map_iff in Hk. destruct Hk as (i & <- & Hi).
    apply in_seq in Hi. apply Hall. lia. }
  pose proof (NoDup_incl_length Hnd Hincl) as Hlen.
  unfold l in Hlen. rewrite length_map, length_seq in Hlen. lia.
Qed.

(** [generate_unique_key] always returns, and the key it returns is none of
    the existing keys: the base key itself when that is free, and otherwise
    the base key with the least counter from 1 on that makes a free key. *)
Theorem generate_unique_key_is_fresh (base_key : string) (existing_keys : list string) :
  exists key,
    generate_unique_key base_key existing_keys = Some key
    /\ ~ In key existing_keys
    /\ (~ In base_key existing_keys -> key = base_key)
    /\ (In base_key existing_keys ->
        exists n, 1 <= n /\ key = numbered_key base_key n
                  /\ forall m, 1 <= m < n -> In (numbered_key base_key m) existing_keys).
Proof.
  unfold generate_unique_key. destruct (Str.mem base_key existing_keys) eqn:E; simpl.
  - apply mem_In in E.
    destruct (unique_key_loop (S (List.length existing_keys)) base_key existing_keys 1)
      as [key|] eqn:H; [|exfalso; exact (unique_key_loop_total _ _ H)].
    destruct (unique_key_loop_Some _ _ _ _ _ H) as (Hn & n & Hle & -> & Hall).
    exists (numbered_key base_key n). repeat split; auto; [contradiction|].
    intros _. exists n. auto.
  - assert (~ In base_key existing_keys) as Hn by (rewrite <- mem_In; congruence).
    exists base_key. repeat split; auto. contradiction.
Qed.

Lemma generate_unique_key_is_fresh_witness :
  exists key,
    generate_unique_key "A1" ["A1"; "A1_1"; "B1"] = Some key
    /\ ~ In key ["A1"; "A1_1"; "B1"]
    /\ (~ In "A1" ["A1"; "A1_1"; "B1"] -> key = "A1")
    /\ (In "A1" ["A1"; "A1_1"; "B1"] ->
        exists n, 1 <= n /\ key = numbered_key "A1" n
                  /\ forall m, 1 <= m < n -> In (numbered_key "A1" m) ["A1"; "A1_1"; "B1"]).
Proof. exact (generate_unique_key_is_fresh "A1" ["A1"; "A1_1"; "B1"]). Defined.

(** * Removing a course for good: [remove_entire_course] *)

Lemma remove_all_fold (cells : list cell) (w : window) :
  fold_left (fun acc start_tuple => remove_placed_by_start start_tuple acc) cells w
  = remove_all cells w.
Proof.
  unfold remove_all. revert w. induction cells as [|k r IH]; intros w; [reflexivity|].
  simpl. rewrite IH. f_equal.
  unfold remove_placed_by_start, dict_mem. now destruct (dict_get k (placed w)).
Qed.

Lemma remove_all_other (cells : list cell) (w : window) (k : cell) (i : info) :
  In (k, i) (placed w) -> ~ In k cells -> In (k, i) (placed (remove_all cells w)).
Proof.
  revert w. induction cells as [|c r IH]; intros w Hin Hn; [exact Hin|].
  unfold remove_all. simpl. apply IH; [|intros H; apply Hn; now right].
  destruct (dict_mem c (placed w)) eqn:Em; [|exact Hin].
  rewrite placed_remove_placed_by_start, Em. apply In_dict_del_neq; [assumption|].
  intros ->. apply Hn. now left.
Qed.

Lemma stays_refl (key : string) (p : list (cell * info)) : stays key p p.
Proof. intros k i H _. exact H. Qed.

Lemma stays_trans (key : string) (p1 p2 p3 : list (cell * info)) :
  stays key p1 p2 -> stays key p2 p3 -> stays key p1 p3.
Proof. intros H12 H23 k i H Hh. apply H23; [apply H12|]; assumption. Qed.

Section EntireRemoval.

Variable COURSES : catalog.
Variable AnimatedCourseWidget : string -> option string * option string.
Variable key : string.
Variable p0 : list (cell * info).
Hypothesis Hwf : wf_placed p0.

Let EInv := entire_inv key p0.

Lemma stripped_not_holding (k : cell) (i : info) :
  stripped key p0 k i -> info_holds key i = false /\ info_is_dual i = false.
Proof.
  intros (cs & rows & id & o & e & wd & Hin & Hk & ->).
  destruct (dual_entry_other key p0 Hwf _ _ _ _ _ _ Hin Hk) as [Hne _].
  split; [|reflexivity]. rewrite info_holds_single. now apply String.eqb_neq.
Qed.

Lemma einv_entry_origin (p : list (cell * info)) (k : cell) (i : info) :
  EInv p -> In (k, i) p -> info_holds key i = true \/ info_is_dual i = true ->
  In (k, i) p0.
Proof.
  intros HI Hin H. destruct (einv_origin _ _ _ HI _ _ Hin) as [?|Hd]; [assumption|].
  destruct (stripped_not_holding _ _ Hd) as [H1 H2]. destruct H; congruence.
Qed.

Lemma einv_start : EInv p0.
Proof. destruct Hwf as (Hnd & _). constructor; auto. Qed.

Lemma holder_not_kept (k : cell) (i : info) :
  holder key p0 k -> In (k, i) p0 -> info_holds key i = false -> False.
Proof.
  intros (i' & Hi' & Hh) Hin Hn. destruct Hwf as (Hnd & _).
  rewrite (NoDup_keys_unique _ _ _ _ Hnd Hin Hi') in Hn. congruence.
Qed.

Lemma einv_del (k : cell) (p : list (cell * info)) :
  EInv p -> holder key p0 k -> EInv (dict_del k p).
Proof.
  intros HI Hh. constructor.
  - now apply NoDup_dict_del, (einv_nodup _ _ _ HI).
  - intros k' i' Hin. apply (einv_origin _ _ _ HI). eapply In_dict_del; eassumption.
  - intros k' i' Hin Hn. apply In_dict_del_neq; [now apply (einv_kept _ _ _ HI)|].
    intros ->. eapply holder_not_kept; eassumption.
Qed.

Lemma e_found_is_ref (p : list (cell * info)) (id : nat) (o e : course_data)
    (pos : cell) (span : Z) :
  EInv p -> ref_of_key key p0 (id, o, e) -> find_dual_widget id p = Some (pos, span) ->
  exists cs, In (pos, DualInfo cs span id o e) p /\ In (pos, DualInfo cs span id o e) p0
             /\ Str.mem key cs = true.
Proof.
  intros HI (k & cs & rows & Hin0 & Hk) Hf.
  destruct (find_dual_widget_Some _ _ _ _ Hf) as (cs' & o' & e' & Hin).
  assert (In (pos, DualInfo cs' span id o' e') p0) as Hin0'.
  { eapply einv_entry_origin; eauto. }
  destruct Hwf as (Hnd & _ & Hid).
  assert (pos = k) as -> by (eapply Hid; eassumption).
  pose proof (NoDup_keys_unique _ _ _ _ Hnd Hin0 Hin0') as E. injection E as -> -> -> ->.
  exists cs'. auto.
Qed.

(** The two writes of [remove_course_from_dual_widget] on [self.placed]. *)
Lemma e_convert_step (p : list (cell * info)) (id : nat) (o e : course_data)
    (pos : cell) (span : Z) :
  EInv p -> ref_of_key key p0 (id, o, e) -> find_dual_widget id p = Some (pos, span) ->
  let other := other_course_key o e key in
  let p2 := dict_del pos p in
  (count_dual p2 < count_dual p)%nat
  /\ keeps key p p2 /\ stays key p p2
  /\ gone (id, o, e) p2
  /\ holder key p0 pos
  /\ EInv p2
  /\ (forall wd,
        let p5 := dict_set pos (SingleInfo other span wd) p2 in
        EInv p5 /\ keeps key p2 p5 /\ stays key p2 p5 /\ gone (id, o, e) p5
        /\ (count_dual p5 <= count_dual p2)%nat
        /\ In (pos, SingleInfo other span wd) p5).
Proof.
  intros HI Hr Hf other p2.
  destruct (e_found_is_ref _ _ _ _ _ _ HI Hr Hf) as (cs & Hin & Hin0 & Hk).
  pose proof (einv_nodup _ _ _ HI) as Hnd.
  destruct (NoDup_dict_del pos p Hnd) as [Hnd2 Habs]. fold p2 in Hnd2, Habs.
  pose proof Hwf as (Hnd0 & _ & Hid).
  assert (Hpos : holder key p0 pos).
  { exists (DualInfo cs span id o e). split; [assumption|]. now rewrite info_holds_dual. }
  assert (HI2 : EInv p2) by now apply einv_del.
  assert (Hgone2 : gone (id, o, e) p2).
  { unfold gone. simpl. apply find_dual_widget_None. intros k cs' rows o' e' Hin'.
    assert (In (k, DualInfo cs' rows id o' e') p0) as Hin0'.
    { eapply einv_entry_origin; [exact HI | eapply In_dict_del; eassumption | now right]. }
    assert (k = pos) as -> by (eapply Hid; eassumption).
    apply Habs. eapply In_keys; eassumption. }
  assert (Hstay2 : stays key p p2).
  { intros k i Hi Hn. apply In_dict_del_neq; [assumption|]. intros ->.
    rewrite (NoDup_keys_unique _ _ _ _ Hnd Hi Hin) in Hn.
    rewrite info_holds_dual in Hn. congruence. }
  refine (conj _ (conj (keeps_del key pos p) (conj Hstay2 (conj Hgone2
            (conj Hpos (conj HI2 _)))))).
  - eapply count_dual_del; eauto.
  - intros wd p5.
    destruct (dual_entry_other key p0 Hwf _ _ _ _ _ _ Hin0 Hk) as [Hne _].
    refine (conj _ (conj _ (conj _ (conj _ (conj _ _))))).
    + constructor.
      * now apply NoDup_dict_set.
      * intros k i Hi. apply In_dict_set in Hi. destruct Hi as [Heq|Hi].
        -- injection Heq as -> ->. right. exists cs, span, id, o, e, wd. auto.
        -- apply (einv_origin _ _ _ HI2 _ _ Hi).
      * intros k i Hi Hn. apply In_dict_set_neq; [now apply (einv_kept _ _ _ HI2)|].
        intros ->. eapply holder_not_kept; eassumption.
    + intros k i Hi Hh. apply In_dict_set in Hi. destruct Hi as [Heq|Hi]; [|assumption].
      injection Heq as -> ->. exfalso.
      destruct Hh as [Hh|Hh]; [|discriminate].
      rewrite info_holds_single in Hh. apply String.eqb_eq in Hh. contradiction.
    + intros k i Hi Hn. apply In_dict_set_neq; [assumption|]. intros ->.
      apply Habs. eapply In_keys; eassumption.
    + unfold gone. simpl. apply find_dual_widget_None. intros k cs' rows o' e' Hin'.
      apply In_dict_set in Hin'. destruct Hin' as [Heq|Hin']; [discriminate|].
      unfold gone in Hgone2. simpl in Hgone2.
      eapply (proj1 (find_dual_widget_None id p2)); eassumption.
    + apply count_dual_set_single.
    + now apply In_dict_set_same.
Qed.

Lemma e_remove_all_spec (cells : list cell) (w : window) :
  EInv (placed w) -> Forall (holder key p0) cells ->
  EInv (placed (remove_all cells w))
  /\ keeps key (placed w) (placed (remove_all cells w))
  /\ (forall k, In k cells -> ~ In k (map fst (placed (remove_all cells w)))).
Proof.
  intros HI Hc. revert w HI. induction Hc as [|k r Hk Hr IH]; intros w HI.
  - simpl. refine (conj HI (conj (keeps_refl _ _) _)). intros k [].
  - set (w1 := if dict_mem k (placed w) then remove_placed_by_start k w else w).
    change (remove_all (k :: r) w) with (remove_all r w1).
    assert (H1 : EInv (placed w1) /\ keeps key (placed w) (placed w1)
                 /\ ~ In k (map fst (placed w1))).
    { unfold w1. destruct (dict_mem k (placed w)) eqn:Em.
      - rewrite placed_remove_placed_by_start, Em. refine (conj _ (conj _ _)).
        + now apply einv_del.
        + apply keeps_del.
        + now apply NoDup_dict_del, (einv_nodup _ _ _ HI).
      - refine (conj HI (conj (keeps_refl _ _) _)).
        rewrite <- dict_mem_keys. congruence. }
    destruct H1 as (HI1 & Hk1 & Habs1). destruct (IH w1 HI1) as (HI2 & Hk2 & Habs2).
    refine (conj HI2 (conj _ _)); [eapply keeps_trans; eassumption|].
    intros k' [<-|Hin]; [|auto].
    intros Hin. apply in_map_iff in Hin. destruct Hin as ([k0 i0] & E & Hin).
    simpl in E. subst k0. apply Habs1. eapply In_keys.
    eapply remove_all_sub. eassumption.
Qed.

Lemma e_scan_ok (exc : option cell) (p : list (cell * info))
    (tc : list dual_ref) (tr : list cell) :
  EInv p -> removal_scan key exc p p = (tc, tr) ->
  Forall (ref_of_key key p0) tc /\ Forall (holder key p0) tr
  /\ (forall k i, In (k, i) p -> info_holds key i = false -> ~ In k tr).
Proof.
  intros HI Hs. destruct (removal_scan_spec _ _ _ _ _ _ Hs) as (S1 & S2 & _).
  refine (conj _ (conj _ _)).
  - apply Forall_forall. intros [[id o] e] Hin.
    destruct (S1 _ _ _ Hin) as (k & cs & rows & Hp & Hk & _).
    exists k, cs, rows. split; [|assumption]. eapply einv_entry_origin; eauto.
  - apply Forall_forall. intros k Hin. destruct (S2 _ Hin) as (i & Hp & Hh & _).
    exists i. split; [|assumption]. eapply einv_entry_origin; eauto.
  - intros k i Hin Hn Htr. destruct (S2 _ Htr) as (i' & Hp & Hh & _).
    rewrite (NoDup_keys_unique _ _ _ _ (einv_nodup _ _ _ HI) Hin Hp) in Hn. congruence.
Qed.

Lemma e_convert_all_spec (n : nat) (convert : dual_ref -> window -> option window)
    (refs : list dual_ref) (w : window) :
  strips key p0 n convert ->
  EInv (placed w) -> Forall (ref_of_key key p0) refs -> (count_dual (placed w) <= n)%nat ->
  exists w', convert_all convert refs w = Some w'
             /\ EInv (placed w')
             /\ keeps key (placed w) (placed w')
             /\ stays key (placed w) (placed w')
             /\ Forall (fun r => gone r (placed w')) refs.
Proof.
  intros Hc HI Hr. revert w HI. induction Hr as [|r rest Hr Hrest IH]; intros w HI Hn.
  - exists w. simpl.
    refine (conj eq_refl (conj HI (conj (keeps_refl _ _) (conj (stays_refl _ _) _)))).
    constructor.
  - destruct (Hc w r HI Hr Hn) as (w1 & E1 & HI1 & Hk1 & Hs1 & Hg1).
    assert (count_dual (placed w1) <= n)%nat as Hn1.
    { pose proof (count_dual_keeps _ _ _ (einv_nodup _ _ _ HI1) Hk1). lia. }
    destruct (IH w1 HI1 Hn1) as (w2 & E2 & HI2 & Hk2 & Hs2 & Hg2).
    exists w2. simpl. rewrite E1.
    refine (conj E2 (conj HI2 (conj _ (conj _ _)))).
    + eapply keeps_trans; eassumption.
    + eapply stays_trans; eassumption.
    + constructor; [|assumption]. eapply gone_keeps; eassumption.
Qed.

Lemma e_remove_except_spec (n : nat) (convert : dual_ref -> window -> option window)
    (e : cell) (w : window) :
  strips key p0 n convert ->
  EInv (placed w) -> (count_dual (placed w) <= n)%nat ->
  exists w', remove_course_sessions_except_cell_with convert key e w = Some w'
             /\ EInv (placed w')
             /\ keeps key (placed w) (placed w')
             /\ stays key (placed w) (placed w').
Proof.
  intros Hc HI Hn. unfold remove_course_sessions_except_cell_with.
  destruct (removal_scan key (Some e) (placed w) (placed w)) as [tc tr] eqn:Es.
  destruct (e_scan_ok _ _ _ _ HI Es) as (Htc & Htr & Hfree).
  destruct (e_convert_all_spec n convert tc w Hc HI Htc Hn) as (w1 & -> & HI1 & Hk1 & Hs1 & _).
  destruct (e_remove_all_spec tr w1 HI1 Htr) as (HI2 & Hk2 & _).
  eexists. refine (conj eq_refl (conj HI2 (conj _ _))).
  - eapply keeps_trans; eassumption.
  - intros k i Hin Hh. apply remove_all_other; [now apply Hs1 | eapply Hfree; eassumption].
Qed.

(** [remove_course_from_dual_widget] with [S n] units of fuel strips [key]
    off a dual widget on stores of at most [n] dual entries. *)
Lemma remove_course_from_dual_widget_strips (n : nat) :
  strips key p0 n (remove_course_from_dual_widget COURSES AnimatedCourseWidget (S n) key).
Proof.
  induction n as [|n IH]; intros w [[id o] e] HI Hr Hn;
    rewrite remove_course_from_dual_widget_S.
  - destruct (find_dual_widget id (placed w)) as [[pos span]|] eqn:Ef.
    + exfalso. destruct (find_dual_widget_Some _ _ _ _ Ef) as (cs & o' & e' & Hin).
      pose proof (count_dual_del pos _ _ (einv_nodup _ _ _ HI) Hin eq_refl). lia.
    + exists w.
      refine (conj eq_refl (conj HI (conj (keeps_refl _ _) (conj (stays_refl _ _) Ef)))).
  - destruct (find_dual_widget id (placed w)) as [[pos span]|] eqn:Ef.
    2: { exists w.
         refine (conj eq_refl (conj HI (conj (keeps_refl _ _) (conj (stays_refl _ _) Ef)))). }
    destruct (e_convert_step _ _ _ _ _ _ HI Hr Ef)
      as (Hlt & Hk2 & Hs2 & Hg2 & Hpos & HI2 & Hset).
    cbv zeta.
    destruct (course_truthy (COURSES_get_or_empty COURSES (other_course_key o e key)))
      eqn:Et.
    + match goal with
      | |- exists w', remove_course_sessions_except_cell_with _ _ _ ?x = _ /\ _ =>
          match x with
          | set_placed (dict_set _ (SingleInfo _ _ (Some ?c)) _) _ =>
              destruct (Hset (Some c)) as (HI5 & Hk5 & Hs5 & Hg5 & Hle & _);
              assert (placed x = dict_set pos
                        (SingleInfo (other_course_key o e key) span (Some c))
                        (dict_del pos (placed w))) as Ep5
                by (cbn [set_placed placed]; rewrite placed_setCellWidget; reflexivity);
              set (w5 := x) in *
          end
      end.
      destruct (e_remove_except_spec n _ pos w5 IH) as (w' & E' & HI' & Hk' & Hs').
      * rewrite Ep5. exact HI5.
      * rewrite Ep5. lia.
      * exists w'. rewrite Ep5 in Hk', Hs'.
        refine (conj E' (conj HI' (conj _ (conj _ _)))).
        -- eapply keeps_trans; [|exact Hk']. eapply keeps_trans; eassumption.
        -- eapply stays_trans; [|exact Hs']. eapply stays_trans; eassumption.
        -- eapply gone_keeps; eassumption.
    + eexists. refine (conj eq_refl (conj _ (conj _ (conj _ _)))); cbn [placed set_placed].
      * exact HI2.
      * exact Hk2.
      * exact Hs2.
      * exact Hg2.
Qed.

Lemma remove_entire_course_loop_spec (n : nat) (snapshot : list (cell * info))
    (to_remove : list cell) (w : window) :
  EInv (placed w) -> (count_dual (placed w) <= n)%nat ->
  (forall k i, In (k, i) snapshot -> In (k, i) p0) ->
  Forall (holder key p0) to_remove ->
  exists tr w',
    remove_entire_course_loop COURSES AnimatedCourseWidget (S n) key snapshot to_remove w
    = Some (tr, w')
    /\ EInv (placed w')
    /\ keeps key (placed w) (placed w')
    /\ stays key (placed w) (placed w')
    /\ Forall (holder key p0) tr
    /\ (forall k, In k to_remove -> In k tr)
    /\ (forall k rows wd, In (k, SingleInfo key rows wd) snapshot -> In k tr)
    /\ (forall k cs rows id o e, In (k, DualInfo cs rows id o e) snapshot ->
          Str.mem key cs = true -> gone (id, o, e) (placed w'))
    /\ (forall k, In k tr ->
          In k to_remove \/ exists rows wd, In (k, SingleInfo key rows wd) snapshot).
Proof.
  revert to_remove w. induction snapshot as [|[k0 i0] r IH]; intros to_remove w HI Hn Hsnap Htr.
  - exists to_remove, w. simpl.
    refine (conj eq_refl (conj HI (conj (keeps_refl _ _) (conj (stays_refl _ _)
              (conj Htr (conj (fun _ H => H) (conj _ (conj _ _)))))))).
    + intros k rows wd [].
    + intros k cs rows id o e [].
    + intros k H. now left.
  - assert (Hsnap' : forall k i, In (k, i) r -> In (k, i) p0)
      by (intros k i H; apply Hsnap; now right).
    destruct i0 as [c rows0 wd0|cs rows0 id0 o0 e0]; cbn [remove_entire_course_loop].
    + destruct (String.eqb c key) eqn:Ec.
      * apply String.eqb_eq in Ec. subst c.
        assert (Htr' : Forall (holder key p0) (to_remove ++ [k0])).
        { apply Forall_app. split; [assumption|]. constructor; [|constructor].
          exists (SingleInfo key rows0 wd0). split; [apply Hsnap; now left|].
          rewrite info_holds_single. apply String.eqb_refl. }
        destruct (IH _ w HI Hn Hsnap' Htr') as (tr & w' & E & HI' & Hk & Hs & Hh & Hin & H1 & H2 & H3).
        exists tr, w'.
        refine (conj E (conj HI' (conj Hk (conj Hs (conj Hh (conj _ (conj _ (conj _ _)))))))).
        -- intros k H. apply Hin. apply in_or_app. now left.
        -- intros k rows wd [Heq|H]; [|eauto].
           injection Heq as <- _ _. apply Hin. apply in_or_app. right. now left.
        -- intros k cs rows id o e [Heq|H]; [discriminate | eauto].
        -- intros k H. destruct (H3 k H) as [Ht|(rows & wd & Hs')].
           ++ apply in_app_or in Ht. destruct Ht as [Ht|[<-|[]]]; [now left|].
              right. exists rows0, wd0. now left.
           ++ right. exists rows, wd. now right.
      * destruct (IH _ w HI Hn Hsnap' Htr) as (tr & w' & E & HI' & Hk & Hs & Hh & Hin & H1 & H2 & H3).
        exists tr, w'.
        refine (conj E (conj HI' (conj Hk (conj Hs (conj Hh (conj Hin (conj _ (conj _ _)))))))).
        -- intros k rows wd [Heq|H]; [|eauto].
           injection Heq as _ -> _ _. rewrite String.eqb_refl in Ec. discriminate.
        -- intros k cs rows id o e [Heq|H]; [discriminate | eauto].
        -- intros k H. destruct (H3 k H) as [Ht|(rows & wd & Hs')]; [now left|].
           right. exists rows, wd. now right.
    + destruct (Str.mem key cs) eqn:Ec.
      * assert (Hr : ref_of_key key p0 (id0, o0, e0)).
        { exists k0, cs, rows0. split; [apply Hsnap; now left | assumption]. }
        destruct (remove_course_from_dual_widget_strips n w _ HI Hr Hn)
          as (w1 & -> & HI1 & Hk1 & Hs1 & Hg1).
        assert (count_dual (placed w1) <= n)%nat as Hn1.
        { pose proof (count_dual_keeps _ _ _ (einv_nodup _ _ _ HI1) Hk1). lia. }
        destruct (IH _ w1 HI1 Hn1 Hsnap' Htr)
          as (tr & w' & E & HI' & Hk & Hs & Hh & Hin & H1 & H2 & H3).
        exists tr, w'.
        refine (conj E (conj HI' (conj _ (conj _ (conj Hh (conj Hin (conj _ (conj _ _)))))))).
        -- eapply keeps_trans; eassumption.
        -- eapply stays_trans; eassumption.
        -- intros k rows wd [Heq|H]; [discriminate | eauto].
        -- intros k cs' rows id o e [Heq|H] Hm; [|eauto].
           injection Heq as _ _ _ <- <- <-. eapply gone_keeps; eassumption.
        -- intros k H. destruct (H3 k H) as [Ht|(rows & wd & Hs')]; [now left|].
           right. exists rows, wd. now right.
      * destruct (IH _ w HI Hn Hsnap' Htr) as (tr & w' & E & HI' & Hk & Hs & Hh & Hin & H1 & H2 & H3).
        exists tr, w'.
        refine (conj E (conj HI' (conj Hk (conj Hs (conj Hh (conj Hin (conj _ (conj _ _)))))))).
        -- intros k rows wd [Heq|H]; [discriminate | eauto].
        -- intros k cs' rows id o e [Heq|H] Hm; [|eauto].
           injection Heq as _ <- _ _ _ _. congruence.
        -- intros k H. destruct (H3 k H) as [Ht|(rows & wd & Hs')]; [now left|].
           right. exists rows, wd. now right.
Qed.

Lemma remove_entire_course_fuel_enough (w : window) :
  placed w = p0 ->
  exists tr w',
    remove_entire_course_loop COURSES AnimatedCourseWidget (S (count_dual (placed w)))
      key (placed w) [] w = Some (tr, w')
    /\ remove_entire_course COURSES AnimatedCourseWidget key w = remove_all tr w'
    /\ EInv (placed (remove_all tr w'))
    /\ (forall k i, In (k, i) (placed (remove_all tr w')) -> info_holds key i = false).
Proof.
  intros Ep. pose proof einv_start as HI. rewrite <- Ep in HI.
  destruct (remove_entire_course_loop_spec (count_dual (placed w)) (placed w) [] w HI
              (le_n _)) as (tr & w' & E & HI' & Hk & _ & Hh & _ & H1 & H2 & _).
  { intros k i H. now rewrite <- Ep. }
  { constructor. }
  destruct (e_remove_all_spec tr w' HI' Hh) as (HI2 & Hk2 & Habs).
  exists tr, w'. refine (conj E (conj _ (conj HI2 _))).
  - unfold remove_entire_course. rewrite E. apply remove_all_fold.
  - intros k i Hin. destruct (info_holds key i) eqn:Eh; [exfalso | reflexivity].
    assert (In (k, i) (placed w')) as Hin1 by (apply Hk2; auto).
    assert (In (k, i) (placed w)) as Hin0 by (apply Hk; auto).
    destruct i as [c rows wd|cs rows id o e].
    + rewrite info_holds_single in Eh. apply String.eqb_eq in Eh. subst c.
      apply (Habs k); [eapply H1; eassumption | eapply In_keys; eassumption].
    + rewrite info_holds_dual in Eh. specialize (H2 _ _ _ _ _ _ Hin0 Eh).
      unfold gone in H2. simpl in H2.
      eapply (proj1 (find_dual_widget_None id (placed w'))); eassumption.
Qed.

(** Before the first dual cell of the course the loop only notes cells. *)
Lemma remove_entire_course_loop_pre (fuel : nat) (pre rest : list (cell * info))
    (to_remove : list cell) (w : window) :
  (forall k i, In (k, i) pre -> info_is_dual i = true -> info_holds key i = false) ->
  exists noted,
    remove_entire_course_loop COURSES AnimatedCourseWidget fuel key (pre ++ rest) to_remove w
    = remove_entire_course_loop COURSES AnimatedCourseWidget fuel key rest
        (to_remove ++ noted) w
    /\ (forall k, In k noted -> exists rows wd, In (k, SingleInfo key rows wd) pre).
Proof.
  revert to_remove. induction pre as [|[k0 i0] r IH]; intros to_remove Hpre.
  - exists []. rewrite app_nil_r. split; [reflexivity | intros k []].
  - assert (Hpre' : forall k i, In (k, i) r -> info_is_dual i = true ->
                                info_holds key i = false)
      by (intros k i H; apply (Hpre k i); now right).
    destruct i0 as [c rows0 wd0|cs rows0 id0 o0 e0]; simpl.
    + destruct (String.eqb c key) eqn:Ec.
      * apply String.eqb_eq in Ec. subst c.
        destruct (IH (to_remove ++ [k0]) Hpre') as (noted & E & Hn).
        exists (k0 :: noted). rewrite E, <- app_assoc. split; [reflexivity|].
        intros k [<-|H]; [exists rows0, wd0; now left|].
        destruct (Hn k H) as (rows & wd & Hin). exists rows, wd. now right.
      * destruct (IH to_remove Hpre') as (noted & E & Hn).
        exists noted. split; [exact E|].
        intros k H. destruct (Hn k H) as (rows & wd & Hin). exists rows, wd. now right.
    + pose proof (Hpre k0 _ (or_introl eq_refl) eq_refl) as Hno.
      rewrite info_holds_dual in Hno. rewrite Hno.
      destruct (IH to_remove Hpre') as (noted & E & Hn).
      exists noted. split; [exact E|].
      intros k H. destruct (Hn k H) as (rows & wd & Hin). exists rows, wd. now right.
Qed.

Lemma remove_entire_course_first_partner (w : window) (pre post : list (cell * info))
    (k : cell) (cs : list string) (rows : Z) (id : nat) (o e : course_data) :
  placed w = p0 ->
  p0 = pre ++ (k, DualInfo cs rows id o e) :: post ->
  Str.mem key cs = true ->
  (forall k' i', In (k', i') pre -> info_is_dual i' = true -> info_holds key i' = false) ->
  course_truthy (COURSES_get_or_empty COURSES (other_course_key o e key)) = true ->
  exists wd,
    In (k, SingleInfo (other_course_key o e key) rows wd)
      (placed (remove_entire_course COURSES AnimatedCourseWidget key w)).
Proof.
  intros Ep Esplit Hk Hpre Ht.
  pose proof einv_start as HI. rewrite <- Ep in HI.
  pose proof Hwf as (Hnd0 & _ & Hid).
  assert (Hin0 : In (k, DualInfo cs rows id o e) p0).
  { rewrite Esplit. apply in_or_app. right. now left. }
  assert (Hr : ref_of_key key p0 (id, o, e)) by (exists k, cs, rows; auto).
  remember (count_dual (placed w)) as n eqn:En.
  unfold remove_entire_course. rewrite <- En, Ep, Esplit.
  destruct (remove_entire_course_loop_pre (S n) pre ((k, DualInfo cs rows id o e) :: post)
              [] w Hpre) as (noted & -> & Hnoted).
  cbn [remove_entire_course_loop app]. rewrite Hk.
  rewrite remove_course_from_dual_widget_S.
  destruct (find_dual_widget id (placed w)) as [[pos span]|] eqn:Ef.
  2: { exfalso. rewrite find_dual_widget_None in Ef. rewrite Ep in Ef.
       eapply Ef. eassumption. }
  destruct (e_found_is_ref _ _ _ _ _ _ HI Hr Ef) as (cs' & _ & Hin0' & _).
  assert (pos = k) as -> by (eapply Hid; eassumption).
  pose proof (NoDup_keys_unique _ _ _ _ Hnd0 Hin0 Hin0') as E. injection E as <- <-.
  destruct (e_convert_step _ _ _ _ _ _ HI Hr Ef) as (Hlt & Hk2 & Hs2 & Hg2 & Hpos & HI2 & Hset).
  destruct n as [|m]; [lia|].
  cbv zeta. rewrite Ht.
  match goal with
  | |- context [remove_course_sessions_except_cell_with _ _ _ ?x] =>
      match x with
      | set_placed (dict_set _ (SingleInfo _ _ (Some ?c)) _) _ =>
          destruct (Hset (Some c)) as (HI5 & _ & _ & _ & Hle & Hat);
          assert (placed x = dict_set k
                    (SingleInfo (other_course_key o e key) rows (Some c))
                    (dict_del k (placed w))) as Ep5
            by (cbn [set_placed placed]; rewrite placed_setCellWidget; reflexivity);
          set (w5 := x) in *; exists (Some c)
      end
  end.
  destruct (e_remove_except_spec m _ k w5 (remove_course_from_dual_widget_strips m))
    as (w1 & -> & HI1 & Hk1 & Hs1).
  { rewrite Ep5. exact HI5. }
  { rewrite Ep5. lia. }
  destruct (dual_entry_other key p0 Hwf _ _ _ _ _ _ Hin0 Hk) as [Hne _].
  assert (Hfree : info_holds key (SingleInfo (other_course_key o e key) rows
                                   (Some (CourseWidget (next_id (set_placed (dict_del k (placed w)) (removeCellWidget k w)))
                                            (fst (AnimatedCourseWidget (other_course_key o e key)))
                                            (snd (AnimatedCourseWidget (other_course_key o e key))))))
                  = false).
  { rewrite info_holds_single. now apply String.eqb_neq. }
  rewrite <- Ep5 in Hat. apply (Hs1 _ _ Hat) in Hfree as Hat1.
  assert (Hn1 : (count_dual (placed w1) <= S m)%nat).
  { pose proof (count_dual_keeps _ _ _ (einv_nodup _ _ _ HI1) Hk1) as Hc.
    rewrite Ep5 in Hc. lia. }
  assert (Hsnap : forall k' i', In (k', i') post -> In (k', i') p0).
  { intros k' i' H. rewrite Esplit. apply in_or_app. right. now right. }
  assert (Hnoted' : Forall (holder key p0) noted).
  { apply Forall_forall. intros k' H. destruct (Hnoted k' H) as (r' & wd' & Hin').
    exists (SingleInfo key r' wd'). split.
    - rewrite Esplit. apply in_or_app. now left.
    - rewrite info_holds_single. apply String.eqb_refl. }
  destruct (remove_entire_course_loop_spec (S m) post noted w1 HI1 Hn1 Hsnap Hnoted')
    as (tr & w' & -> & HI' & _ & Hs' & _ & _ & _ & _ & Htr).
  rewrite remove_all_fold. apply remove_all_other; [now apply Hs'|].
  intros Hin. assert (exists r' wd', In (k, SingleInfo key r' wd') p0) as (r' & wd' & Hbad).
  { destruct (Htr k Hin) as [Hn|(r' & wd' & Hp)].
    - destruct (Hnoted k Hn) as (r' & wd' & Hp). exists r', wd'.
      rewrite Esplit. apply in_or_app. now left.
    - exists r', wd'. apply Hsnap. exact Hp. }
  pose proof (NoDup_keys_unique _ _ _ _ Hnd0 Hin0 Hbad). discriminate.
Qed.

Lemma entire_inv_wf (p : list (cell * info)) : EInv p -> wf_placed p.
Proof.
  intros HI. destruct Hwf as (Hnd0 & Hcs & Hid).
  refine (conj (einv_nodup _ _ _ HI) (conj _ _)).
  - intros k cs rows id o e Hin. eapply Hcs. eapply einv_entry_origin; eauto.
  - intros k1 k2 cs1 cs2 r1 r2 id o1 o2 e1 e2 H1 H2.
    eapply Hid; eapply einv_entry_origin; eauto.
Qed.

End EntireRemoval.

(** [remove_entire_course] leaves no cell holding the course and touches no
    cell that did not hold it: a single cell of the course ends empty, and
    every entry that remains is an entry of before or a dual cell of the
    course turned into a single cell of its other course. The store stays
    well-formed. *)
Theorem entire_removal_leaves_no_session (COURSES : catalog)
    (AnimatedCourseWidget : string -> option string * option string)
    (key : string) (w : window) :
  wf_placed (placed w) ->
  let p0 := placed w in
  let p' := placed (remove_entire_course COURSES AnimatedCourseWidget key w) in
  (forall k i, In (k, i) p' -> info_holds key i = false)
  /\ (forall k i, In (k, i) p0 -> info_holds key i = false -> In (k, i) p')
  /\ (forall k i, In (k, i) p' -> In (k, i) p0 \/ stripped key p0 k i)
  /\ (forall k rows wd, In (k, SingleInfo key rows wd) p0 -> ~ In k (map fst p'))
  /\ wf_placed p'.
Proof.
  intros Hwf p0 p'.
  destruct (remove_entire_course_fuel_enough COURSES AnimatedCourseWidget key p0 Hwf w eq_refl)
    as (tr & w' & _ & E & HI & Hclean).
  unfold p'. rewrite E.
  refine (conj Hclean (conj (einv_kept _ _ _ HI) (conj (einv_origin _ _ _ HI) (conj _ _)))).
  - intros k rows wd Hi0 Hin. apply in_map_iff in Hin.
    destruct Hin as ([k1 i] & Ek & Hin). simpl in Ek. subst k1.
    pose proof Hwf as (Hnd0 & _).
    destruct (einv_origin _ _ _ HI _ _ Hin) as [Hin0|Hd].
    + rewrite (NoDup_keys_unique _ _ _ _ Hnd0 Hin0 Hi0) in Hin.
      specialize (Hclean _ _ Hin). rewrite info_holds_single, String.eqb_refl in Hclean.
      discriminate.
    + destruct Hd as (cs & rows' & id & o & e & wd' & Hd & _).
      pose proof (NoDup_keys_unique _ _ _ _ Hnd0 Hi0 Hd). discriminate.
  - eapply entire_inv_wf; eassumption.
Qed.

(** Unlike [remove_course_from_schedule], [remove_entire_course] keeps the
    other course of the first dual cell of the course it meets, whether or
    not that course holds another cell: when the other course is a course of
    the catalog, the cell ends as its single cell. *)
Theorem entire_removal_keeps_first_partner (COURSES : catalog)
    (AnimatedCourseWidget : string -> option string * option string)
    (key : string) (w : window) (pre post : list (cell * info))
    (k : cell) (cs : list string) (rows : Z) (id : nat) (o e : course_data) :
  wf_placed (placed w) ->
  placed w = pre ++ (k, DualInfo cs rows id o e) :: post ->
  Str.mem key cs = true ->
  (forall k' i', In (k', i') pre -> info_is_dual i' = true -> info_holds key i' = false) ->
  course_truthy (COURSES_get_or_empty COURSES (other_course_key o e key)) = true ->
  exists wd,
    In (k, SingleInfo (other_course_key o e key) rows wd)
      (placed (remove_entire_course COURSES AnimatedCourseWidget key w)).
Proof.
  intros Hwf Esplit Hk Hpre Ht.
  exact (remove_entire_course_first_partner COURSES AnimatedCourseWidget key (placed w)
           Hwf w pre post k cs rows id o e eq_refl Esplit Hk Hpre Ht).
Qed.

(** * Removing a whole course, on the small grid *)

(** O1 and V1 share one cell; removing the whole of O1 leaves V1 there. *)
Example entire_removal_keeps_lone_partner :
  map (fun e => (fst e, info_course (snd e), info_courses (snd e)))
    (placed (remove_entire_course demo_grid_catalog demo_widget "O1" window_O1_V1))
  = [((2, 0), Some "V1", [])].
Proof. vm_compute. reflexivity. Qed.

Lemma window_O1_V1_wf : wf_placed (placed window_O1_V1).
Proof.
  split; [|split].
  - simpl. repeat constructor; simpl; intuition congruence.
  - intros k cs rows id o e H. simpl in H. entry_cases H; try discriminate.
    injection H as <- <- <- <- <- <-. split; [reflexivity | discriminate].
  - intros k1 k2 cs1 cs2 r1 r2 id o1 o2 e1 e2 H1 H2. simpl in H1, H2.
    entry_cases H1; try discriminate. entry_cases H2; try discriminate.
    congruence.
Qed.

Lemma entire_removal_leaves_no_session_witness :
  (forall k i,
     In (k, i)
       (placed (remove_entire_course demo_grid_catalog demo_widget "P1" window_P1_Q1)) ->
     info_holds "P1" i = false)
  /\ wf_placed (placed (remove_entire_course demo_grid_catalog demo_widget "P1" window_P1_Q1)).
Proof.
  pose proof (entire_removal_leaves_no_session demo_grid_catalog demo_widget "P1"
                window_P1_Q1 window_P1_Q1_wf) as T.
  cbv zeta in T. exact (conj (proj1 T) (proj2 (proj2 (proj2 (proj2 T))))).
Defined.

Lemma entire_removal_keeps_first_partner_witness :
  exists wd,
    In ((2, 0), SingleInfo "V1" 4 wd)
      (placed (remove_entire_course demo_grid_catalog demo_widget "O1" window_O1_V1)).
Proof.
  match eval vm_compute in (placed window_O1_V1) with
  | [(?k, DualInfo ?cs ?rows ?id ?o ?e)] =>
      apply (entire_removal_keeps_first_partner demo_grid_catalog demo_widget "O1"
               window_O1_V1 [] [] k cs rows id o e)
  end.
  - exact window_O1_V1_wf.
  - reflexivity.
  - reflexivity.
  - intros k' i' [].
  - reflexivity.
Defined.

(** * Removal keeps the store well-formed *)

Section RemovalChain.

Variable COURSES : catalog.
Variable AnimatedCourseWidget : string -> option string * option string.

Lemma remove_course_from_schedule_wf (key : string) (w : window) :
  wf_placed (placed w) ->
  wf_placed (placed (remove_course_from_schedule COURSES AnimatedCourseWidget key w))
  /\ (forall k i,
        In (k, i) (placed (remove_course_from_schedule COURSES AnimatedCourseWidget key w)) ->
        info_holds key i = false)
  /\ (forall other k i,
        In (k, i) (placed (remove_course_from_schedule COURSES AnimatedCourseWidget key w)) ->
        info_holds other i = true ->
        exists i0, In (k, i0) (placed w) /\ info_holds other i0 = true).
Proof.
  intros Hwf.
  destruct (remove_course_from_schedule_fuel_enough COURSES AnimatedCourseWidget key
              (placed w) Hwf w eq_refl) as (w' & E & HI & Hclean).
  pose proof (remove_course_from_schedule_total COURSES AnimatedCourseWidget key w Hwf) as T.
  rewrite E in T. injection T as <-.
  refine (conj _ (conj Hclean _)).
  - pose proof Hwf as (Hnd0 & Hcs & Hid).
    refine (conj (inv_nodup _ _ _ _ HI) (conj _ _)).
    + intros k cs rows id o e Hin. eapply Hcs.
      apply (inv_entry_origin COURSES key (placed w) Hwf _ _ _ HI Hin). now right.
    + intros k1 k2 cs1 cs2 r1 r2 id o1 o2 e1 e2 H1 H2.
      eapply Hid.
      * apply (inv_entry_origin COURSES key (placed w) Hwf _ _ _ HI H1). now right.
      * apply (inv_entry_origin COURSES key (placed w) Hwf _ _ _ HI H2). now right.
  - intros other k i Hin Hh.
    exact (inv_holder_origin COURSES key (placed w) Hwf _ _ _ _ HI Hin Hh).
Qed.

(** A store that is well-formed stays so through any number of removals,
    and once all of them are done no cell holds any of the removed courses:
    what the placement relies on when the user accepts to replace the
    conflicting courses. *)
Theorem removals_keep_store_well_formed (keys : list string) (w : window) :
  wf_placed (placed w) ->
  let w' := fold_left (fun acc k =>
                         remove_course_from_schedule COURSES AnimatedCourseWidget k acc)
              keys w in
  wf_placed (placed w')
  /\ (forall key, In key keys ->
        forall k i, In (k, i) (placed w') -> info_holds key i = false).
Proof.
  intros Hwf. cbv zeta.
  assert (Hgen : forall done w0,
            wf_placed (placed w0) ->
            (forall key, In key done ->
               forall k i, In (k, i) (placed w0) -> info_holds key i = false) ->
            let w' := fold_left (fun acc k =>
                                   remove_course_from_schedule COURSES AnimatedCourseWidget
                                     k acc) keys w0 in
            wf_placed (placed w')
            /\ (forall key, In key (done ++ keys) ->
                  forall k i, In (k, i) (placed w') -> info_holds key i = false)).
  { induction keys as [|key r IH]; intros done w0 Hwf0 Hdone; cbv zeta.
    - simpl. rewrite app_nil_r. auto.
    - simpl. destruct (remove_course_from_schedule_wf key w0 Hwf0) as (Hwf1 & Hclean & Horig).
      destruct (IH (done ++ [key]) _ Hwf1) as [H1 H2].
      + intros key' Hin k i Hi. apply in_app_or in Hin. destruct Hin as [Hin|[<-|[]]].
        * destruct (info_holds key' i) eqn:Eh; [|reflexivity].
          destruct (Horig key' k i Hi Eh) as (i0 & Hi0 & Hh0).
          rewrite (Hdone key' Hin k i0 Hi0) in Hh0. discriminate.
        * eapply Hclean; eassumption.
      + split; [exact H1|]. intros key' Hin. apply H2.
        rewrite <- app_assoc. exact Hin. }
  destruct (Hgen [] w Hwf) as [H1 H2]; [intros key []|].
  split; [exact H1 | exact H2].
Qed.

End RemovalChain.

Lemma removals_keep_store_well_formed_witness :
  wf_placed
    (placed (fold_left (fun acc k => remove_course_from_schedule demo_grid_catalog
                                       demo_widget k acc) ["P1"; "Q1"] window_P1_Q1)).
Proof.
  exact (proj1 (removals_keep_store_well_formed demo_grid_catalog demo_widget
                  ["P1"; "Q1"] window_P1_Q1 window_P1_Q1_wf)).
Defined.

(** * The addition queue *)








Section QueueRun.

Variable COURSES : catalog.
Variable auto_select_list : list (option string * option Z).
Variable unknown : string.
Variable AnimatedCourseWidget : string -> option string * option string.
Variable answers : string -> dialog_answer.




End QueueRun.

(** An unknown key ends the run: X9 raises [TypeError], and N1, queued after
    it, is never placed. *)
Example queue_stops_at_unknown_key :
  _process_course_addition_queue demo_grid_catalog [] "Unknown" demo_widget
    (fun _ => Yes) [("X9", true); ("N1", true)] empty_window
  = mkProcessed [] empty_window [("X9", true)] (Some TypeError).
Proof. vm_compute. reflexivity. Qed.


(** * Clearing the table *)

Lemma dict_get_del {V : Type} (k k' : cell) (d : list (cell * V)) :
  NoDup (map fst d) ->
  dict_get k (dict_del k' d) = if cell_eqb k' k then None else dict_get k d.
Proof.
  induction d as [|[k0 v0] r IH]; simpl; intros Hnd.
  - now destruct (cell_eqb k' k).
  - inversion Hnd as [|? ? Hk0 Hr]. subst. specialize (IH Hr).
    destruct (cell_eqb k0 k') eqn:E0.
    + apply cell_eqb_eq in E0. subst k0.
      destruct (cell_eqb k' k) eqn:E1; [|reflexivity].
      apply cell_eqb_eq in E1. subst k'.
      destruct (dict_get k r) as [v|] eqn:Eg; [|reflexivity].
      exfalso. apply Hk0. apply dict_mem_keys. unfold dict_mem. now rewrite Eg.
    + simpl. destruct (cell_eqb k0 k) eqn:E1.
      * destruct (cell_eqb k' k) eqn:E2; [|reflexivity].
        apply cell_eqb_eq in E1, E2. subst. rewrite cell_eqb_refl in E0. discriminate.
      * exact IH.
Qed.

Lemma removeCellWidget_all (cells : list cell) (w : window) (k : cell) :
  NoDup (map fst (table w)) ->
  let w' := fold_left (fun acc c => removeCellWidget c acc) cells w in
  NoDup (map fst (table w'))
  /\ placed w' = placed w /\ preview_cells w' = preview_cells w
  /\ cellWidget w' k = if existsb (fun c => cell_eqb c k) cells then None else cellWidget w k.
Proof.
  revert w. induction cells as [|c r IH]; intros w Hnd; cbv zeta.
  - simpl. auto.
  - simpl. destruct (IH (removeCellWidget c w)) as (H1 & H2 & H3 & H4).
    { simpl. now apply NoDup_dict_del. }
    refine (conj H1 (conj H2 (conj H3 _))). rewrite H4.
    unfold cellWidget. simpl. rewrite (dict_get_del k c (table w) Hnd).
    destruct (cell_eqb c k); simpl; [|reflexivity].
    now destruct (existsb (fun c0 => cell_eqb c0 k) r).
Qed.

Lemma fold_left_over_map {A B C : Type} (f : A -> C -> A) (g : B -> C) (l : list B) (a : A) :
  fold_left (fun acc x => f acc (g x)) l a = fold_left f (map g l) a.
Proof. revert a. induction l as [|x l IH]; intros a; simpl; auto. Qed.

Lemma clear_preview_spec (w : window) (k : cell) :
  NoDup (map fst (table w)) ->
  placed (clear_preview w) = placed w
  /\ preview_cells (clear_preview w) = []
  /\ cellWidget (clear_preview w) k
     = if existsb (fun c => cell_eqb c k)
            (map (fun p => (fst (fst p), snd (fst p))) (preview_cells w))
       then None else cellWidget w k.
Proof.
  intros Hnd. unfold clear_preview.
  rewrite (fold_left_over_map (fun acc c => removeCellWidget c acc)
             (fun p => (fst (fst p), snd (fst p))) (preview_cells w) w).
  destruct (removeCellWidget_all
              (map (fun p => (fst (fst p), snd (fst p))) (preview_cells w)) w k Hnd)
    as (_ & P & _ & C).
  refine (conj P (conj eq_refl _)). exact C.
Qed.

(** [clear_table_silent] empties [self.placed] and the preview list, takes
    the widget out of every cell either of them named, and leaves the
    widgets of all other cells alone. *)
Theorem clear_table_silent_clears (w : window) (k : cell) :
  NoDup (map fst (table w)) ->
  placed (clear_table_silent w) = []
  /\ preview_cells (clear_table_silent w) = []
  /\ (In k (map fst (placed w)) \/ In k (map (fun p => (fst (fst p), snd (fst p)))
                                          (preview_cells w)) ->
      cellWidget (clear_table_silent w) k = None)
  /\ (~ In k (map fst (placed w)) ->
      ~ In k (map (fun p => (fst (fst p), snd (fst p))) (preview_cells w)) ->
      cellWidget (clear_table_silent w) k = cellWidget w k).
Proof.
  intros Hnd. unfold clear_table_silent.
  rewrite (fold_left_over_map (fun acc c => removeCellWidget c acc) fst (placed w) w).
  destruct (removeCellWidget_all (map fst (placed w)) w k Hnd) as (N1 & P1 & V1 & C1).
  remember (fold_left (fun acc c => removeCellWidget c acc) (map fst (placed w)) w)
    as w1 eqn:E1. clear E1.
  destruct (clear_preview_spec (set_placed [] w1) k N1) as (P2 & V2 & C2).
  rewrite P2, V2, C2. change (preview_cells (set_placed [] w1)) with (preview_cells w1).
  change (cellWidget (set_placed [] w1) k) with (cellWidget w1 k). rewrite V1, C1.
  assert (Hno : forall l, ~ In k l -> existsb (fun c => cell_eqb c k) l = false).
  { intros l Hl. apply not_true_iff_false. intros E. apply existsb_exists in E.
    destruct E as (c & Hc & E). apply cell_eqb_eq in E. now subst. }
  assert (Hyes : forall l, In k l -> existsb (fun c => cell_eqb c k) l = true).
  { intros l Hl. apply existsb_exists. exists k. split; [assumption | apply cell_eqb_refl]. }
  refine (conj eq_refl (conj eq_refl (conj _ _))).
  - intros [Hin|Hin]; rewrite (Hyes _ Hin).
    + destruct (existsb (fun c => cell_eqb c k)
                  (map (fun p => (fst (fst p), snd (fst p))) (preview_cells w)));
        reflexivity.
    + reflexivity.
  - intros H1 H2. rewrite (Hno _ H1), (Hno _ H2). reflexivity.
Qed.

Lemma window_P1_Q1_table_NoDup : NoDup (map fst (table window_P1_Q1)).
Proof. simpl. repeat constructor; simpl; intuition congruence. Qed.

Lemma clear_table_silent_clears_witness :
  cellWidget (clear_table_silent window_P1_Q1) (10, 0) = None.
Proof.
  apply (proj1 (proj2 (proj2 (clear_table_silent_clears window_P1_Q1 (10, 0)
                                window_P1_Q1_table_NoDup)))).
  left. simpl. auto.
Defined.
